(** * A shallow embedding of [game.py]

    The game is a single-file turn-based role-playing game.  Its rules live
    in the classes [Entity], [Player], [Enemy], [Item] (with subclasses
    [Potion], [Weapon], [Armor]), [Spell] and [Quest], in five static
    tables ([world], [enemies], [items], [spells], [npcs]) and in the
    methods of the application object [Game].

    Conventions of the embedding:
    - Python integers are [Z]; [//] by a positive literal is [Z.div].
    - Python strings are [string]; f-strings are written out with [++].
    - Objects that the program compares by identity (items, windows) carry
      the identity they were allocated with; the allocator is a counter of
      the application state.
    - Mutation of [self] is explicit state passing.  Methods of [Game], and
      everything that can raise, live in a state-and-exception monad whose
      state survives a raise, as the Python heap does.
    - [random.random()] and [random.choice] read an explicit source of
      draws held in the state. *)

From Stdlib Require Import ZArith String List Bool Lia Ascii DecimalString.
Import ListNotations.

Local Open Scope string_scope.
Local Open Scope Z_scope.

(** ** Python primitives used by the program *)

Module Py.

(** [str(n)] for an integer, as f-strings format it. *)
Definition str (n : Z) : string := NilZero.string_of_int (Z.to_int n).

(** [len(xs)] *)
Definition len {A} (xs : list A) : Z := Z.of_nat (List.length xs).

(** [xs[i]]: indices [-len .. -1] count from the end, anything outside
    [-len .. len-1] raises [IndexError] (here: [None]). *)
Definition index {A} (xs : list A) (i : Z) : option A :=
  if (0 <=? i) && (i <? len xs) then nth_error xs (Z.to_nat i)
  else if (- len xs <=? i) && (i <? 0) then nth_error xs (Z.to_nat (len xs + i))
  else None.

(** [next((x for x in xs if f x), None)] *)
Definition next_or_none {A} (f : A -> bool) (xs : list A) : option A :=
  List.find f xs.

(** [any(f x for x in xs)] *)
Definition any {A} (f : A -> bool) (xs : list A) : bool := List.existsb f xs.

(** [d[k]] and [k in d] on a dict kept in insertion order. *)
Fixpoint get {V} (d : list (string * V)) (k : string) : option V :=
  match d with
  | [] => None
  | (k', v) :: d' => if String.eqb k' k then Some v else get d' k
  end.

Definition contains {V} (d : list (string * V)) (k : string) : bool :=
  match get d k with Some _ => true | None => false end.

(** [d[k] = v]: an existing key keeps its place, a new key goes last. *)
Fixpoint set {V} (d : list (string * V)) (k : string) (v : V)
  : list (string * V) :=
  match d with
  | [] => [(k, v)]
  | (k', v') :: d' =>
      if String.eqb k' k then (k', v) :: d' else (k', v') :: set d' k v
  end.

Definition upper (c : ascii) : ascii :=
  let n := nat_of_ascii c in
  if (Nat.leb 97 n && Nat.leb n 122)%bool then ascii_of_nat (n - 32) else c.

Definition lower (c : ascii) : ascii :=
  let n := nat_of_ascii c in
  if (Nat.leb 65 n && Nat.leb n 90)%bool then ascii_of_nat (n + 32) else c.

Fixpoint lower_all (s : string) : string :=
  match s with
  | EmptyString => EmptyString
  | String c s' => String (lower c) (lower_all s')
  end.

(** [s.capitalize()] on ASCII text. *)
Definition capitalize (s : string) : string :=
  match s with
  | EmptyString => EmptyString
  | String c s' => String (upper c) (lower_all s')
  end.

End Py.

(** ** [class Entity] *)

Module Entity.

Record t := mk {
  name : string;
  max_hp : Z;
  hp : Z;
  max_stamina : Z;
  stamina : Z;
  attack : Z;
  defense : Z;
  is_defending : bool
}.

(** [Entity.__init__] *)
Definition init (name : string) (hp stamina attack defense : Z) : t :=
  mk name hp hp stamina stamina attack defense false.

Definition set_hp (v : Z) (e : t) : t :=
  mk (name e) (max_hp e) v (max_stamina e) (stamina e) (attack e)
     (defense e) (is_defending e).
Definition set_max_hp (v : Z) (e : t) : t :=
  mk (name e) v (hp e) (max_stamina e) (stamina e) (attack e)
     (defense e) (is_defending e).
Definition set_stamina (v : Z) (e : t) : t :=
  mk (name e) (max_hp e) (hp e) (max_stamina e) v (attack e)
     (defense e) (is_defending e).
Definition set_max_stamina (v : Z) (e : t) : t :=
  mk (name e) (max_hp e) (hp e) v (stamina e) (attack e)
     (defense e) (is_defending e).
Definition set_attack (v : Z) (e : t) : t :=
  mk (name e) (max_hp e) (hp e) (max_stamina e) (stamina e) v
     (defense e) (is_defending e).
Definition set_defense (v : Z) (e : t) : t :=
  mk (name e) (max_hp e) (hp e) (max_stamina e) (stamina e) (attack e)
     v (is_defending e).
Definition set_is_defending (v : bool) (e : t) : t :=
  mk (name e) (max_hp e) (hp e) (max_stamina e) (stamina e) (attack e)
     (defense e) v.

(** [Entity.is_alive] *)
Definition is_alive (e : t) : bool := 0 <? hp e.

(** [Entity.take_damage]: returns the damage dealt and the entity after
    the call. *)
Definition take_damage (damage : Z) (e : t) : Z * t :=
  let '(damage, e) :=
    if is_defending e
    then (Z.max 0 (damage / 2), set_is_defending false e)
    else (damage, e) in
  let actual_damage := Z.max 0 (damage - defense e) in
  let e := set_hp (hp e - actual_damage) e in
  let e := if hp e <? 0 then set_hp 0 e else e in
  (actual_damage, e).

End Entity.

(** [class Enemy(Entity)] *)

Module Enemy.

Record t := mk { ent : Entity.t; xp_reward : Z }.

Definition init (name : string) (hp stamina attack defense xp_reward : Z)
  : t :=
  mk (Entity.init name hp stamina attack defense) xp_reward.

Definition set_ent (v : Entity.t) (e : t) : t := mk v (xp_reward e).

End Enemy.

(** ** Exceptions and the state-and-exception monad *)

Inductive exn :=
| KeyError (key : string)
| IndexError
| ValueError
| AttributeError
| TclError.

Inductive result (A : Type) :=
| Ok (a : A)
| Raise (e : exn).
Arguments Ok {A} a.
Arguments Raise {A} e.

(** A computation over a mutable state [S].  The state that comes back
    with a [Raise] is the state at the moment of the raise. *)
Definition M (S A : Type) : Type := S -> result A * S.

Definition ret {S A} (a : A) : M S A := fun s => (Ok a, s).

Definition bind {S A B} (m : M S A) (k : A -> M S B) : M S B :=
  fun s =>
    match m s with
    | (Ok a, s') => k a s'
    | (Raise e, s') => (Raise e, s')
    end.

Definition raise {S A} (e : exn) : M S A := fun s => (Raise e, s).

Definition get {S} : M S S := fun s => (Ok s, s).

Definition modify {S} (f : S -> S) : M S unit := fun s => (Ok tt, f s).

(** [d[k]] on a value that may be absent: [KeyError] on [None]. *)
Definition lift_option {S A} (e : exn) (o : option A) : M S A :=
  match o with Some a => ret a | None => raise e end.

Definition lift_result {S A} (r : result A) : M S A :=
  match r with Ok a => ret a | Raise e => raise e end.

Declare Scope monad_scope.
Delimit Scope monad_scope with monad.
Notation "x <- m ;; k" := (bind m (fun x => k))
  (at level 61, m at next level, right associativity) : monad_scope.
Notation "m ;; k" := (bind m (fun _ => k))
  (at level 61, right associativity) : monad_scope.
Local Open Scope monad_scope.

(** [for x in xs: body(x)] *)
Fixpoint for_each {S A} (xs : list A) (body : A -> M S unit) : M S unit :=
  match xs with
  | [] => ret tt
  | x :: xs' => body x ;; for_each xs' body
  end.

(** [[f(x) for x in xs]] with an effectful [f] *)
Fixpoint map_M {S A B} (f : A -> M S B) (xs : list A) : M S (list B) :=
  match xs with
  | [] => ret []
  | x :: xs' => y <- f x ;; ys <- map_M f xs' ;; ret (y :: ys)
  end.

(** ** Items, equipment and spells *)

Module Potion.
Record t := mk {
  id : nat; name : string; description : string;
  effect : string; amount : Z
}.
End Potion.

Module Weapon.
Record t := mk {
  id : nat; name : string; description : string; attack_bonus : Z
}.
End Weapon.

Module Armor.
Record t := mk {
  id : nat; name : string; description : string; defense_bonus : Z
}.
End Armor.

Module Item.

(** An instance of [Item] itself. *)
Record plain := mk { plain_id : nat; plain_name : string;
                     plain_description : string }.

(** Any object whose class is [Item] or one of its subclasses. *)
Inductive t :=
| Plain (i : plain)
| IsPotion (p : Potion.t)
| IsWeapon (w : Weapon.t)
| IsArmor (a : Armor.t).

(** The identity of the object ([id(item)]). *)
Definition id (i : t) : nat :=
  match i with
  | Plain i => plain_id i
  | IsPotion p => Potion.id p
  | IsWeapon w => Weapon.id w
  | IsArmor a => Armor.id a
  end.

Definition name (i : t) : string :=
  match i with
  | Plain i => plain_name i
  | IsPotion p => Potion.name p
  | IsWeapon w => Weapon.name w
  | IsArmor a => Armor.name a
  end.

Definition description (i : t) : string :=
  match i with
  | Plain i => plain_description i
  | IsPotion p => Potion.description p
  | IsWeapon w => Weapon.description w
  | IsArmor a => Armor.description a
  end.

(** [a == b]: no class defines [__eq__], so this is [a is b]. *)
Definition same (a b : t) : bool := Nat.eqb (id a) (id b).

End Item.

Module Spell.
Record t := mk {
  name : string; description : string; mana_cost : Z; damage : Z
}.
End Spell.

(** ** [class Quest] *)

(** The document [Quest.to_dict] writes; [None] is an absent key. *)
Module QuestDoc.
Record t := mk {
  name : option string;
  description : option string;
  stages : option (list (list (string * string)));
  current_stage : option Z;
  reward : option string;
  completed : option bool
}.
End QuestDoc.

Module Quest.

(** A stage is a dict from strings to strings. *)
Definition stage : Type := list (string * string).

Record t := mk {
  name : string;
  description : string;
  stages : list stage;
  current_stage : Z;
  reward : string;
  completed : bool
}.

(** [Quest.__init__] *)
Definition init (name description : string) (stages : list stage)
    (reward : string) : t :=
  mk name description stages 0 reward false.

Definition set_current_stage (v : Z) (q : t) : t :=
  mk (name q) (description q) (stages q) v (reward q) (completed q).
Definition set_completed (v : bool) (q : t) : t :=
  mk (name q) (description q) (stages q) (current_stage q) (reward q) v.

(** [Quest.get_current_stage_info] *)
Definition get_current_stage_info (q : t) : result stage :=
  match Py.index (stages q) (current_stage q) with
  | Some s => Ok s
  | None => Raise IndexError
  end.

(** [Quest.advance_stage]: the returned flag and the quest afterwards. *)
Definition advance_stage (q : t) : bool * t :=
  if current_stage q <? Py.len (stages q) - 1
  then (false, set_current_stage (current_stage q + 1) q)
  else (true, set_completed true q).

(** [Quest.to_dict] *)
Definition to_dict (q : t) : QuestDoc.t :=
  QuestDoc.mk (Some (name q)) (Some (description q)) (Some (stages q))
              (Some (current_stage q)) (Some (reward q))
              (Some (completed q)).

Definition field {A} (key : string) (o : option A) : result A :=
  match o with Some a => Ok a | None => Raise (KeyError key) end.

(** [Quest.from_dict] *)
Definition from_dict (data : QuestDoc.t) : result t :=
  match field "name" (QuestDoc.name data) with
  | Raise e => Raise e
  | Ok n =>
  match field "description" (QuestDoc.description data) with
  | Raise e => Raise e
  | Ok d =>
  match field "stages" (QuestDoc.stages data) with
  | Raise e => Raise e
  | Ok st =>
  match field "reward" (QuestDoc.reward data) with
  | Raise e => Raise e
  | Ok r =>
  let quest := init n d st r in
  match field "current_stage" (QuestDoc.current_stage data) with
  | Raise e => Raise e
  | Ok cs =>
  let quest := set_current_stage cs quest in
  match field "completed" (QuestDoc.completed data) with
  | Raise e => Raise e
  | Ok c => Ok (set_completed c quest)
  end end end end end end.

End Quest.

(** ** Game data *)

Module Location.
Record t := mk {
  name : string;
  description : string;
  exits : list (string * string);
  enemies : option (list string);
  npc : option string;
  secret : option string
}.
End Location.

Definition world : list (string * Location.t) :=
  [ ("town",
     Location.mk "Eldoria Town"
       "A peaceful town, a sanctuary from the dangers of the world."
       [("north", "forest"); ("west", "swamp")]
       None (Some "Old Man") None);
    ("forest",
     Location.mk "Whispering Forest"
       "A dark and eerie forest. You find a small, moss-covered shrine."
       [("south", "town"); ("east", "cave")]
       (Some ["Goblin"; "Wolf"]) None (Some "Found an Amulet"));
    ("swamp",
     Location.mk "Haunted Swamp"
       "A murky swamp filled with fog. The air is heavy and cold."
       [("east", "town"); ("north", "mountain_pass")]
       (Some ["Banshee"; "Giant Spider"]) (Some "Witch") None);
    ("cave",
     Location.mk "Shadowy Cave"
       "A damp and cold cave. Something dangerous lurks here."
       [("west", "forest"); ("north", "boss_room")]
       (Some ["Troll"; "Stone Golem"]) None None);
    ("mountain_pass",
     Location.mk "Frozen Mountain Pass"
       "A treacherous path through snowy mountains."
       [("south", "swamp"); ("east", "castle_ruins")]
       (Some ["Wolf"; "Stone Golem"]) None None);
    ("castle_ruins",
     Location.mk "Ruins of Castle Varden"
       "The crumbling remains of a once-mighty fortress."
       [("west", "mountain_pass")]
       (Some ["Cursed Knight"; "Troll"]) None None);
    ("boss_room",
     Location.mk "Dragon's Lair"
       "A massive cavern with a fearsome dragon."
       []
       (Some ["Dragon"]) None None) ].

Module EnemyData.
Record t := mk { hp : Z; stamina : Z; attack : Z; defense : Z; xp_reward : Z }.
End EnemyData.

Definition enemies : list (string * EnemyData.t) :=
  [ ("Goblin", EnemyData.mk 30 20 10 5 25);
    ("Wolf", EnemyData.mk 40 30 15 3 35);
    ("Banshee", EnemyData.mk 50 60 22 6 70);
    ("Troll", EnemyData.mk 80 50 25 10 100);
    ("Giant Spider", EnemyData.mk 60 40 20 8 80);
    ("Stone Golem", EnemyData.mk 100 30 20 18 120);
    ("Cursed Knight", EnemyData.mk 90 70 30 15 150);
    ("Dragon", EnemyData.mk 250 100 40 20 500) ].

(** An entry of [items]: the class to instantiate and its arguments. *)
Inductive ItemData :=
| ClassItem (description : string)
| ClassPotion (description effect : string) (amount : Z)
| ClassWeapon (description : string) (attack_bonus : Z)
| ClassArmor (description : string) (defense_bonus : Z).

Definition items : list (string * ItemData) :=
  [ ("Health Potion", ClassPotion "Restores 50 HP." "heal" 50);
    ("Stamina Potion", ClassPotion "Restores 40 Stamina." "stamina" 40);
    ("Iron Sword", ClassWeapon "A basic sword." 10);
    ("Greatsword", ClassWeapon "A heavy two-handed sword." 18);
    ("Leather Armor", ClassArmor "Simple leather armor." 5);
    ("Steel Armor", ClassArmor "Sturdy steel plate armor." 12);
    ("Amulet of the Forest", ClassItem "A quest item.") ].

Module SpellData.
Record t := mk { description : string; mana_cost : Z; damage : Z }.
End SpellData.

Definition spells : list (string * SpellData.t) :=
  [ ("Fireball", SpellData.mk "Hurls a ball of fire." 15 30);
    ("Heal", SpellData.mk "A minor healing spell." 20 (-40)) ].

Module Npc.
Record quest_data := mk_quest {
  quest_name : string;
  quest_description : string;
  quest_stages : list Quest.stage;
  quest_reward : string
}.
Record t := mk { dialogue : list (Z * string); quest : quest_data }.
End Npc.

Definition npcs : list (string * Npc.t) :=
  [ ("Old Man",
     Npc.mk
       [ (0, "Welcome, traveler. The world is in peril. A fearsome dragon has appeared in the nearby cave. But first, I need you to find my lost amulet. I think I dropped it in the Whispering Forest.");
         (1, "Thank you for finding my amulet! Now, please, defeat the dragon and bring peace back to our lands.") ]
       (Npc.mk_quest "Slay the Dragon"
          "Help the Old Man and save the town."
          [ [ ("type", "find_item"); ("item", "Amulet of the Forest");
              ("location", "forest");
              ("target_description", "Find the Old Man's amulet.") ];
            [ ("type", "kill_enemy"); ("enemy", "Dragon");
              ("location", "boss_room");
              ("target_description", "Slay the Dragon.") ] ]
          "You saved the town! The Old Man gives you a Greatsword."));
    ("Witch",
     Npc.mk
       [ (0, "What do you want, stranger? This swamp is no place for you... unless you can help me. A Cursed Knight in the castle ruins to the east stole my spellbook. Bring it back, and I shall reward you with knowledge.");
         (1, "You have my spellbook! As promised, I will teach you a powerful spell.") ]
       (Npc.mk_quest "The Stolen Spellbook"
          "Retrieve the Witch's spellbook."
          [ [ ("type", "kill_enemy"); ("enemy", "Cursed Knight");
              ("location", "castle_ruins");
              ("target_description",
               "Defeat the Cursed Knight to get the spellbook.") ] ]
          "The Witch teaches you the Fireball spell.")) ].

(** ** Helper functions *)

(** Allocation of a new object: the state is the next free identity. *)
Definition fresh : M nat nat := fun n => (Ok n, S n).

(** [create_item_from_name] *)
Definition create_item_from_name (name : string) : M nat (option Item.t) :=
  match Py.get items name with
  | Some item_data =>
      i <- fresh ;;
      ret (Some match item_data with
                | ClassItem d => Item.Plain (Item.mk i name d)
                | ClassPotion d e a => Item.IsPotion (Potion.mk i name d e a)
                | ClassWeapon d b => Item.IsWeapon (Weapon.mk i name d b)
                | ClassArmor d b => Item.IsArmor (Armor.mk i name d b)
                end)
  | None => ret None
  end.

(** [create_spell_from_name] *)
Definition create_spell_from_name (name : string) : option Spell.t :=
  match Py.get spells name with
  | Some d =>
      Some (Spell.mk name (SpellData.description d) (SpellData.mana_cost d)
                     (SpellData.damage d))
  | None => None
  end.

(** ** [class Player] *)

(** The document [Player.to_dict] writes and [json] stores; [None] is an
    absent key, and a present key holds a value of the type [to_dict]
    writes there. *)
Module PlayerDoc.
Record t := mk {
  name : option string;
  hp : option Z;
  max_hp : option Z;
  stamina : option Z;
  max_stamina : option Z;
  mana : option Z;
  max_mana : option Z;
  attack : option Z;
  defense : option Z;
  xp : option Z;
  level : option Z;
  location : option string;
  inventory : option (list string);
  weapon : option (option string);
  armor : option (option string);
  quests : option (list (string * QuestDoc.t));
  spells : option (list string)
}.
End PlayerDoc.

Module Player.

Record t := mk {
  ent : Entity.t;
  xp : Z;
  level : Z;
  inventory : list Item.t;
  weapon : option Weapon.t;
  armor : option Armor.t;
  location : string;
  quests : list (string * Quest.t);
  max_mana : Z;
  mana : Z;
  spells : list (option Spell.t)
}.

(** [Player.__init__] *)
Definition init (name : string) (hp stamina attack defense : Z) : t :=
  mk (Entity.init name hp stamina attack defense)
     0 1 [] None None "town" [] 30 30 [].

Definition set_ent (v : Entity.t) (p : t) : t :=
  mk v (xp p) (level p) (inventory p) (weapon p) (armor p) (location p)
     (quests p) (max_mana p) (mana p) (spells p).
Definition set_xp (v : Z) (p : t) : t :=
  mk (ent p) v (level p) (inventory p) (weapon p) (armor p) (location p)
     (quests p) (max_mana p) (mana p) (spells p).
Definition set_level (v : Z) (p : t) : t :=
  mk (ent p) (xp p) v (inventory p) (weapon p) (armor p) (location p)
     (quests p) (max_mana p) (mana p) (spells p).
Definition set_inventory (v : list Item.t) (p : t) : t :=
  mk (ent p) (xp p) (level p) v (weapon p) (armor p) (location p)
     (quests p) (max_mana p) (mana p) (spells p).
Definition set_weapon (v : option Weapon.t) (p : t) : t :=
  mk (ent p) (xp p) (level p) (inventory p) v (armor p) (location p)
     (quests p) (max_mana p) (mana p) (spells p).
Definition set_armor (v : option Armor.t) (p : t) : t :=
  mk (ent p) (xp p) (level p) (inventory p) (weapon p) v (location p)
     (quests p) (max_mana p) (mana p) (spells p).
Definition set_location (v : string) (p : t) : t :=
  mk (ent p) (xp p) (level p) (inventory p) (weapon p) (armor p) v
     (quests p) (max_mana p) (mana p) (spells p).
Definition set_quests (v : list (string * Quest.t)) (p : t) : t :=
  mk (ent p) (xp p) (level p) (inventory p) (weapon p) (armor p) (location p)
     v (max_mana p) (mana p) (spells p).
Definition set_max_mana (v : Z) (p : t) : t :=
  mk (ent p) (xp p) (level p) (inventory p) (weapon p) (armor p) (location p)
     (quests p) v (mana p) (spells p).
Definition set_mana (v : Z) (p : t) : t :=
  mk (ent p) (xp p) (level p) (inventory p) (weapon p) (armor p) (location p)
     (quests p) (max_mana p) v (spells p).
Definition set_spells (v : list (option Spell.t)) (p : t) : t :=
  mk (ent p) (xp p) (level p) (inventory p) (weapon p) (armor p) (location p)
     (quests p) (max_mana p) (mana p) v.

(** The attributes inherited from [Entity]. *)
Definition name (p : t) : string := Entity.name (ent p).
Definition hp (p : t) : Z := Entity.hp (ent p).
Definition max_hp (p : t) : Z := Entity.max_hp (ent p).
Definition stamina (p : t) : Z := Entity.stamina (ent p).
Definition max_stamina (p : t) : Z := Entity.max_stamina (ent p).
Definition attack (p : t) : Z := Entity.attack (ent p).
Definition defense (p : t) : Z := Entity.defense (ent p).
Definition is_defending (p : t) : bool := Entity.is_defending (ent p).

Definition set_hp (v : Z) (p : t) : t := set_ent (Entity.set_hp v (ent p)) p.
Definition set_max_hp (v : Z) (p : t) : t :=
  set_ent (Entity.set_max_hp v (ent p)) p.
Definition set_stamina (v : Z) (p : t) : t :=
  set_ent (Entity.set_stamina v (ent p)) p.
Definition set_max_stamina (v : Z) (p : t) : t :=
  set_ent (Entity.set_max_stamina v (ent p)) p.
Definition set_attack (v : Z) (p : t) : t :=
  set_ent (Entity.set_attack v (ent p)) p.
Definition set_defense (v : Z) (p : t) : t :=
  set_ent (Entity.set_defense v (ent p)) p.
Definition set_is_defending (v : bool) (p : t) : t :=
  set_ent (Entity.set_is_defending v (ent p)) p.

(** [Entity.take_damage] on a player. *)
Definition take_damage (damage : Z) (p : t) : Z * t :=
  let '(actual_damage, e) := Entity.take_damage damage (ent p) in
  (actual_damage, set_ent e p).

Definition is_alive (p : t) : bool := Entity.is_alive (ent p).

(** [Player.add_item] *)
Definition add_item (item : Item.t) (p : t) : t :=
  set_inventory (inventory p ++ [item]) p.

(** [list.remove]: drops the first element equal to [item];
    [ValueError] when there is none. *)
Fixpoint list_remove (item : Item.t) (xs : list Item.t)
  : option (list Item.t) :=
  match xs with
  | [] => None
  | x :: xs' =>
      if Item.same x item then Some xs'
      else match list_remove item xs' with
           | Some ys => Some (x :: ys)
           | None => None
           end
  end.

(** [Player.remove_item] *)
Definition remove_item (item : Item.t) (p : t) : result t :=
  match list_remove item (inventory p) with
  | Some inv => Ok (set_inventory inv p)
  | None => Raise ValueError
  end.

(** [Player.equip_item] *)
Definition equip_item (item : Item.t) (p : t) : t :=
  match item with
  | Item.IsWeapon w =>
      let p := match weapon p with
               | Some old => set_attack (attack p - Weapon.attack_bonus old) p
               | None => p
               end in
      let p := set_weapon (Some w) p in
      set_attack (attack p + Weapon.attack_bonus w) p
  | Item.IsArmor a =>
      let p := match armor p with
               | Some old => set_defense (defense p - Armor.defense_bonus old) p
               | None => p
               end in
      let p := set_armor (Some a) p in
      set_defense (defense p + Armor.defense_bonus a) p
  | _ => p
  end.

(** [Player.level_up]: the player afterwards and the line handed to
    [game.log]. *)
Definition level_up (p : t) : t * string :=
  let p := set_level (level p + 1) p in
  let p := set_xp 0 p in
  let p := set_max_hp (max_hp p + 20) p in
  let p := set_hp (max_hp p) p in
  let p := set_max_stamina (max_stamina p + 10) p in
  let p := set_stamina (max_stamina p) p in
  let p := set_max_mana (max_mana p + 10) p in
  let p := set_mana (max_mana p) p in
  let p := set_attack (attack p + 5) p in
  let p := set_defense (defense p + 2) p in
  (p, "*** You leveled up to level " ++ Py.str (level p) ++ "! ***").

(** [Player.gain_xp]: the player afterwards and the lines logged. *)
Definition gain_xp (amount : Z) (p : t) : t * list string :=
  let p := set_xp (xp p + amount) p in
  if level p * 100 <=? xp p
  then let '(p, line) := level_up p in (p, [line])
  else (p, []).

(** [spell.name for spell in self.spells]: [None.name] raises. *)
Fixpoint spell_names (ss : list (option Spell.t)) : result (list string) :=
  match ss with
  | [] => Ok []
  | Some s :: ss' =>
      match spell_names ss' with
      | Ok ns => Ok (Spell.name s :: ns)
      | Raise e => Raise e
      end
  | None :: _ => Raise AttributeError
  end.

(** [Player.to_dict] *)
Definition to_dict (p : t) : result PlayerDoc.t :=
  match spell_names (spells p) with
  | Raise e => Raise e
  | Ok ss =>
      Ok (PlayerDoc.mk
            (Some (name p)) (Some (hp p)) (Some (max_hp p))
            (Some (stamina p)) (Some (max_stamina p))
            (Some (mana p)) (Some (max_mana p))
            (Some (attack p)) (Some (defense p)) (Some (xp p))
            (Some (level p)) (Some (location p))
            (Some (map Item.name (inventory p)))
            (Some (option_map Weapon.name (weapon p)))
            (Some (option_map Armor.name (armor p)))
            (Some (map (fun kv => (fst kv, Quest.to_dict (snd kv)))
                       (quests p)))
            (Some ss))
  end.

(** [data[key]] *)
Definition field {S A} (key : string) (o : option A) : M S A :=
  lift_option (KeyError key) o.

(** Truth value of [data['weapon']]: [None] and the empty string are
    false. *)
Definition truthy (o : option string) : bool :=
  match o with
  | Some EmptyString => false
  | Some _ => true
  | None => false
  end.

(** [item for item in inventory_items if item] *)
Fixpoint drop_none (xs : list (option Item.t)) : list Item.t :=
  match xs with
  | [] => []
  | Some x :: xs' => x :: drop_none xs'
  | None :: xs' => drop_none xs'
  end.

(** The two equipment blocks of [from_dict]. *)
Definition reequip (stored : option string) (player : t) : t :=
  if truthy stored then
    match Py.next_or_none
            (fun item => match stored with
                         | Some n => String.eqb (Item.name item) n
                         | None => false
                         end)
            (inventory player) with
    | Some to_equip => equip_item to_equip player
    | None => player
    end
  else player.

(** [Player.from_dict]; the state is the object allocator. *)
Definition from_dict (data : PlayerDoc.t) : M nat t :=
  n <- field "name" (PlayerDoc.name data) ;;
  mh <- field "max_hp" (PlayerDoc.max_hp data) ;;
  ms <- field "max_stamina" (PlayerDoc.max_stamina data) ;;
  let player := init n mh ms 0 0 in
  v <- field "hp" (PlayerDoc.hp data) ;;
  let player := set_hp v player in
  v <- field "stamina" (PlayerDoc.stamina data) ;;
  let player := set_stamina v player in
  v <- field "mana" (PlayerDoc.mana data) ;;
  let player := set_mana v player in
  v <- field "max_mana" (PlayerDoc.max_mana data) ;;
  let player := set_max_mana v player in
  v <- field "xp" (PlayerDoc.xp data) ;;
  let player := set_xp v player in
  v <- field "level" (PlayerDoc.level data) ;;
  let player := set_level v player in
  v <- field "location" (PlayerDoc.location data) ;;
  let player := set_location v player in
  let player := set_attack (10 + level player * 5) player in
  let player := set_defense (3 + level player * 2) player in
  names <- field "inventory" (PlayerDoc.inventory data) ;;
  inventory_items <- map_M create_item_from_name names ;;
  let player := set_inventory (drop_none inventory_items) player in
  w <- field "weapon" (PlayerDoc.weapon data) ;;
  let player := reequip w player in
  a <- field "armor" (PlayerDoc.armor data) ;;
  let player := reequip a player in
  spell_list <- field "spells" (PlayerDoc.spells data) ;;
  let player :=
    set_spells (spells player ++ map create_spell_from_name spell_list)
               player in
  quest_docs <- field "quests" (PlayerDoc.quests data) ;;
  List.fold_left
    (fun (acc : M nat t) (kv : string * QuestDoc.t) =>
       player <- acc ;;
       quest <- lift_result (Quest.from_dict (snd kv)) ;;
       ret (set_quests (Py.set (quests player) (fst kv) quest) player))
    quest_docs (ret player).

End Player.

(** ** [class Game]: the application state *)

(** What a button does when pressed: the method its [command] calls. *)
Inductive Command :=
| CmdNewGame
| CmdLoadGame
| CmdMovePlayer (destination : string)
| CmdTalkToNpc (npc_name : string)
| CmdSearchArea
| CmdOpenInventoryScreen
| CmdSaveGame
| CmdPerformAction (action : string)
| CmdCastSpell (spell : Spell.t) (window : nat)
| CmdUsePotion (potion : Potion.t) (window : nat).

Record Button := mkButton { text : string; command : Command }.

(** A [tk.Toplevel] window: its identity, title, the lines of its listbox
    (the inventory screen has one) and its buttons. *)
Record Toplevel := mkToplevel {
  window_id : nat;
  title : string;
  listbox : list string;
  children : list Button
}.

(** The file [rpg_save.json]. *)
Inductive SaveFile :=
| NoFile
| Unreadable
| Document (d : PlayerDoc.t).

Definition newline : string := String (ascii_of_nat 10) EmptyString.

(** [random.random() < 0.6] and [< 0.5]: [random.random()] returns
    [k / 2^53] for an integer [0 <= k < 2^53]; the literals are the floats
    [5404319552844595 / 2^53] and [2^52 / 2^53]. *)
Definition two_53 : Z := 9007199254740992.
Definition float_0_6 : Z := 5404319552844595.
Definition float_0_5 : Z := 4503599627370496.

Module Game.

(** The attributes of the application object and what its widgets show:
    the lines of the text area, the buttons of the button frame in the
    order they were created, the text of the stats label, the open
    [Toplevel] windows and the message boxes shown so far.  Geometry
    ([pack] sides, padding, colours) is left out.  [destroyed] records
    [self.destroy()], which [game_over] calls at the end of an enemy turn
    that kills the player.  The main loop ends with it, so no callback
    starts in a destroyed application; within the callback that destroyed
    it, the one widget call the program still makes is the stats label's
    [config] in [update_stats], which Tk rejects with [TclError].
    [next_id] is the object allocator,
    [random_source] and [random_pos] the draws of [random], [save_file]
    the file system as far as the program looks at it. *)
Record t := mk {
  player : option Player.t;
  current_enemy : option Enemy.t;
  text_area : list string;
  button_frame : list Button;
  stats_label : string;
  toplevels : list Toplevel;
  messageboxes : list (string * string);
  destroyed : bool;
  next_id : nat;
  random_source : nat -> Z;
  random_pos : nat;
  save_file : SaveFile
}.

Definition set_player (v : option Player.t) (g : t) : t :=
  mk v (current_enemy g) (text_area g) (button_frame g) (stats_label g)
     (toplevels g) (messageboxes g) (destroyed g) (next_id g)
     (random_source g) (random_pos g) (save_file g).
Definition set_current_enemy (v : option Enemy.t) (g : t) : t :=
  mk (player g) v (text_area g) (button_frame g) (stats_label g)
     (toplevels g) (messageboxes g) (destroyed g) (next_id g)
     (random_source g) (random_pos g) (save_file g).
Definition set_text_area (v : list string) (g : t) : t :=
  mk (player g) (current_enemy g) v (button_frame g) (stats_label g)
     (toplevels g) (messageboxes g) (destroyed g) (next_id g)
     (random_source g) (random_pos g) (save_file g).
Definition set_button_frame (v : list Button) (g : t) : t :=
  mk (player g) (current_enemy g) (text_area g) v (stats_label g)
     (toplevels g) (messageboxes g) (destroyed g) (next_id g)
     (random_source g) (random_pos g) (save_file g).
Definition set_stats_label (v : string) (g : t) : t :=
  mk (player g) (current_enemy g) (text_area g) (button_frame g) v
     (toplevels g) (messageboxes g) (destroyed g) (next_id g)
     (random_source g) (random_pos g) (save_file g).
Definition set_toplevels (v : list Toplevel) (g : t) : t :=
  mk (player g) (current_enemy g) (text_area g) (button_frame g)
     (stats_label g) v (messageboxes g) (destroyed g) (next_id g)
     (random_source g) (random_pos g) (save_file g).
Definition set_messageboxes (v : list (string * string)) (g : t) : t :=
  mk (player g) (current_enemy g) (text_area g) (button_frame g)
     (stats_label g) (toplevels g) v (destroyed g) (next_id g)
     (random_source g) (random_pos g) (save_file g).
Definition set_destroyed (v : bool) (g : t) : t :=
  mk (player g) (current_enemy g) (text_area g) (button_frame g)
     (stats_label g) (toplevels g) (messageboxes g) v (next_id g)
     (random_source g) (random_pos g) (save_file g).
Definition set_next_id (v : nat) (g : t) : t :=
  mk (player g) (current_enemy g) (text_area g) (button_frame g)
     (stats_label g) (toplevels g) (messageboxes g) (destroyed g) v
     (random_source g) (random_pos g) (save_file g).
Definition set_random_pos (v : nat) (g : t) : t :=
  mk (player g) (current_enemy g) (text_area g) (button_frame g)
     (stats_label g) (toplevels g) (messageboxes g) (destroyed g) (next_id g)
     (random_source g) v (save_file g).
Definition set_save_file (v : SaveFile) (g : t) : t :=
  mk (player g) (current_enemy g) (text_area g) (button_frame g)
     (stats_label g) (toplevels g) (messageboxes g) (destroyed g) (next_id g)
     (random_source g) (random_pos g) v.

(** Run an allocating computation on the application's allocator. *)
Definition alloc {A} (m : M nat A) : M t A :=
  fun g => let '(r, n) := m (next_id g) in (r, set_next_id n g).

(** [self.player.<attr>]: [None] has no attributes. *)
Definition the_player : M t Player.t :=
  g <- get ;; lift_option AttributeError (player g).

(** [self.current_enemy.<attr>] *)
Definition the_enemy : M t Enemy.t :=
  g <- get ;; lift_option AttributeError (current_enemy g).

(** In-place mutation of the player object. *)
Definition put_player (p : Player.t) : M t unit :=
  modify (set_player (Some p)).

Definition put_enemy (e : Enemy.t) : M t unit :=
  modify (set_current_enemy (Some e)).

(** [random.random()], as the numerator [k] of [k / 2^53]. *)
Definition random_random : M t Z :=
  fun g => (Ok (random_source g (random_pos g) mod two_53),
            set_random_pos (S (random_pos g)) g).

(** [random.choice(seq)] *)
Definition random_choice {A} (seq : list A) : M t A :=
  match seq with
  | [] => raise IndexError
  | _ =>
      fun g =>
        let i := random_source g (random_pos g) mod Py.len seq in
        match nth_error seq (Z.to_nat i) with
        | Some x => (Ok x, set_random_pos (S (random_pos g)) g)
        | None => (Raise IndexError, g)
        end
  end.

(** [Game.log] *)
Definition log (message : string) : M t unit :=
  modify (fun g => set_text_area (text_area g ++ [message]) g).

(** [Game.update_stats]: [self.stats_label.config(...)] on the label of
    an application that [self.destroy()] has destroyed raises [TclError]. *)
Definition update_stats : M t unit :=
  g <- get ;;
  match player g with
  | None => ret tt
  | Some p =>
      let stats :=
        "HP: " ++ Py.str (Player.hp p) ++ "/" ++ Py.str (Player.max_hp p)
        ++ " | MP: " ++ Py.str (Player.mana p) ++ "/"
        ++ Py.str (Player.max_mana p)
        ++ " | Stamina: " ++ Py.str (Player.stamina p) ++ "/"
        ++ Py.str (Player.max_stamina p)
        ++ " | Level: " ++ Py.str (Player.level p)
        ++ " | XP: " ++ Py.str (Player.xp p) ++ "/"
        ++ Py.str (Player.level p * 100) in
      if destroyed g then raise TclError
      else modify (set_stats_label stats)
  end.

(** [Game.clear_buttons] *)
Definition clear_buttons : M t unit := modify (set_button_frame []).

(** [tk.Button(self.button_frame, ...).pack(...)] *)
Definition add_button (label : string) (c : Command) : M t unit :=
  modify (fun g => set_button_frame (button_frame g ++ [mkButton label c]) g).

(** [world[self.player.location]] *)
Definition location_data : M t Location.t :=
  p <- the_player ;;
  lift_option (KeyError (Player.location p)) (Py.get world (Player.location p)).

(** [Game.create_location_buttons] *)
Definition create_location_buttons : M t unit :=
  clear_buttons ;;
  loc <- location_data ;;
  for_each (Location.exits loc)
    (fun '(direction, destination) =>
       add_button ("Go " ++ Py.capitalize direction)
                  (CmdMovePlayer destination)) ;;
  match Location.npc loc with
  | Some n => add_button ("Talk to " ++ n) (CmdTalkToNpc n)
  | None => ret tt
  end ;;
  match Location.secret loc with
  | Some _ => add_button "Search Area" CmdSearchArea
  | None => ret tt
  end ;;
  add_button "Inventory" CmdOpenInventoryScreen ;;
  add_button "Save Game" CmdSaveGame.

(** [Game.create_combat_buttons] *)
Definition create_combat_buttons : M t unit :=
  clear_buttons ;;
  add_button "Attack" (CmdPerformAction "Attack") ;;
  add_button "Defend" (CmdPerformAction "Defend") ;;
  add_button "Magic" (CmdPerformAction "Magic") ;;
  add_button "Use Item" (CmdPerformAction "Use Item") ;;
  add_button "Flee" (CmdPerformAction "Flee").

(** [Game.start_combat] *)
Definition start_combat (enemy_name : string) : M t unit :=
  d <- lift_option (KeyError enemy_name) (Py.get enemies enemy_name) ;;
  let enemy :=
    Enemy.init enemy_name (EnemyData.hp d) (EnemyData.stamina d)
               (EnemyData.attack d) (EnemyData.defense d)
               (EnemyData.xp_reward d) in
  put_enemy enemy ;;
  log (newline ++ "A wild " ++ Entity.name (Enemy.ent enemy) ++ " appears!") ;;
  create_combat_buttons.

(** [Game.show_location] *)
Definition show_location : M t unit :=
  update_stats ;;
  loc <- location_data ;;
  log (newline ++ "--- " ++ Location.name loc ++ " ---") ;;
  log (Location.description loc) ;;
  create_location_buttons ;;
  match Location.enemies loc with
  | Some roster =>
      r <- random_random ;;
      if r <? float_0_6
      then enemy_name <- random_choice roster ;; start_combat enemy_name
      else ret tt
  | None => ret tt
  end.

(** [Game.show_start_menu] *)
Definition show_start_menu : M t unit :=
  clear_buttons ;;
  log "Welcome to the Souls-Like RPG!" ;;
  add_button "New Game" CmdNewGame ;;
  g <- get ;;
  match save_file g with
  | NoFile => ret tt
  | _ => add_button "Load Game" CmdLoadGame
  end.

(** [Game.__init__], given the random source and the save file found. *)
Definition init (source : nat -> Z) (file : SaveFile) : t :=
  snd (show_start_menu
         (mk None None [] [] EmptyString [] [] false 0 source 0 file)).


(** [create_item_from_name] on a name written in the program text, where
    the result is used as an item at once.  Every such name is a key of
    [items]; the [None] branch stands for the [AttributeError] the first
    use of the missing item would raise. *)
Definition create_known_item (name : string) : M t Item.t :=
  o <- alloc (create_item_from_name name) ;;
  lift_option AttributeError o.

(** [Game.complete_quest] *)
Definition complete_quest (quest : Quest.t) : M t unit :=
  log ("*** Quest Completed: " ++ Quest.name quest ++ " ***") ;;
  log (Quest.reward quest) ;;
  if String.eqb (Quest.name quest) "Slay the Dragon" then
    p <- the_player ;;
    item <- create_known_item "Greatsword" ;;
    put_player (Player.add_item item p)
  else if String.eqb (Quest.name quest) "The Stolen Spellbook" then
    p <- the_player ;;
    put_player
      (Player.set_spells
         (Player.spells p ++ [create_spell_from_name "Fireball"]) p)
  else ret tt.

(** Replace the value held at position [i] of a dict. *)
Fixpoint replace_value {V} (i : nat) (v : V) (d : list (string * V))
  : list (string * V) :=
  match d, i with
  | [], _ => []
  | (k, _) :: d', O => (k, v) :: d'
  | kv :: d', S i' => kv :: replace_value i' v d'
  end.

(** [stage[key]] *)
Definition stage_get (stage : Quest.stage) (key : string) : M t string :=
  lift_option (KeyError key) (Py.get stage key).

(** The body of the loop of [check_quest_progress] for the [i]-th entry of
    [self.player.quests]. *)
Definition check_one_quest (defeated_enemy : option string) (i : nat)
  : M t unit :=
  p <- the_player ;;
  kv <- lift_option IndexError (nth_error (Player.quests p) i) ;;
  let quest := snd kv in
  if Quest.completed quest then ret tt else
  stage <- lift_result (Quest.get_current_stage_info quest) ;;
  ty <- stage_get stage "type" ;;
  kill <- (if String.eqb ty "kill_enemy"
           then enemy <- stage_get stage "enemy" ;;
                ret match defeated_enemy with
                    | Some d => String.eqb enemy d
                    | None => false
                    end
           else ret false) ;;
  progress <-
    (if kill then ret true
     else
       ty <- stage_get stage "type" ;;
       if String.eqb ty "find_item"
       then match Player.inventory p with
            | [] => ret false
            | inv =>
                wanted <- stage_get stage "item" ;;
                ret (Py.any (fun item => String.eqb (Item.name item) wanted)
                            inv)
            end
       else ret false) ;;
  if progress then
    log ("Quest Progress: '" ++ Quest.name quest ++ "'") ;;
    let '(finished, quest) := Quest.advance_stage quest in
    put_player (Player.set_quests (replace_value i quest (Player.quests p)) p) ;;
    if finished then complete_quest quest else ret tt
  else ret tt.

(** [Game.check_quest_progress] *)
Definition check_quest_progress (defeated_enemy : option string) : M t unit :=
  p <- the_player ;;
  for_each (seq 0 (List.length (Player.quests p)))
           (check_one_quest defeated_enemy).

(** [Game.game_over] *)
Definition game_over : M t unit :=
  log (newline ++ "You have been defeated. Game Over.") ;;
  modify (fun g =>
            set_messageboxes
              (messageboxes g ++ [("Game Over", "You have been defeated.")])
              g) ;;
  modify (set_destroyed true).

(** [Game.enemy_turn] *)
Definition enemy_turn : M t unit :=
  p <- the_player ;;
  e <- the_enemy ;;
  let '(damage_done, p) :=
    Player.take_damage (Entity.attack (Enemy.ent e)) p in
  put_player p ;;
  log ("The " ++ Entity.name (Enemy.ent e) ++ " attacks you for "
       ++ Py.str damage_done ++ " damage.") ;;
  if Player.is_alive p then ret tt else game_over.

(** [Game.win_combat] *)
Definition win_combat : M t unit :=
  e <- the_enemy ;;
  log ("You defeated the " ++ Entity.name (Enemy.ent e) ++ "!") ;;
  p <- the_player ;;
  let '(p, lines) := Player.gain_xp (Enemy.xp_reward e) p in
  put_player p ;;
  for_each lines log ;;
  check_quest_progress (Some (Entity.name (Enemy.ent e))) ;;
  modify (set_current_enemy None) ;;
  show_location.

(** [self.current_enemy and self.current_enemy.is_alive()] *)
Definition enemy_alive (g : t) : bool :=
  match current_enemy g with
  | Some e => Entity.is_alive (Enemy.ent e)
  | None => false
  end.

(** [Game.player_attack] *)
Definition player_attack : M t unit :=
  e <- the_enemy ;;
  p <- the_player ;;
  let '(damage_done, ent) :=
    Entity.take_damage (Player.attack p) (Enemy.ent e) in
  let e := Enemy.set_ent ent e in
  put_enemy e ;;
  log ("You attack the " ++ Entity.name (Enemy.ent e) ++ " for "
       ++ Py.str damage_done ++ " damage.") ;;
  if Entity.is_alive (Enemy.ent e) then ret tt else win_combat.

(** [Game.player_defend] *)
Definition player_defend : M t unit :=
  p <- the_player ;;
  put_player (Player.set_is_defending true p) ;;
  log "You brace for the next attack, reducing incoming damage.".

(** [tk.Toplevel(self)] followed by [.title(...)] *)
Definition new_toplevel (title : string) : M t nat :=
  w <- alloc fresh ;;
  modify (fun g => set_toplevels (toplevels g ++ [mkToplevel w title [] []]) g) ;;
  ret w.

(** [tk.Button(window, ...).pack(...)] *)
Definition add_window_button (w : nat) (label : string) (c : Command)
  : M t unit :=
  modify (fun g =>
    set_toplevels
      (map (fun win =>
              if Nat.eqb (window_id win) w
              then mkToplevel (window_id win) (title win) (listbox win)
                              (children win ++ [mkButton label c])
              else win)
           (toplevels g)) g).

(** [window.destroy()] *)
Definition destroy_window (w : nat) : M t unit :=
  modify (fun g =>
    set_toplevels
      (filter (fun win => negb (Nat.eqb (window_id win) w)) (toplevels g)) g).

(** [Game.show_spell_selection] *)
Definition show_spell_selection : M t bool :=
  spell_window <- new_toplevel "Cast a Spell" ;;
  p <- the_player ;;
  for_each (Player.spells p)
    (fun o =>
       spell <- lift_option AttributeError o ;;
       add_window_button spell_window
         (Spell.name spell ++ " (" ++ Py.str (Spell.mana_cost spell) ++ " MP)")
         (CmdCastSpell spell spell_window)) ;;
  ret false.

(** [Game.cast_spell] *)
Definition cast_spell (spell : Spell.t) (window : nat) : M t unit :=
  destroy_window window ;;
  p <- the_player ;;
  if Spell.mana_cost spell <=? Player.mana p then
    let p := Player.set_mana (Player.mana p - Spell.mana_cost spell) p in
    put_player p ;;
    (if 0 <? Spell.damage spell then
       e <- the_enemy ;;
       let '(damage_done, ent) :=
         Entity.take_damage (Spell.damage spell) (Enemy.ent e) in
       let e := Enemy.set_ent ent e in
       put_enemy e ;;
       log ("You cast " ++ Spell.name spell ++ ", dealing "
            ++ Py.str damage_done ++ " damage!") ;;
       if Entity.is_alive (Enemy.ent e) then ret tt else win_combat
     else
       let heal_amount := - Spell.damage spell in
       put_player
         (Player.set_hp (Z.min (Player.max_hp p) (Player.hp p + heal_amount))
                        p) ;;
       log ("You cast " ++ Spell.name spell ++ ", healing for "
            ++ Py.str heal_amount ++ " HP.")) ;;
    g <- get ;;
    (if enemy_alive g then enemy_turn else ret tt) ;;
    update_stats
  else log "Not enough mana!".

(** [item for item in self.player.inventory if isinstance(item, Potion)] *)
Fixpoint potions_of (inv : list Item.t) : list Potion.t :=
  match inv with
  | [] => []
  | Item.IsPotion p :: inv' => p :: potions_of inv'
  | _ :: inv' => potions_of inv'
  end.

(** [Game.show_item_selection] *)
Definition show_item_selection : M t bool :=
  p <- the_player ;;
  match potions_of (Player.inventory p) with
  | [] => log "You have no potions to use." ;; ret false
  | potions =>
      item_window <- new_toplevel "Use an Item" ;;
      for_each potions
        (fun item =>
           add_window_button item_window (Potion.name item)
                             (CmdUsePotion item item_window)) ;;
      ret false
  end.

(** The effect of a potion, shared by [use_potion] and the inventory
    screen's [use_action]. *)
Definition drink (potion : Potion.t) : M t unit :=
  p <- the_player ;;
  if String.eqb (Potion.effect potion) "heal" then
    put_player
      (Player.set_hp
         (Z.min (Player.max_hp p) (Player.hp p + Potion.amount potion)) p) ;;
    log ("You used a " ++ Potion.name potion ++ " and healed for "
         ++ Py.str (Potion.amount potion) ++ " HP.")
  else if String.eqb (Potion.effect potion) "stamina" then
    put_player
      (Player.set_stamina
         (Z.min (Player.max_stamina p)
                (Player.stamina p + Potion.amount potion)) p) ;;
    log ("You used a " ++ Potion.name potion ++ " and restored "
         ++ Py.str (Potion.amount potion) ++ " stamina.")
  else ret tt.

(** [self.player.remove_item(item)] *)
Definition remove_item (item : Item.t) : M t unit :=
  p <- the_player ;;
  p <- lift_result (Player.remove_item item p) ;;
  put_player p.

(** [Game.use_potion] *)
Definition use_potion (potion : Potion.t) (window : nat) : M t unit :=
  destroy_window window ;;
  drink potion ;;
  remove_item (Item.IsPotion potion) ;;
  g <- get ;;
  (if enemy_alive g then enemy_turn else ret tt) ;;
  update_stats.

(** [Game.flee]; the draw decides. *)
Definition flee : M t unit :=
  r <- random_random ;;
  if r <? float_0_5 then
    log "You successfully fled the battle." ;;
    modify (set_current_enemy None) ;;
    show_location
  else
    log "You failed to flee!" ;;
    enemy_turn.

(** [Game.perform_action] *)
Definition perform_action (action : string) : M t unit :=
  g <- get ;;
  if negb (enemy_alive g) then ret tt else
  player_turn_ended <-
    (if String.eqb action "Attack" then player_attack ;; ret true
     else if String.eqb action "Defend" then player_defend ;; ret true
     else if String.eqb action "Magic" then show_spell_selection
     else if String.eqb action "Use Item" then show_item_selection
     else if String.eqb action "Flee" then flee ;; ret false
     else ret true) ;;
  g <- get ;;
  (if player_turn_ended && enemy_alive g then enemy_turn else ret tt) ;;
  update_stats.

(** [Game.new_game] *)
Definition new_game : M t unit :=
  let p := Player.init "Hero" 100 50 15 5 in
  modify (set_player (Some p)) ;;
  item <- create_known_item "Health Potion" ;;
  p <- the_player ;;
  put_player (Player.add_item item p) ;;
  o <- alloc (create_item_from_name "Iron Sword") ;;
  p <- the_player ;;
  put_player match o with Some item => Player.equip_item item p | None => p end ;;
  o <- alloc (create_item_from_name "Leather Armor") ;;
  p <- the_player ;;
  put_player match o with Some item => Player.equip_item item p | None => p end ;;
  p <- the_player ;;
  put_player
    (Player.set_spells (Player.spells p ++ [create_spell_from_name "Heal"]) p) ;;
  log (newline ++ "A new journey begins...") ;;
  show_location.

(** [Game.save_game]: the file is opened for writing, hence emptied,
    before [to_dict] runs. *)
Definition save_game : M t unit :=
  g <- get ;;
  match player g with
  | None => ret tt
  | Some p =>
      modify (set_save_file Unreadable) ;;
      d <- lift_result (Player.to_dict p) ;;
      modify (set_save_file (Document d)) ;;
      log (newline ++ "Game saved.") ;;
      modify (fun g =>
                set_messageboxes
                  (messageboxes g
                   ++ [("Save Game", "Your progress has been saved.")]) g)
  end.

(** [Game.load_game]; [json.load] of a file that holds no document raises
    [JSONDecodeError], a subclass of [ValueError]. *)
Definition load_game : M t unit :=
  g <- get ;;
  match save_file g with
  | NoFile => log "No save file found."
  | Unreadable => raise ValueError
  | Document player_data =>
      p <- alloc (Player.from_dict player_data) ;;
      modify (set_player (Some p)) ;;
      log (newline ++ "Game loaded. Welcome back.") ;;
      show_location
  end.

(** [Game.move_player] *)
Definition move_player (destination : string) : M t unit :=
  p <- the_player ;;
  put_player (Player.set_location destination p) ;;
  show_location.

(** [Game.search_area] *)
Definition search_area : M t unit :=
  loc <- location_data ;;
  match Location.secret loc with
  | Some secret =>
      if String.eqb secret "Found an Amulet" then
        amulet <- create_known_item "Amulet of the Forest" ;;
        p <- the_player ;;
        if negb (Py.any (fun item =>
                           String.eqb (Item.name item) (Item.name amulet))
                        (Player.inventory p))
        then
          put_player (Player.add_item amulet p) ;;
          log ("You search the area and find the " ++ Item.name amulet ++ "!") ;;
          check_quest_progress None
        else log "You find nothing of interest."
      else ret tt
  | None => ret tt
  end.

(** [npc_data['dialogue'].get(stage, "...")] *)
Fixpoint dialogue_get (d : list (Z * string)) (k : Z) : string :=
  match d with
  | [] => "..."
  | (k', v) :: d' => if k' =? k then v else dialogue_get d' k
  end.

(** [Game.talk_to_npc] *)
Definition talk_to_npc (npc_name : string) : M t unit :=
  npc_data <- lift_option (KeyError npc_name) (Py.get npcs npc_name) ;;
  let quest_info := Npc.quest npc_data in
  let quest_name := Npc.quest_name quest_info in
  p <- the_player ;;
  (if Py.contains (Player.quests p) quest_name then ret tt
   else
     put_player
       (Player.set_quests
          (Py.set (Player.quests p) quest_name
             (Quest.init (Npc.quest_name quest_info)
                         (Npc.quest_description quest_info)
                         (Npc.quest_stages quest_info)
                         (Npc.quest_reward quest_info))) p) ;;
     log (newline ++ "New quest: " ++ Npc.quest_name quest_info ++ " - "
          ++ Npc.quest_description quest_info)) ;;
  p <- the_player ;;
  quest <- lift_option (KeyError quest_name)
             (Py.get (Player.quests p) quest_name) ;;
  let dialogue :=
    dialogue_get (Npc.dialogue npc_data) (Quest.current_stage quest) in
  log (newline ++ npc_name ++ ": " ++ dialogue) ;;
  stage <- lift_result (Quest.get_current_stage_info quest) ;;
  objective <- stage_get stage "target_description" ;;
  log ("Current Objective: " ++ objective).

(** [Game.open_inventory_screen]: the window and the lines of its
    listbox; the selection handler is left to the callers of the three
    actions below, which receive the selected inventory item. *)
Definition open_inventory_screen : M t nat :=
  inv_win <- new_toplevel "Inventory" ;;
  p <- the_player ;;
  let line (item : Item.t) : string :=
    let is_weapon := match Player.weapon p with
                     | Some w => Nat.eqb (Weapon.id w) (Item.id item)
                     | None => false
                     end in
    let is_armor := match Player.armor p with
                    | Some a => Nat.eqb (Armor.id a) (Item.id item)
                    | None => false
                    end in
    Item.name item
    ++ (if is_weapon then " (W)" else if is_armor then " (A)" else EmptyString) in
  modify (fun g =>
    set_toplevels
      (map (fun win =>
              if Nat.eqb (window_id win) inv_win
              then mkToplevel (window_id win) (title win)
                              (map line (Player.inventory p)) (children win)
              else win)
           (toplevels g)) g) ;;
  ret inv_win.

(** [equip_action] of the inventory screen *)
Definition equip_action (item : Item.t) (inv_win : nat) : M t unit :=
  p <- the_player ;;
  put_player (Player.equip_item item p) ;;
  log ("You equipped the " ++ Item.name item ++ ".") ;;
  update_stats ;;
  destroy_window inv_win.

(** [use_action] of the inventory screen *)
Definition use_action (potion : Potion.t) (inv_win : nat) : M t unit :=
  drink potion ;;
  remove_item (Item.IsPotion potion) ;;
  update_stats ;;
  destroy_window inv_win.

(** The slot cleanup at the head of [drop_action]: an equipped object
    that is the dropped one gives its bonus back and leaves its slot. *)
Definition unequip_if_equipped (item : Item.t) (p : Player.t) : Player.t :=
  let p :=
    match Player.weapon p, item with
    | Some w, Item.IsWeapon dropped =>
        if Nat.eqb (Weapon.id w) (Weapon.id dropped)
        then Player.set_weapon None
               (Player.set_attack
                  (Player.attack p - Weapon.attack_bonus dropped) p)
        else p
    | _, _ => p
    end in
  match Player.armor p, item with
  | Some a, Item.IsArmor dropped =>
      if Nat.eqb (Armor.id a) (Armor.id dropped)
      then Player.set_armor None
             (Player.set_defense
                (Player.defense p - Armor.defense_bonus dropped) p)
      else p
  | _, _ => p
  end.

(** [drop_action] of the inventory screen *)
Definition drop_action (item : Item.t) (inv_win : nat) : M t unit :=
  p <- the_player ;;
  put_player (unequip_if_equipped item p) ;;
  remove_item item ;;
  log ("You dropped the " ++ Item.name item ++ ".") ;;
  update_stats ;;
  destroy_window inv_win.

End Game.

(** ** Definitions used to state the properties *)

(** The amount the claim subtracts the defense from: the raw amount, or its
    floor half when the entity is defending. *)
Definition halved_or_raw (e : Entity.t) (amount : Z) : Z :=
  if Entity.is_defending e then amount / 2 else amount.

(** The spec's worked example: amount 10, defense 3, defending: net 2. *)
Definition braced_hero : Entity.t := Entity.mk "Hero" 100 100 50 50 15 3 true.

(** The bonus the equipped weapon (armor) contributes, and the attack
    (defense) the player has without it. *)
Definition weapon_bonus (p : Player.t) : Z :=
  match Player.weapon p with
  | Some w => Weapon.attack_bonus w
  | None => 0
  end.

Definition armor_bonus (p : Player.t) : Z :=
  match Player.armor p with
  | Some a => Armor.defense_bonus a
  | None => 0
  end.

Definition base_attack (p : Player.t) : Z := Player.attack p - weapon_bonus p.
Definition base_defense (p : Player.t) : Z := Player.defense p - armor_bonus p.

(** The application as [Game()] builds it, with no save file and a random
    source that always draws [k]. *)
Definition fresh_game (k : Z) : Game.t := Game.init (fun _ => k) NoFile.

(** The player [new_game] leaves in a fresh application. *)
Definition new_player : option Player.t :=
  Game.player (snd (Game.new_game (fresh_game 0))).

(** A player who carries the Iron Sword as equipped weapon and a
    Greatsword in the inventory, as after the dragon quest. *)
Definition greatsword : Weapon.t :=
  Weapon.mk 7 "Greatsword" "A heavy two-handed sword." 18.

Definition veteran : Player.t :=
  match new_player with
  | Some p => Player.add_item (Item.IsWeapon greatsword) p
  | None => Player.init "Hero" 100 50 15 5
  end.

(** Save and load of a player without the file in between: [to_dict]
    followed by [from_dict], the latter allocating from [n]. *)
Definition roundtrip (p : Player.t) (n : nat) : result Player.t :=
  match Player.to_dict p with
  | Ok d => fst (Player.from_dict d n)
  | Raise e => Raise e
  end.

(** The three objects [new_game] creates when the allocator stands at
    [n]. *)
Definition starting_potion (n : nat) : Potion.t :=
  Potion.mk n "Health Potion" "Restores 50 HP." "heal" 50.
Definition starting_sword (n : nat) : Weapon.t :=
  Weapon.mk (S n) "Iron Sword" "A basic sword." 10.
Definition starting_armor (n : nat) : Armor.t :=
  Armor.mk (S (S n)) "Leather Armor" "Simple leather armor." 5.
Definition heal_spell : Spell.t :=
  Spell.mk "Heal" "A minor healing spell." 20 (-40).

(** Is the object [i] one of the objects held in [inv]? *)
Definition holds_object (inv : list Item.t) (i : nat) : bool :=
  existsb (fun item => Nat.eqb (Item.id item) i) inv.

(** Does [inv] hold an item called [n]? *)
Definition holds_name (inv : list Item.t) (n : string) : bool :=
  existsb (fun item => String.eqb (Item.name item) n) inv.

(** The entry of [items] that builds an object equal to [i] up to
    identity. *)
Definition item_data_of (i : Item.t) : ItemData :=
  match i with
  | Item.Plain x => ClassItem (Item.plain_description x)
  | Item.IsPotion x =>
      ClassPotion (Potion.description x) (Potion.effect x) (Potion.amount x)
  | Item.IsWeapon x =>
      ClassWeapon (Weapon.description x) (Weapon.attack_bonus x)
  | Item.IsArmor x =>
      ClassArmor (Armor.description x) (Armor.defense_bonus x)
  end.

(** [i] is an object [create_item_from_name] can have built. *)
Definition from_catalog (i : Item.t) : Prop :=
  Py.get items (Item.name i) = Some (item_data_of i).

(** The same item as another object. *)
Definition with_id (n : nat) (i : Item.t) : Item.t :=
  match i with
  | Item.Plain x =>
      Item.Plain (Item.mk n (Item.plain_name x) (Item.plain_description x))
  | Item.IsPotion x =>
      Item.IsPotion (Potion.mk n (Potion.name x) (Potion.description x)
                               (Potion.effect x) (Potion.amount x))
  | Item.IsWeapon x =>
      Item.IsWeapon (Weapon.mk n (Weapon.name x) (Weapon.description x)
                               (Weapon.attack_bonus x))
  | Item.IsArmor x =>
      Item.IsArmor (Armor.mk n (Armor.name x) (Armor.description x)
                             (Armor.defense_bonus x))
  end.

(** The items of [inv] as objects allocated in order from [n]. *)
Fixpoint renumber (n : nat) (inv : list Item.t) : list Item.t :=
  match inv with
  | [] => []
  | i :: inv' => with_id n i :: renumber (S n) inv'
  end.

(** The data model of the spec for a player: items come from the
    catalogue, an equipped object is one of the inventory, attack and
    defense are the level formulas plus the equipped bonuses, and every
    known spell exists. *)
Record well_formed (p : Player.t) : Prop := mk_well_formed {
  wf_items : Forall from_catalog (Player.inventory p);
  wf_weapon : match Player.weapon p with
              | Some w => In (Item.IsWeapon w) (Player.inventory p)
              | None => True
              end;
  wf_armor : match Player.armor p with
             | Some a => In (Item.IsArmor a) (Player.inventory p)
             | None => True
             end;
  wf_attack : Player.attack p = 10 + Player.level p * 5 + weapon_bonus p;
  wf_defense : Player.defense p = 3 + Player.level p * 2 + armor_bonus p;
  wf_spells : Forall (fun s => s <> None) (Player.spells p)
}.

(** The invariant of a quest: [current_stage] indexes a stage, and a
    completed quest stands at its last stage. *)
Definition quest_ok (q : Quest.t) : Prop :=
  0 <= Quest.current_stage q < Py.len (Quest.stages q)
  /\ (Quest.completed q = true ->
      Quest.current_stage q = Py.len (Quest.stages q) - 1).

(** An application whose draws never start an encounter. *)
Definition quiet_game : Game.t := fresh_game float_0_6.

(** New game, the Old Man hands out his two-stage quest, the player walks
    north into the forest. *)
Definition quest_given : Game.t :=
  snd ((Game.new_game ;; Game.talk_to_npc "Old Man" ;;
        Game.move_player "forest") quiet_game).

(** The find_item event: searching the forest turns up the amulet. *)
Definition amulet_found : Game.t := snd (Game.search_area quest_given).

(** The kill_enemy event: the progress check [win_combat] runs for a
    defeated Dragon. *)
Definition dragon_slain : Game.t :=
  snd (Game.check_quest_progress (Some "Dragon") amulet_found).

Definition dragon_quest (g : Game.t) : option Quest.t :=
  match Game.player g with
  | Some p => Py.get (Player.quests p) "Slay the Dragon"
  | None => None
  end.

(** Every quest the player holds satisfies the invariant. *)
Definition quests_ok (g : Game.t) : Prop :=
  match Game.player g with
  | Some p => Forall (fun kv => quest_ok (snd kv)) (Player.quests p)
  | None => True
  end.

(** [m] keeps the invariant [I] of the state, whether it returns or
    raises, and what it returns satisfies [Q]. *)
Definition keeps {S A} (I : S -> Prop) (m : M S A) (Q : A -> Prop) : Prop :=
  forall s, I s ->
    I (snd (m s)) /\ forall a, fst (m s) = Ok a -> Q a.

(** A fresh enemy built from its entry in [enemies], as [start_combat]
    builds it. *)
Definition enemy_from_catalog (name : string) : option Enemy.t :=
  match Py.get enemies name with
  | Some d =>
      Some (Enemy.init name (EnemyData.hp d) (EnemyData.stamina d)
                       (EnemyData.attack d) (EnemyData.defense d)
                       (EnemyData.xp_reward d))
  | None => None
  end.

(** The two outcomes the claim allows for a flee attempt.  Combat has
    ended: no enemy stands, the player was not hit, and the flee draw was
    the only draw (no encounter was rolled). *)
Definition combat_ended (g : Game.t) (out : result unit * Game.t) : Prop :=
  fst out = Ok tt
  /\ Game.current_enemy (snd out) = None
  /\ Game.player (snd out) = Game.player g
  /\ Game.random_pos (snd out) = S (Game.random_pos g).

(** The enemy has taken its turn: the same enemy stands and the player
    has received its attack. *)
Definition enemy_turn_taken (g : Game.t) (out : result unit * Game.t) : Prop :=
  fst out = Ok tt
  /\ Game.current_enemy (snd out) = Game.current_enemy g
  /\ exists p e,
       Game.player g = Some p /\ Game.current_enemy g = Some e
       /\ Game.player (snd out)
          = Some (snd (Player.take_damage (Entity.attack (Enemy.ent e)) p)).

(** Draws for one scene: an encounter on entering the forest (a Goblin),
    a flee that succeeds, and an encounter again (a Wolf). *)
Definition scene_source (n : nat) : Z := nth n [0; 0; 0; 0; 1] 0.

(** New game, one step north: the player faces a Goblin in the forest. *)
Definition forest_fight : Game.t :=
  snd ((Game.new_game ;; Game.move_player "forest")
         (Game.init scene_source NoFile)).

Definition forest_hero : Player.t :=
  match Game.player forest_fight with
  | Some p => p
  | None => Player.init "Hero" 100 50 15 5
  end.

Definition goblin : Enemy.t := Enemy.init "Goblin" 30 20 10 5 25.

Definition forest : Location.t :=
  Location.mk "Whispering Forest"
    "A dark and eerie forest. You find a small, moss-covered shrine."
    [("south", "town"); ("east", "cave")]
    (Some ["Goblin"; "Wolf"]) None (Some "Found an Amulet").

(** The fields [from_dict] reads, in the order it reads them, each with
    whether the document has it.  [attack] and [defense] are written by
    [to_dict] but never read. *)
Definition is_some {A} (o : option A) : bool :=
  match o with Some _ => true | None => false end.

Definition required_fields (d : PlayerDoc.t) : list (string * bool) :=
  [ ("name", is_some (PlayerDoc.name d));
    ("max_hp", is_some (PlayerDoc.max_hp d));
    ("max_stamina", is_some (PlayerDoc.max_stamina d));
    ("hp", is_some (PlayerDoc.hp d));
    ("stamina", is_some (PlayerDoc.stamina d));
    ("mana", is_some (PlayerDoc.mana d));
    ("max_mana", is_some (PlayerDoc.max_mana d));
    ("xp", is_some (PlayerDoc.xp d));
    ("level", is_some (PlayerDoc.level d));
    ("location", is_some (PlayerDoc.location d));
    ("inventory", is_some (PlayerDoc.inventory d));
    ("weapon", is_some (PlayerDoc.weapon d));
    ("armor", is_some (PlayerDoc.armor d));
    ("spells", is_some (PlayerDoc.spells d));
    ("quests", is_some (PlayerDoc.quests d)) ].

(** The first required field the document lacks, if any. *)
Definition first_missing (d : PlayerDoc.t) : option string :=
  option_map fst (List.find (fun kb => negb (snd kb)) (required_fields d)).

(** What the claim expects of a failed load: [load_game] returns, the
    failure is reported like a missing save, and no player is installed. *)
Definition falls_back_to_no_save (g : Game.t) (out : result unit * Game.t)
  : Prop :=
  fst out = Ok tt
  /\ Game.player (snd out) = Game.player g
  /\ Game.text_area (snd out)
     = (Game.text_area g ++ ["No save file found."])%list.

(** A save document of a hero with neither items nor spells, standing in
    the forest, and the same document without its [name]. *)
Definition bare_save : PlayerDoc.t :=
  PlayerDoc.mk (Some "Hero") (Some 100) (Some 100) (Some 50) (Some 50)
               (Some 30) (Some 30) (Some 15) (Some 5) (Some 0) (Some 1)
               (Some "forest") (Some []) (Some None) (Some None)
               (Some []) (Some []).

Definition nameless_save : PlayerDoc.t :=
  PlayerDoc.mk None (Some 100) (Some 100) (Some 50) (Some 50)
               (Some 30) (Some 30) (Some 15) (Some 5) (Some 0) (Some 1)
               (Some "forest") (Some []) (Some None) (Some None)
               (Some []) (Some []).

(** The application started next to [nameless_save]. *)
Definition corrupt_start : Game.t :=
  Game.init (fun _ => 0) (Document nameless_save).

(** The hero of [bare_save] loaded and at once in a fight (every draw
    is 0: an encounter, the first enemy of the roster). *)
Definition bare_fight : Game.t :=
  snd (Game.load_game (Game.init (fun _ => 0) (Document bare_save))).

Definition bare_hero : Player.t :=
  match Game.player bare_fight with
  | Some p => p
  | None => Player.init "Hero" 100 50 15 5
  end.

(** ** Definitions used to state the further properties *)

(** What a potion does to the player who drinks it (the two branches
    shared by [use_potion] and [use_action]). *)
Definition potion_effect (potion : Potion.t) (p : Player.t) : Player.t :=
  if String.eqb (Potion.effect potion) "heal" then
    Player.set_hp
      (Z.min (Player.max_hp p) (Player.hp p + Potion.amount potion)) p
  else if String.eqb (Potion.effect potion) "stamina" then
    Player.set_stamina
      (Z.min (Player.max_stamina p) (Player.stamina p + Potion.amount potion))
      p
  else p.

(** The player after the current enemy, if one stands alive, has taken
    its turn. *)
Definition after_enemy_turn (g : Game.t) (p : Player.t) : Player.t :=
  match Game.current_enemy g with
  | Some e =>
      if Entity.is_alive (Enemy.ent e)
      then snd (Player.take_damage (Entity.attack (Enemy.ent e)) p)
      else p
  | None => p
  end.

(** What a healing spell (one whose damage is not positive) does to the
    caster: the cost is paid, then hp becomes the smaller of max_hp and
    hp plus the magnitude. *)
Definition healed_by (spell : Spell.t) (p : Player.t) : Player.t :=
  let p := Player.set_mana (Player.mana p - Spell.mana_cost spell) p in
  Player.set_hp (Z.min (Player.max_hp p) (Player.hp p - Spell.damage spell)) p.

(** What a combat callback returns after the enemy's turn has left the
    player [p']: its closing [update_stats] configures the stats label,
    which fails with [TclError] when that turn killed the player, because
    [game_over] has destroyed the application by then. *)
Definition after_answer (p' : Player.t) : result unit :=
  if Player.is_alive p' then Ok tt else Raise TclError.

(** The same for a callback in which the enemy takes its turn only when
    one stands alive. *)
Definition closing_stats (g : Game.t) (p : Player.t) : result unit :=
  if Game.enemy_alive g then after_answer (after_enemy_turn g p) else Ok tt.

(** The forest scene after the flee that succeeds: a Wolf stands.  In
    [last_stand] the hero is worn down to 5 hp, so that the Wolf's answer
    (attack 15 against a defense of 10) is fatal. *)
Definition wolf : Enemy.t := Enemy.init "Wolf" 40 30 15 3 35.

Definition wolf_fight : Game.t := snd (Game.flee forest_fight).

Definition worn_hero : Player.t := Player.set_hp 5 forest_hero.

Definition last_stand : Game.t :=
  Game.set_player (Some worn_hero) wolf_fight.

(** The keys [Quest.from_dict] reads, in the order it reads them, each
    with whether the document has it. *)
Definition quest_required_fields (d : QuestDoc.t) : list (string * bool) :=
  [ ("name", is_some (QuestDoc.name d));
    ("description", is_some (QuestDoc.description d));
    ("stages", is_some (QuestDoc.stages d));
    ("reward", is_some (QuestDoc.reward d));
    ("current_stage", is_some (QuestDoc.current_stage d));
    ("completed", is_some (QuestDoc.completed d)) ].

(** The first key [Quest.from_dict] reads that the document lacks. *)
Definition quest_first_missing (d : QuestDoc.t) : option string :=
  option_map fst (List.find (fun kb => negb (snd kb))
                            (quest_required_fields d)).

(** A player is set and every quest held is completed (a player without
    quests included). *)
Definition all_completed (g : Game.t) : Prop :=
  match Game.player g with
  | Some p => Forall (fun kv => Quest.completed (snd kv) = true)
                     (Player.quests p)
  | None => False
  end.

(** The quest [talk_to_npc] builds from the [quest] entry of an NPC. *)
Definition quest_of_npc (npc : Npc.t) : Quest.t :=
  Quest.init (Npc.quest_name (Npc.quest npc))
             (Npc.quest_description (Npc.quest npc))
             (Npc.quest_stages (Npc.quest npc))
             (Npc.quest_reward (Npc.quest npc)).

(** The amulet [search_area] creates when the allocator stands at [n]. *)
Definition amulet (n : nat) : Item.t :=
  Item.Plain (Item.mk n "Amulet of the Forest" "A quest item.").

(** The hero of [amulet_found]. *)
Definition amulet_finder : Player.t :=
  match Game.player amulet_found with
  | Some p => p
  | None => Player.init "Hero" 100 50 15 5
  end.

(** The entry of the Old Man in [npcs]. *)
Definition old_man : Npc.t :=
  match Py.get npcs "Old Man" with
  | Some npc => npc
  | None => Npc.mk [] (Npc.mk_quest EmptyString EmptyString [] EmptyString)
  end.

(** [name in items] *)
Definition known_item (name : string) : bool := Py.contains items name.

(** Every quest document of the player document has the six keys. *)
Definition quest_docs_complete (d : PlayerDoc.t) : Prop :=
  match PlayerDoc.quests d with
  | Some docs =>
      Forall (fun kv => quest_first_missing (snd kv) = None) docs
  | None => True
  end.

(** Attack and defense are the level formulas of [from_dict] plus the
    bonuses of the equipment. *)
Definition stats_from_level (p : Player.t) : Prop :=
  Player.attack p = 10 + Player.level p * 5 + weapon_bonus p
  /\ Player.defense p = 3 + Player.level p * 2 + armor_bonus p.

(** A save document with an item name and a spell name that the
    catalogues do not have. *)
Definition frost_save : PlayerDoc.t :=
  PlayerDoc.mk (Some "Hero") (Some 100) (Some 100) (Some 50) (Some 50)
               (Some 30) (Some 30) (Some 15) (Some 5) (Some 0) (Some 1)
               (Some "town") (Some ["Health Potion"; "Rusty Spoon"])
               (Some None) (Some None)
               (Some []) (Some ["Heal"; "Frostbolt"]).

(** The application after loading [frost_save]. *)
Definition frost_game : Game.t :=
  snd (Game.load_game (Game.init (fun _ => 0) (Document frost_save))).

(** The hero of [frost_game]. *)
Definition frost_hero : Player.t :=
  match Game.player frost_game with
  | Some p => p
  | None => Player.init "Hero" 100 50 15 5
  end.

(** Hoare triples for the state-and-exception monad: from a state in [P],
    [m] either returns [a] in a state that satisfies [Q a] or raises in a
    state that satisfies [E]. *)
Definition hoare {S A} (P : S -> Prop) (m : M S A) (Q : A -> S -> Prop)
    (E : S -> Prop) : Prop :=
  forall s, P s ->
    match m s with
    | (Ok a, s') => Q a s'
    | (Raise _, s') => E s'
    end.

(** A player whose objects were all allocated below [n], whose equal
    identities mean equal objects, and whose attack and defense are the
    level formulas plus the bonuses of the equipment. *)
Record sound_player (n : nat) (p : Player.t) : Prop := mk_sound_player {
  sp_stats : stats_from_level p;
  sp_ids : forall x, In x (Player.inventory p) -> (Item.id x < n)%nat;
  sp_weapon_id : forall w, Player.weapon p = Some w -> (Weapon.id w < n)%nat;
  sp_armor_id : forall a, Player.armor p = Some a -> (Armor.id a < n)%nat;
  sp_distinct : forall x y,
    In x (Player.inventory p) -> In y (Player.inventory p) ->
    Item.id x = Item.id y -> x = y;
  sp_weapon_same : forall x w,
    In x (Player.inventory p) -> Player.weapon p = Some w ->
    Item.id x = Weapon.id w -> x = Item.IsWeapon w;
  sp_armor_same : forall x a,
    In x (Player.inventory p) -> Player.armor p = Some a ->
    Item.id x = Armor.id a -> x = Item.IsArmor a
}.

(** The player of the application, when there is one, is sound with
    respect to the allocator. *)
Definition sound (g : Game.t) : Prop :=
  match Game.player g with
  | Some p => sound_player (Game.next_id g) p
  | None => True
  end.

(** [m] leaves the player and the save file as they are and never takes
    back an identity. *)
Definition stable {A} (m : M Game.t A) : Prop :=
  forall g,
    Game.player (snd (m g)) = Game.player g
    /\ (Game.next_id g <= Game.next_id (snd (m g)))%nat
    /\ Game.save_file (snd (m g)) = Game.save_file g.

(** The item handed to the inventory screen's actions is one of the
    inventory. *)
Definition carries (item : Item.t) (g : Game.t) : Prop :=
  match Game.player g with
  | Some p => In item (Player.inventory p)
  | None => True
  end.

(** The state is sound, holds exactly this player, and has allocated at
    least [n] identities. *)
Definition holds (n : nat) (op : option Player.t) (g : Game.t) : Prop :=
  sound g /\ Game.player g = op /\ (n <= Game.next_id g)%nat.

(** [m] keeps a sound state sound, whether it returns or raises. *)
Definition preserves {A} (m : M Game.t A) : Prop :=
  hoare sound m (fun _ => sound) sound.

(** What a button of the main window or of a selection window runs when
    pressed: the method given as its [command]. *)
Definition run_command (c : Command) : M Game.t unit :=
  match c with
  | CmdNewGame => Game.new_game
  | CmdLoadGame => Game.load_game
  | CmdMovePlayer destination => Game.move_player destination
  | CmdTalkToNpc npc_name => Game.talk_to_npc npc_name
  | CmdSearchArea => Game.search_area
  | CmdOpenInventoryScreen => Game.open_inventory_screen ;; ret tt
  | CmdSaveGame => Game.save_game
  | CmdPerformAction action => Game.perform_action action
  | CmdCastSpell spell window => Game.cast_spell spell window
  | CmdUsePotion potion window => Game.use_potion potion window
  end.

(** What the user can do: press a button, or press Equip, Use or Drop on
    the inventory screen for the item selected there. *)
Inductive Event :=
| Press (c : Command)
| PressEquip (item : Item.t) (inv_win : nat)
| PressUse (potion : Potion.t) (inv_win : nat)
| PressDrop (item : Item.t) (inv_win : nat).

(** The callback an event runs. *)
Definition handle (e : Event) : M Game.t unit :=
  match e with
  | Press c => run_command c
  | PressEquip item inv_win => Game.equip_action item inv_win
  | PressUse potion inv_win => Game.use_action potion inv_win
  | PressDrop item inv_win => Game.drop_action item inv_win
  end.

(** Equip and Drop are pressed for an item of the inventory. *)
Definition offered (e : Event) (g : Game.t) : Prop :=
  match e with
  | PressEquip item _ | PressDrop item _ => carries item g
  | _ => True
  end.

(** The state after a sequence of events; a callback that raises leaves
    the state as it was at the raise and the main loop goes on. *)
Fixpoint play (es : list Event) (g : Game.t) : Game.t :=
  match es with
  | [] => g
  | e :: es' => play es' (snd (handle e g))
  end.

(** Every event of the sequence is offered in the state it is played
    in. *)
Fixpoint all_offered (es : list Event) (g : Game.t) : Prop :=
  match es with
  | [] => True
  | e :: es' => offered e g /\ all_offered es' (snd (handle e g))
  end.

(** A session: new game, walk into the forest and meet a Goblin, defend,
    attack twice (the Goblin falls), drop the potion, save, load.  The
    load brings back neither sword nor armor, which were never in the
    inventory: attack is 15 and defense 5 at the end. *)
Definition sample_session : list Event :=
  [ Press CmdNewGame;
    Press (CmdMovePlayer "forest");
    Press (CmdPerformAction "Defend");
    Press (CmdPerformAction "Attack");
    Press (CmdPerformAction "Attack");
    PressDrop (Item.IsPotion (starting_potion 0)) 3;
    Press CmdSaveGame;
    Press CmdLoadGame ].

(** The forest fight after one attack: the Goblin is down to 10 hp. *)
Definition wounded_goblin_fight : Game.t :=
  snd (Game.perform_action "Attack" forest_fight).

(** ** The quest invariant of a session *)

(** The quests of a save document satisfy the invariant, as far as
    [Quest.from_dict] reads them. *)
Definition doc_quests_ok (d : PlayerDoc.t) : Prop :=
  match PlayerDoc.quests d with
  | Some docs =>
      Forall (fun kv => forall q, Quest.from_dict (snd kv) = Ok q ->
                                  quest_ok q) docs
  | None => True
  end.

(** The save file is absent, unreadable, or holds such a document. *)
Definition file_quests_ok (f : SaveFile) : Prop :=
  match f with
  | Document d => doc_quests_ok d
  | _ => True
  end.

(** The quest invariant of a session: every quest the player holds and
    every quest the save file would load satisfies [quest_ok]. *)
Definition quests_sound (g : Game.t) : Prop :=
  quests_ok g /\ file_quests_ok (Game.save_file g).

(** [m] keeps the quest invariant, whether it returns or raises. *)
Definition keeps_quests {A} (m : M Game.t A) : Prop :=
  hoare quests_sound m (fun _ => quests_sound) quests_sound.

(** A save document, as an editor may leave it, in which the Old Man's
    two-stage quest stands at stage 7, and the application after loading
    it. *)
Definition overrun_save : PlayerDoc.t :=
  PlayerDoc.mk (Some "Hero") (Some 100) (Some 100) (Some 50) (Some 50)
               (Some 30) (Some 30) (Some 15) (Some 5) (Some 0) (Some 1)
               (Some "town") (Some []) (Some None) (Some None)
               (Some [("Slay the Dragon",
                       Quest.to_dict
                         (Quest.set_current_stage 7 (quest_of_npc old_man)))])
               (Some []).

Definition overrun_game : Game.t :=
  snd (Game.load_game (Game.init (fun _ => 0) (Document overrun_save))).

(** A session that takes the Old Man's quest, finds the amulet in the
    forest, saves and loads. *)
Definition quest_session : list Event :=
  [ Press CmdNewGame;
    Press (CmdTalkToNpc "Old Man");
    Press (CmdMovePlayer "forest");
    Press CmdSearchArea;
    Press CmdSaveGame;
    Press CmdLoadGame ].

(** The summary of a quest: number of stages, current stage, completed
    flag. *)
Definition quest_view (q : Quest.t) : Z * Z * bool :=
  (Py.len (Quest.stages q), Quest.current_stage q, Quest.completed q).


(** * Theorems *)

(** ** Properties of [Entity.take_damage] *)

(** What the code subtracts the defense from; the half is clamped at 0. *)
Lemma take_damage_net (e : Entity.t) (amount : Z) :
  fst (Entity.take_damage amount e)
  = Z.max 0 ((if Entity.is_defending e then Z.max 0 (amount / 2) else amount)
             - Entity.defense e).
Proof.
  unfold Entity.take_damage.
  destruct (Entity.is_defending e); cbn; reflexivity.
Qed.

(** C2: for every entity and amount (the defense or the amount being
    non-negative, as they are at every call the game makes), [take_damage]
    returns [max 0 (halved-or-raw amount - defense)], where the amount is
    floor-halved exactly when the entity was defending; the new hp is the
    old hp less that net damage, floored at 0, hence never negative;
    [is_defending] is false afterwards whatever it was; every other field
    is left as it was. *)
Theorem take_damage_spec (e : Entity.t) (amount : Z)
    (Hnonneg : 0 <= Entity.defense e \/ 0 <= amount) :
  let net := Z.max 0 (halved_or_raw e amount - Entity.defense e) in
  let e' := snd (Entity.take_damage amount e) in
  fst (Entity.take_damage amount e) = net
  /\ Entity.hp e' = Z.max 0 (Entity.hp e - net)
  /\ 0 <= Entity.hp e'
  /\ Entity.is_defending e' = false
  /\ Entity.name e' = Entity.name e
  /\ Entity.max_hp e' = Entity.max_hp e
  /\ Entity.max_stamina e' = Entity.max_stamina e
  /\ Entity.stamina e' = Entity.stamina e
  /\ Entity.attack e' = Entity.attack e
  /\ Entity.defense e' = Entity.defense e.
Proof.
  assert (Hhalf : Z.max 0 (Z.max 0 (amount / 2) - Entity.defense e)
                  = Z.max 0 (amount / 2 - Entity.defense e)).
  { destruct Hnonneg as [Hd | Ha].
    - lia.
    - assert (0 <= amount / 2) by (apply Z.div_pos; lia). lia. }
  unfold halved_or_raw, Entity.take_damage.
  destruct e as [n mh h ms s a d b]; cbn in *.
  destruct b; cbn.
  - rewrite Hhalf.
    destruct (h - Z.max 0 (amount / 2 - d) <? 0) eqn:E; cbn;
      [apply Z.ltb_lt in E | apply Z.ltb_ge in E];
      repeat split; try reflexivity; lia.
  - destruct (h - Z.max 0 (amount - d) <? 0) eqn:E; cbn;
      [apply Z.ltb_lt in E | apply Z.ltb_ge in E];
      repeat split; try reflexivity; lia.
Qed.

(** The spec's worked example: amount 10, defense 3, defending: net 2. *)
Lemma take_damage_spec_witness :
  (0 <= Entity.defense braced_hero \/ 0 <= 10)
  /\ fst (Entity.take_damage 10 braced_hero) = 2
  /\ Entity.hp (snd (Entity.take_damage 10 braced_hero)) = 98
  /\ Entity.is_defending (snd (Entity.take_damage 10 braced_hero)) = false.
Proof.
  assert (Hpre : 0 <= Entity.defense braced_hero \/ 0 <= 10)
    by (right; lia).
  destruct (take_damage_spec braced_hero 10 Hpre)
    as (Hnet & Hhp & _ & Hdef & _).
  split; [exact Hpre |].
  split; [rewrite Hnet; reflexivity |].
  split; [rewrite Hhp; reflexivity | exact Hdef].
Defined.

(** Outside the data model, with a negative amount against a negative
    defense, the clamp of the half at 0 shows: the code nets 20 where the
    unclamped half would give 15. *)
Example take_damage_clamps_half :
  fst (Entity.take_damage (-10) (Entity.mk "Shade" 10 10 0 0 0 (-20) true))
  = 20
  /\ Z.max 0 (-10 / 2 - -20) = 15.
Proof. split; reflexivity. Qed.

(** ** Progression: [gain_xp] and [level_up] *)

(** What [level_up] does to every field. *)
Lemma level_up_fields (p : Player.t) :
  let p' := fst (Player.level_up p) in
  Player.level p' = Player.level p + 1
  /\ Player.xp p' = 0
  /\ Player.max_hp p' = Player.max_hp p + 20
  /\ Player.hp p' = Player.max_hp p + 20
  /\ Player.max_stamina p' = Player.max_stamina p + 10
  /\ Player.stamina p' = Player.max_stamina p + 10
  /\ Player.max_mana p' = Player.max_mana p + 10
  /\ Player.mana p' = Player.max_mana p + 10
  /\ Player.attack p' = Player.attack p + 5
  /\ Player.defense p' = Player.defense p + 2.
Proof.
  destruct p as [[n mh h ms s a d b] x l inv w ar loc q mm m sp].
  unfold Player.level_up. cbv zeta. cbn [fst].
  repeat split.
Qed.

(** C3: [gain_xp] adds the amount to xp and levels up at most once: the
    level rises by exactly 1 when the new xp reaches [level * 100] and by 0
    otherwise, however large the award; on a level-up xp is reset to 0,
    max_hp grows by 20, max_stamina and max_mana by 10, hp, stamina and
    mana are refilled to the new maxima, attack grows by 5 and defense by
    2, and one line is logged; without a level-up only xp changes. *)
Theorem gain_xp_spec (p : Player.t) (amount : Z) :
  let reached := Player.level p * 100 <=? Player.xp p + amount in
  let p' := fst (Player.gain_xp amount p) in
  let up := if reached then 1 else 0 in
  List.length (snd (Player.gain_xp amount p)) = Z.to_nat up
  /\ Player.level p' = Player.level p + up
  /\ Player.xp p' = (if reached then 0 else Player.xp p + amount)
  /\ Player.max_hp p' = Player.max_hp p + 20 * up
  /\ Player.max_stamina p' = Player.max_stamina p + 10 * up
  /\ Player.max_mana p' = Player.max_mana p + 10 * up
  /\ Player.hp p' = (if reached then Player.max_hp p' else Player.hp p)
  /\ Player.stamina p'
     = (if reached then Player.max_stamina p' else Player.stamina p)
  /\ Player.mana p' = (if reached then Player.max_mana p' else Player.mana p)
  /\ Player.attack p' = Player.attack p + 5 * up
  /\ Player.defense p' = Player.defense p + 2 * up
  /\ Player.inventory p' = Player.inventory p
  /\ Player.weapon p' = Player.weapon p
  /\ Player.armor p' = Player.armor p
  /\ Player.location p' = Player.location p
  /\ Player.quests p' = Player.quests p
  /\ Player.spells p' = Player.spells p.
Proof.
  destruct p as [[n mh h ms s a d b] x l inv w ar loc q mm m sp].
  unfold Player.gain_xp, Player.level_up.
  cbn -[Py.str Z.add Z.mul Z.leb Z.to_nat].
  destruct (l * 100 <=? x + amount); cbn -[Py.str Z.add Z.mul Z.to_nat];
    repeat split; try reflexivity; lia.
Qed.

(** A single award far beyond several thresholds still gives one level:
    level 1 with 1000 xp awarded ends at level 2 with xp 0. *)
Example gain_xp_large_award :
  let p' := fst (Player.gain_xp 1000 (Player.init "Hero" 100 50 15 5)) in
  Player.level p' = 2 /\ Player.xp p' = 0 /\ Player.max_hp p' = 120
  /\ Player.hp p' = 120.
Proof. vm_compute. repeat split. Qed.

(** ** The starting loadout *)

(** [new_game] returns normally in an application that is not destroyed,
    and this is the player it leaves from any state. *)
Lemma new_game_player (g : Game.t) :
  (Game.destroyed g = false -> fst (Game.new_game g) = Ok tt)
  /\ Game.player (snd (Game.new_game g))
     = Some (Player.mk (Entity.mk "Hero" 100 100 50 50 25 10 false) 0 1
               [Item.IsPotion (starting_potion (Game.next_id g))]
               (Some (starting_sword (Game.next_id g)))
               (Some (starting_armor (Game.next_id g)))
               "town" [] 30 30 [Some heal_spell]).
Proof.
  destruct g as [p e ta bf sl tl mb de n src pos sf].
  split.
  - cbn [Game.destroyed]. intros ->. vm_compute. reflexivity.
  - destruct de; vm_compute; reflexivity.
Qed.

(** C9: [new_game] produces a player with exactly the fixed starting
    loadout: max hp 100, max stamina 50 and max mana 30, all full; attack
    15 and defense 5 as the player's own values, on top of which the Iron
    Sword (+10) and the Leather Armor (+5) are equipped (the attack in
    effect is 15 + 10 = 25 and the defense 5 + 5 = 10); one Health Potion
    as the whole inventory; the Heal spell as the only spell; level 1 and
    no xp. *)
Theorem new_game_loadout (g : Game.t) :
  exists p,
    Game.player (snd (Game.new_game g)) = Some p
    /\ Player.max_hp p = 100 /\ Player.hp p = 100
    /\ Player.max_stamina p = 50 /\ Player.stamina p = 50
    /\ Player.max_mana p = 30 /\ Player.mana p = 30
    /\ base_attack p = 15 /\ base_defense p = 5
    /\ Player.attack p = 15 + 10 /\ Player.defense p = 5 + 5
    /\ Player.inventory p = [Item.IsPotion (starting_potion (Game.next_id g))]
    /\ Player.weapon p = Some (starting_sword (Game.next_id g))
    /\ Player.armor p = Some (starting_armor (Game.next_id g))
    /\ Player.spells p = [Some heal_spell]
    /\ Player.level p = 1 /\ Player.xp p = 0.
Proof.
  destruct (new_game_player g) as [_ Hp].
  eexists. split; [exact Hp |].
  repeat split.
Qed.

(** C10: right after [new_game] the inventory holds exactly one item, the
    Health Potion; the equipped weapon is the Iron Sword and the equipped
    armor the Leather Armor, and neither object is a member of the
    inventory (nor is any item of that name). *)
Theorem new_game_equipment_outside_inventory (g : Game.t) :
  exists p potion w a,
    Game.player (snd (Game.new_game g)) = Some p
    /\ Player.inventory p = [Item.IsPotion potion]
    /\ Potion.name potion = "Health Potion"
    /\ Player.weapon p = Some w /\ Weapon.name w = "Iron Sword"
    /\ Player.armor p = Some a /\ Armor.name a = "Leather Armor"
    /\ holds_object (Player.inventory p) (Weapon.id w) = false
    /\ holds_object (Player.inventory p) (Armor.id a) = false
    /\ holds_name (Player.inventory p) (Weapon.name w) = false
    /\ holds_name (Player.inventory p) (Armor.name a) = false.
Proof.
  destruct (new_game_player g) as [_ Hp].
  do 4 eexists. split; [exact Hp |].
  cbn [Player.inventory Player.weapon Player.armor].
  repeat split.
  - unfold holds_object; cbn. rewrite orb_false_r. apply Nat.eqb_neq. lia.
  - unfold holds_object; cbn. rewrite orb_false_r. apply Nat.eqb_neq. lia.
Qed.

(** ** Equipment *)

(** C4 (amended): for every player, equipping a weapon and then running the
    drop flow's slot cleanup on it leaves attack at the pre-equip base, that
    is the attack before the equip less the bonus of the weapon equipped
    then; so attack is unchanged when no weapon was equipped before.
    Equipping weapon A and then weapon B leaves attack at that base plus
    B's bonus only, with B in the slot.  The same holds for armor and
    defense.  Equipping never changes the inventory. *)
Theorem equip_unequip_spec (p : Player.t) (a b : Weapon.t) (x y : Armor.t)
    (item : Item.t) :
  let equip_a := Player.equip_item (Item.IsWeapon a) p in
  let equip_x := Player.equip_item (Item.IsArmor x) p in
  Player.attack (Game.unequip_if_equipped (Item.IsWeapon a) equip_a)
  = base_attack p
  /\ (Player.weapon p = None ->
      Player.attack (Game.unequip_if_equipped (Item.IsWeapon a) equip_a)
      = Player.attack p)
  /\ Player.attack (Player.equip_item (Item.IsWeapon b) equip_a)
     = base_attack p + Weapon.attack_bonus b
  /\ Player.weapon (Player.equip_item (Item.IsWeapon b) equip_a) = Some b
  /\ Player.defense (Game.unequip_if_equipped (Item.IsArmor x) equip_x)
     = base_defense p
  /\ (Player.armor p = None ->
      Player.defense (Game.unequip_if_equipped (Item.IsArmor x) equip_x)
      = Player.defense p)
  /\ Player.defense (Player.equip_item (Item.IsArmor y) equip_x)
     = base_defense p + Armor.defense_bonus y
  /\ Player.armor (Player.equip_item (Item.IsArmor y) equip_x) = Some y
  /\ Player.inventory (Player.equip_item item p) = Player.inventory p.
Proof.
  destruct p as [[n mh h ms s at_ d df] xp l inv w ar loc q mm m sp].
  unfold base_attack, base_defense, weapon_bonus, armor_bonus,
    Game.unequip_if_equipped.
  repeat apply conj.
  - destruct w, ar; cbn; rewrite Nat.eqb_refl; cbn; lia.
  - cbn. intros ->. destruct ar; cbn; rewrite Nat.eqb_refl; cbn; lia.
  - destruct w; cbn; lia.
  - destruct w; reflexivity.
  - destruct w, ar; cbn; rewrite Nat.eqb_refl; cbn; lia.
  - cbn. intros ->. destruct w; cbn; rewrite Nat.eqb_refl; cbn; lia.
  - destruct ar; cbn; lia.
  - destruct ar; reflexivity.
  - destruct item as [i | po | we | arm]; try reflexivity.
    + destruct w; reflexivity.
    + destruct ar; reflexivity.
Qed.

(** A player with an empty weapon slot equips and then unequips the
    Greatsword: attack is 15 as before. *)
Lemma equip_unequip_spec_witness :
  Player.weapon (Player.init "Hero" 100 50 15 5) = None
  /\ Player.attack
       (Game.unequip_if_equipped (Item.IsWeapon greatsword)
          (Player.equip_item (Item.IsWeapon greatsword)
             (Player.init "Hero" 100 50 15 5)))
     = 15.
Proof.
  split; [reflexivity |].
  destruct (equip_unequip_spec (Player.init "Hero" 100 50 15 5)
              greatsword greatsword
              (starting_armor 0) (starting_armor 0)
              (Item.IsWeapon greatsword)) as (_ & H & _).
  rewrite (H eq_refl). reflexivity.
Defined.

(** C4 as stated fails: a player who wears the Iron Sword (attack 25),
    equips the Greatsword and then has it unequipped, ends with attack 15,
    not 25. *)
Lemma equip_unequip_changes_attack :
  Player.attack
    (Game.unequip_if_equipped (Item.IsWeapon greatsword)
       (Player.equip_item (Item.IsWeapon greatsword) veteran))
  <> Player.attack veteran.
Proof. vm_compute. discriminate. Qed.

(** ** Saving and loading: [to_dict] and [from_dict] *)

(** Pointwise monad laws. *)
Lemma bind_ret {S A B} (a : A) (k : A -> M S B) (s : S) :
  bind (ret a) k s = k a s.
Proof. reflexivity. Qed.

Lemma bind_ok {S A B} (m : M S A) (k : A -> M S B) (s s' : S) (a : A) :
  m s = (Ok a, s') -> bind m k s = k a s'.
Proof. unfold bind. now intros ->. Qed.

Lemma bind_raise {S A B} (m : M S A) (k : A -> M S B) (s s' : S) (e : exn) :
  m s = (Raise e, s') -> bind m k s = (Raise e, s').
Proof. unfold bind. now intros ->. Qed.


(** Building an item again from the name of a catalogue item gives the
    same item as a new object. *)
Lemma create_from_catalog (i : Item.t) (n : nat) :
  from_catalog i ->
  create_item_from_name (Item.name i) n = (Ok (Some (with_id n i)), S n).
Proof.
  unfold from_catalog, create_item_from_name. intros ->.
  destruct i; reflexivity.
Qed.

Lemma map_M_catalog (inv : list Item.t) :
  Forall from_catalog inv ->
  forall n,
    map_M create_item_from_name (map Item.name inv) n
    = (Ok (map Some (renumber n inv)), (n + List.length inv)%nat).
Proof.
  induction 1 as [| i inv Hi _ IH]; intros n.
  - cbn. now rewrite Nat.add_0_r.
  - cbn [map map_M renumber List.length]. unfold bind at 1.
    rewrite (create_from_catalog i n Hi). unfold bind at 1.
    rewrite IH. cbn. now rewrite Nat.add_succ_r.
Qed.

Lemma drop_none_map_Some (l : list Item.t) :
  Player.drop_none (map Some l) = l.
Proof. induction l; cbn; congruence. Qed.

Lemma name_with_id (n : nat) (i : Item.t) :
  Item.name (with_id n i) = Item.name i.
Proof. destruct i; reflexivity. Qed.

Lemma names_renumber (inv : list Item.t) :
  forall n, map Item.name (renumber n inv) = map Item.name inv.
Proof.
  induction inv as [| i inv IH]; intros n; cbn; [reflexivity |].
  now rewrite name_with_id, IH.
Qed.

Lemma catalog_name_not_empty (i : Item.t) :
  from_catalog i -> Player.truthy (Some (Item.name i)) = true.
Proof.
  unfold from_catalog. destruct (Item.name i); [discriminate | reflexivity].
Qed.

(** The first item that bears the name of the equipped weapon is a weapon
    with the same bonus. *)
Lemma find_equipped_weapon (w : Weapon.t) (inv : list Item.t) :
  Forall from_catalog inv -> In (Item.IsWeapon w) inv ->
  forall n, exists w',
    Py.next_or_none (fun item => String.eqb (Item.name item) (Weapon.name w))
                    (renumber n inv)
    = Some (Item.IsWeapon w')
    /\ Weapon.attack_bonus w' = Weapon.attack_bonus w.
Proof.
  unfold Py.next_or_none.
  induction 1 as [| i inv Hi Hinv IH]; intros Hin n; [contradiction |].
  cbn [renumber find]. rewrite name_with_id.
  destruct (String.eqb (Item.name i) (Weapon.name w)) eqn:E.
  - apply String.eqb_eq in E.
    assert (Hw : from_catalog (Item.IsWeapon w)).
    { destruct Hin as [<- | Hin]; [exact Hi |].
      rewrite Forall_forall in Hinv. now apply Hinv. }
    unfold from_catalog in Hi, Hw. cbn [Item.name] in Hw.
    rewrite E, Hw in Hi. injection Hi as Hi.
    destruct i as [x | x | x | x]; try discriminate Hi.
    cbn in Hi. injection Hi as _ Hb.
    eexists. split; [reflexivity | cbn; congruence].
  - destruct Hin as [-> | Hin].
    + cbn in E. rewrite String.eqb_refl in E. discriminate.
    + apply IH; assumption.
Qed.

Lemma find_equipped_armor (a : Armor.t) (inv : list Item.t) :
  Forall from_catalog inv -> In (Item.IsArmor a) inv ->
  forall n, exists a',
    Py.next_or_none (fun item => String.eqb (Item.name item) (Armor.name a))
                    (renumber n inv)
    = Some (Item.IsArmor a')
    /\ Armor.defense_bonus a' = Armor.defense_bonus a.
Proof.
  unfold Py.next_or_none.
  induction 1 as [| i inv Hi Hinv IH]; intros Hin n; [contradiction |].
  cbn [renumber find]. rewrite name_with_id.
  destruct (String.eqb (Item.name i) (Armor.name a)) eqn:E.
  - apply String.eqb_eq in E.
    assert (Hw : from_catalog (Item.IsArmor a)).
    { destruct Hin as [<- | Hin]; [exact Hi |].
      rewrite Forall_forall in Hinv. now apply Hinv. }
    unfold from_catalog in Hi, Hw. cbn [Item.name] in Hw.
    rewrite E, Hw in Hi. injection Hi as Hi.
    destruct i as [x | x | x | x]; try discriminate Hi.
    cbn in Hi. injection Hi as _ Hb.
    eexists. split; [reflexivity | cbn; congruence].
  - destruct Hin as [-> | Hin].
    + cbn in E. rewrite String.eqb_refl in E. discriminate.
    + apply IH; assumption.
Qed.

Lemma spell_names_ok (ss : list (option Spell.t)) :
  Forall (fun s => s <> None) ss ->
  exists ns, Player.spell_names ss = Ok ns.
Proof.
  induction 1 as [| s ss Hs _ [ns IH]]; [now exists [] |].
  destruct s as [s |]; [| congruence].
  cbn. rewrite IH. eauto.
Qed.

Lemma quest_roundtrip (q : Quest.t) :
  Quest.from_dict (Quest.to_dict q) = Ok q.
Proof. destruct q; reflexivity. Qed.

(** The loop over the stored quests returns normally and touches
    nothing but the quests. *)
Lemma load_quests_ok (qs : list (string * Quest.t)) :
  forall (acc : M nat Player.t) (player : Player.t) (n : nat),
    acc n = (Ok player, n) ->
    exists quests',
      List.fold_left
        (fun (acc : M nat Player.t) (kv : string * QuestDoc.t) =>
           player <- acc ;;
           quest <- lift_result (Quest.from_dict (snd kv)) ;;
           ret (Player.set_quests
                  (Py.set (Player.quests player) (fst kv) quest) player))
        (map (fun kv => (fst kv, Quest.to_dict (snd kv))) qs) acc n
      = (Ok (Player.set_quests quests' player), n).
Proof.
  induction qs as [| [k q] qs IH]; intros acc player n Hacc.
  - exists (Player.quests player). cbn. rewrite Hacc.
    destruct player; reflexivity.
  - cbn [map fold_left fst snd].
    edestruct IH as [quests' H]; [| rewrite H].
    + unfold bind at 1. rewrite Hacc. rewrite quest_roundtrip. reflexivity.
    + eexists. reflexivity.
Qed.

Lemma reequip_weapon (w : Weapon.t) (inv : list Item.t) (n : nat)
    (base : Player.t) :
  Forall from_catalog inv -> In (Item.IsWeapon w) inv ->
  Player.inventory base = renumber n inv -> Player.weapon base = None ->
  exists w',
    Player.reequip (Some (Weapon.name w)) base
    = Player.set_attack (Player.attack base + Weapon.attack_bonus w)
        (Player.set_weapon (Some w') base).
Proof.
  intros Hinv Hin Hbase Hnone.
  assert (Hcat : from_catalog (Item.IsWeapon w))
    by (rewrite Forall_forall in Hinv; now apply Hinv).
  destruct (find_equipped_weapon w inv Hinv Hin n) as (w' & Hfind & Hb).
  exists w'. unfold Player.reequip.
  rewrite (catalog_name_not_empty _ Hcat : Player.truthy (Some (Weapon.name w)) = true).
  rewrite Hbase, Hfind. unfold Player.equip_item. rewrite Hnone, Hb.
  reflexivity.
Qed.

Lemma reequip_armor (a : Armor.t) (inv : list Item.t) (n : nat)
    (base : Player.t) :
  Forall from_catalog inv -> In (Item.IsArmor a) inv ->
  Player.inventory base = renumber n inv -> Player.armor base = None ->
  exists a',
    Player.reequip (Some (Armor.name a)) base
    = Player.set_defense (Player.defense base + Armor.defense_bonus a)
        (Player.set_armor (Some a') base).
Proof.
  intros Hinv Hin Hbase Hnone.
  assert (Hcat : from_catalog (Item.IsArmor a))
    by (rewrite Forall_forall in Hinv; now apply Hinv).
  destruct (find_equipped_armor a inv Hinv Hin n) as (a' & Hfind & Hb).
  exists a'. unfold Player.reequip.
  rewrite (catalog_name_not_empty _ Hcat : Player.truthy (Some (Armor.name a)) = true).
  rewrite Hbase, Hfind. unfold Player.equip_item. rewrite Hnone, Hb.
  reflexivity.
Qed.

(** On a player that satisfies the data model, save followed by load
    returns a player with the same stored scalars, the same inventory
    names in the same order, and the same attack and defense. *)
Lemma roundtrip_well_formed (p : Player.t) (n : nat) :
  well_formed p ->
  exists p',
    roundtrip p n = Ok p'
    /\ Player.name p' = Player.name p
    /\ Player.hp p' = Player.hp p /\ Player.max_hp p' = Player.max_hp p
    /\ Player.stamina p' = Player.stamina p
    /\ Player.max_stamina p' = Player.max_stamina p
    /\ Player.mana p' = Player.mana p /\ Player.max_mana p' = Player.max_mana p
    /\ Player.xp p' = Player.xp p /\ Player.level p' = Player.level p
    /\ Player.location p' = Player.location p
    /\ map Item.name (Player.inventory p') = map Item.name (Player.inventory p)
    /\ Player.attack p' = Player.attack p
    /\ Player.defense p' = Player.defense p.
Proof.
  intros [Hitems Hw Ha Hatk Hdef Hsp].
  destruct (spell_names_ok _ Hsp) as [ns Hns].
  unfold roundtrip, Player.to_dict. rewrite Hns.
  unfold Player.from_dict, Player.field, lift_option.
  cbn [PlayerDoc.name PlayerDoc.hp PlayerDoc.max_hp PlayerDoc.stamina
       PlayerDoc.max_stamina PlayerDoc.mana PlayerDoc.max_mana PlayerDoc.xp
       PlayerDoc.level PlayerDoc.location PlayerDoc.inventory PlayerDoc.weapon
       PlayerDoc.armor PlayerDoc.quests PlayerDoc.spells].
  rewrite !bind_ret.
  rewrite (bind_ok _ _ _ _ _ (map_M_catalog _ Hitems n)).
  rewrite drop_none_map_Some, !bind_ret.
  unfold weapon_bonus in Hatk. unfold armor_bonus in Hdef.
  destruct p as [[nm mh h ms s atk d df] xp l inv w ar loc q mm m sp].
  cbn -[Z.add Z.mul] in Hitems, Hw, Ha, Hatk, Hdef.
  cbn [Player.name Player.max_hp Player.max_stamina Player.hp Player.stamina
       Player.mana Player.max_mana Player.xp Player.level Player.location
       Player.inventory Player.weapon Player.armor Player.quests Player.ent
       Entity.name Entity.max_hp Entity.max_stamina Entity.hp Entity.stamina].
  match goal with
  | |- context [Player.reequip (option_map Weapon.name w) ?b] =>
      set (base := b)
  end.
  assert (Hweapon : exists w',
             Player.reequip (option_map Weapon.name w) base
             = Player.set_attack (atk) (Player.set_weapon w' base)).
  { destruct w as [w |]; cbn [option_map].
    - destruct (reequip_weapon w inv n base Hitems Hw eq_refl eq_refl)
        as (w' & ->).
      exists (Some w'). subst base. cbn -[Z.add Z.mul]. now rewrite Hatk.
    - exists None. subst base. cbn -[Z.add Z.mul]. rewrite Hatk, Z.add_0_r. reflexivity. }
  destruct Hweapon as (w' & ->).
  set (base2 := Player.set_attack atk (Player.set_weapon w' base)).
  assert (Harmor : exists a',
             Player.reequip (option_map Armor.name ar) base2
             = Player.set_defense d (Player.set_armor a' base2)).
  { destruct ar as [a |]; cbn [option_map].
    - destruct (reequip_armor a inv n base2 Hitems Ha eq_refl eq_refl)
        as (a' & ->).
      exists (Some a'). subst base2 base. cbn -[Z.add Z.mul]. now rewrite Hdef.
    - exists None. subst base2 base. cbn -[Z.add Z.mul]. rewrite Hdef, Z.add_0_r. reflexivity. }
  destruct Harmor as (a' & ->).
  match goal with
  | |- context [fold_left ?f ?l (ret ?pl) ?k] =>
      destruct (load_quests_ok q (ret pl) pl k eq_refl) as (q' & Hq)
  end.
  cbv beta in Hq. rewrite Hq.
  eexists. split; [reflexivity |].
  subst base2 base. cbn -[Z.add Z.mul].
  repeat apply conj; try reflexivity.
  apply names_renumber.
Qed.

(** The data model is satisfiable with equipment on: a level-1 player who
    carries and wields the Greatsword. *)
Example roundtrip_well_formed_example :
  let p := Player.equip_item (Item.IsWeapon greatsword)
             (Player.add_item (Item.IsWeapon greatsword)
                (Player.init "Hero" 100 50 15 5)) in
  well_formed p
  /\ option_map Player.attack
       (match roundtrip p 0 with Ok p' => Some p' | Raise _ => None end)
     = Some (Player.attack p).
Proof.
  split; [| reflexivity].
  constructor; cbn.
  - repeat constructor.
  - now left.
  - exact I.
  - reflexivity.
  - reflexivity.
  - constructor.
Qed.

(** C1 at the state every game starts from: the player [new_game] produces
    has attack 25 and defense 10 with the Iron Sword and the Leather Armor
    equipped; after [to_dict] and [from_dict] the stored scalars and the
    inventory names are back, but attack is 15, defense is 5 and both
    slots are empty, because the equipped objects were never in the
    inventory that [from_dict] searches. *)
Theorem save_load_loses_starting_equipment (g : Game.t) (n : nat) :
  exists p p',
    Game.player (snd (Game.new_game g)) = Some p
    /\ roundtrip p n = Ok p'
    /\ Player.attack p = 25 /\ Player.attack p' = 15
    /\ Player.defense p = 10 /\ Player.defense p' = 5
    /\ Player.weapon p = Some (starting_sword (Game.next_id g))
    /\ Player.weapon p' = None
    /\ Player.armor p = Some (starting_armor (Game.next_id g))
    /\ Player.armor p' = None
    /\ map Item.name (Player.inventory p') = map Item.name (Player.inventory p)
    /\ Player.level p' = Player.level p /\ Player.xp p' = Player.xp p.
Proof.
  destruct (new_game_player g) as [_ Hp].
  do 2 eexists. split; [exact Hp |].
  split; [vm_compute; reflexivity |].
  repeat apply conj; reflexivity.
Qed.

(** The same through the methods of the application: new game, save,
    load. *)
Lemma new_game_save_load_attack :
  let g := snd ((Game.new_game ;; Game.save_game ;; Game.load_game)
                  (fresh_game 0)) in
  option_map Player.attack (Game.player g) = Some 15
  /\ option_map Player.defense (Game.player g) = Some 5
  /\ option_map Player.attack new_player = Some 25
  /\ option_map Player.defense new_player = Some 10.
Proof. vm_compute. repeat split. Qed.

(** ** Quests *)

(** [advance_stage] keeps the invariant. *)
Lemma advance_stage_keeps_ok (q : Quest.t) :
  quest_ok q -> quest_ok (snd (Quest.advance_stage q)).
Proof.
  unfold quest_ok, Quest.advance_stage. intros [Hidx Hdone].
  destruct (Quest.current_stage q <? Py.len (Quest.stages q) - 1) eqn:E;
    cbn -[Z.add Z.sub].
  - apply Z.ltb_lt in E. split; [lia |]. intros Hc. specialize (Hdone Hc). lia.
  - apply Z.ltb_ge in E. split; [lia |]. intros _. lia.
Qed.

Lemma init_quest_ok (n d : string) (stages : list Quest.stage) (r : string) :
  stages <> [] -> quest_ok (Quest.init n d stages r).
Proof.
  intros Hne. unfold quest_ok; cbn.
  split; [| discriminate].
  destruct stages; [congruence |]. unfold Py.len. cbn [List.length]. lia.
Qed.

(** Rules for [keeps], one per construct of the monad. *)
Section Keeps.
Context {S : Type} (I : S -> Prop).

Lemma keeps_ret {A} (a : A) (Q : A -> Prop) : Q a -> keeps I (ret a) Q.
Proof. intros Ha s Hs. split; [exact Hs |]. cbn. now intros ? [= <-]. Qed.

Lemma keeps_raise {A} (e : exn) (Q : A -> Prop) : keeps I (raise e) Q.
Proof. intros s Hs. split; [exact Hs |]. cbn. discriminate. Qed.

Lemma keeps_bind {A B} (m : M S A) (k : A -> M S B)
    (Q : A -> Prop) (R : B -> Prop) :
  keeps I m Q -> (forall a, Q a -> keeps I (k a) R) -> keeps I (bind m k) R.
Proof.
  intros Hm Hk s Hs. destruct (Hm s Hs) as [Hs' Hq]. unfold bind.
  destruct (m s) as [[a | e] s']; cbn in *.
  - apply (Hk a (Hq a eq_refl)), Hs'.
  - split; [exact Hs' | discriminate].
Qed.

Lemma keeps_weaken {A} (m : M S A) (Q Q' : A -> Prop) :
  keeps I m Q -> (forall a, Q a -> Q' a) -> keeps I m Q'.
Proof.
  intros Hm Himp s Hs. destruct (Hm s Hs) as [Hs' Hq].
  split; [exact Hs' |]. intros a Ha. apply Himp, Hq, Ha.
Qed.

Lemma keeps_modify (f : S -> S) :
  (forall s, I s -> I (f s)) -> keeps I (modify f) (fun _ => True).
Proof. intros Hf s Hs. split; [apply Hf, Hs | trivial]. Qed.

Lemma keeps_lift_option {A} (e : exn) (o : option A) (Q : A -> Prop) :
  (forall a, o = Some a -> Q a) -> keeps I (lift_option e o) Q.
Proof.
  intros Ho. destruct o as [a |]; [apply keeps_ret; auto | apply keeps_raise].
Qed.

Lemma keeps_lift_result {A} (r : result A) (Q : A -> Prop) :
  (forall a, r = Ok a -> Q a) -> keeps I (lift_result r) Q.
Proof.
  intros Hr. destruct r as [a | e]; [apply keeps_ret; auto | apply keeps_raise].
Qed.

Lemma keeps_for_each {A} (xs : list A) (body : A -> M S unit) :
  (forall x, keeps I (body x) (fun _ => True)) ->
  keeps I (for_each xs body) (fun _ => True).
Proof.
  intros Hbody. induction xs as [| x xs IH]; cbn [for_each].
  - now apply keeps_ret.
  - eapply keeps_bind; [apply Hbody | intros; apply IH].
Qed.
End Keeps.

Lemma keeps_the_player :
  keeps quests_ok Game.the_player
        (fun p => Forall (fun kv => quest_ok (snd kv)) (Player.quests p)).
Proof.
  intros g Hg.
  unfold Game.the_player, bind, get, lift_option.
  pose proof Hg as Hq. unfold quests_ok in Hq.
  destruct (Game.player g) as [p |]; cbn.
  - split; [exact Hg |]. now intros a [= <-].
  - split; [exact Hg | discriminate].
Qed.

Lemma keeps_put_player (p : Player.t) :
  Forall (fun kv => quest_ok (snd kv)) (Player.quests p) ->
  keeps quests_ok (Game.put_player p) (fun _ => True).
Proof. intros Hp. apply keeps_modify. intros g _. exact Hp. Qed.

Lemma keeps_log (message : string) :
  keeps quests_ok (Game.log message) (fun _ => True).
Proof. apply keeps_modify. intros g Hg. exact Hg. Qed.

Lemma keeps_create_known_item (name : string) :
  keeps quests_ok (Game.create_known_item name) (fun _ => True).
Proof.
  intros g Hg. split; [| trivial].
  unfold Game.create_known_item, bind, Game.alloc.
  destruct (create_item_from_name name (Game.next_id g)) as [[[i |] | e] n];
    exact Hg.
Qed.

Lemma keeps_complete_quest (quest : Quest.t) :
  keeps quests_ok (Game.complete_quest quest) (fun _ => True).
Proof.
  unfold Game.complete_quest.
  eapply keeps_bind; [apply keeps_log | intros _ _].
  eapply keeps_bind; [apply keeps_log | intros _ _].
  destruct (String.eqb (Quest.name quest) "Slay the Dragon").
  - eapply keeps_bind; [apply keeps_the_player | intros p Hp].
    eapply keeps_bind; [apply keeps_create_known_item | intros item _].
    apply keeps_put_player. exact Hp.
  - destruct (String.eqb (Quest.name quest) "The Stolen Spellbook").
    + eapply keeps_bind; [apply keeps_the_player | intros p Hp].
      apply keeps_put_player. exact Hp.
    + now apply keeps_ret.
Qed.

Lemma replace_value_ok (qs : list (string * Quest.t)) (q : Quest.t) :
  Forall (fun kv => quest_ok (snd kv)) qs -> quest_ok q ->
  forall i, Forall (fun kv => quest_ok (snd kv)) (Game.replace_value i q qs).
Proof.
  intros Hqs Hq. induction Hqs as [| [k v] qs Hv Hrest IH]; intros i.
  - destruct i; constructor.
  - destruct i as [| i]; cbn [Game.replace_value]; constructor.
    + exact Hq.
    + exact Hrest.
    + exact Hv.
    + apply IH.
Qed.

Lemma keeps_stage_get (stage : Quest.stage) (key : string) :
  keeps quests_ok (Game.stage_get stage key) (fun _ => True).
Proof. apply keeps_lift_option. trivial. Qed.

Lemma keeps_check_one_quest (defeated_enemy : option string) (i : nat) :
  keeps quests_ok (Game.check_one_quest defeated_enemy i) (fun _ => True).
Proof.
  unfold Game.check_one_quest.
  eapply keeps_bind; [apply keeps_the_player | intros p Hp].
  eapply keeps_bind.
  { apply keeps_lift_option with (Q := fun kv => quest_ok (snd kv)).
    intros kv Hkv. apply nth_error_In in Hkv.
    rewrite Forall_forall in Hp. now apply Hp. }
  intros kv Hkv. cbv zeta.
  destruct (Quest.completed (snd kv)); [now apply keeps_ret |].
  eapply keeps_bind; [apply keeps_lift_result with (Q := fun _ => True); trivial |].
  intros stage _.
  eapply keeps_bind; [apply keeps_stage_get | intros ty _].
  eapply keeps_bind with (Q := fun _ => True).
  { destruct (String.eqb ty "kill_enemy"); [| now apply keeps_ret].
    eapply keeps_bind; [apply keeps_stage_get | intros; now apply keeps_ret]. }
  intros kill _.
  eapply keeps_bind with (Q := fun _ => True).
  { destruct kill; [now apply keeps_ret |].
    eapply keeps_bind; [apply keeps_stage_get | intros ty' _].
    destruct (String.eqb ty' "find_item"); [| now apply keeps_ret].
    destruct (Player.inventory p); [now apply keeps_ret |].
    eapply keeps_bind; [apply keeps_stage_get | intros; now apply keeps_ret]. }
  intros progress _.
  destruct progress; [| now apply keeps_ret].
  eapply keeps_bind; [apply keeps_log | intros _ _].
  pose proof (advance_stage_keeps_ok _ Hkv) as Hadv.
  destruct (Quest.advance_stage (snd kv)) as [finished quest]. cbn in Hadv.
  eapply keeps_bind.
  { apply keeps_put_player. cbn. now apply replace_value_ok. }
  intros _ _.
  destruct finished; [apply keeps_complete_quest | now apply keeps_ret].
Qed.

(** The progress check keeps the invariant of every quest of the player,
    whether it returns or raises. *)
Lemma check_quest_progress_keeps_quests_ok
    (defeated_enemy : option string) (g : Game.t) :
  quests_ok g ->
  quests_ok (snd (Game.check_quest_progress defeated_enemy g)).
Proof.
  intros Hg.
  assert (H : keeps quests_ok (Game.check_quest_progress defeated_enemy)
                    (fun _ => True)).
  { unfold Game.check_quest_progress.
    eapply keeps_bind; [apply keeps_the_player | intros p _].
    apply keeps_for_each. intros i. apply keeps_check_one_quest. }
  apply (H g Hg).
Qed.

(** The summary of a quest the scenario looks at: number of stages,
    current stage, completed flag. *)
Lemma quest_scenario :
  let view := option_map (fun q => (Py.len (Quest.stages q),
                                    Quest.current_stage q,
                                    Quest.completed q)) in
  view (dragon_quest quest_given) = Some (2, 0, false)
  /\ view (dragon_quest amulet_found) = Some (2, 1, false)
  /\ view (dragon_quest dragon_slain) = Some (2, 1, true).
Proof. vm_compute. repeat split. Qed.

(** ** Combat: fleeing and the location view *)

(** A location of [world] is one of its seven entries. *)
Lemma world_cases (l : string) (loc : Location.t) :
  Py.get world l = Some loc -> In loc (map snd world).
Proof.
  unfold world. cbn [Py.get map snd].
  repeat match goal with
         | |- context [String.eqb ?a l] => destruct (String.eqb a l)
         end;
    intros [= <-]; cbn; tauto.
Qed.


(** [flee] after its draw. *)
Lemma flee_unfold (g : Game.t) :
  Game.flee g
  = let g1 := Game.set_random_pos (S (Game.random_pos g)) g in
    if Game.random_source g (Game.random_pos g) mod two_53 <? float_0_5
    then Game.show_location
           (Game.set_current_enemy None
              (Game.set_text_area
                 (Game.text_area g1 ++ ["You successfully fled the battle."])
                 g1))
    else Game.enemy_turn
           (Game.set_text_area (Game.text_area g1 ++ ["You failed to flee!"])
                               g1).
Proof.
  unfold Game.flee, Game.random_random, bind. cbv zeta.
  destruct (Game.random_source g (Game.random_pos g) mod two_53 <? float_0_5);
    reflexivity.
Qed.

(** The enemy's turn: the player receives the enemy's attack through
    [take_damage]; the enemy stays; the application is destroyed when the
    player is dead. *)
Lemma enemy_turn_spec (g : Game.t) (p : Player.t) (e : Enemy.t) :
  Game.player g = Some p -> Game.current_enemy g = Some e ->
  let p' := snd (Player.take_damage (Entity.attack (Enemy.ent e)) p) in
  let out := Game.enemy_turn g in
  fst out = Ok tt
  /\ (exists rest, Game.text_area (snd out) = (Game.text_area g ++ rest)%list)
  /\ Game.player (snd out) = Some p'
  /\ Game.current_enemy (snd out) = Some e
  /\ Game.destroyed (snd out)
     = (if Player.is_alive p' then Game.destroyed g else true)
  /\ Game.random_pos (snd out) = Game.random_pos g.
Proof.
  destruct g as [pl en ta bf sl tl mb de n src pos sf].
  cbn. intros -> ->. cbv zeta.
  unfold Game.enemy_turn, Game.the_player, Game.the_enemy, Game.log,
    Game.put_player, Game.game_over, bind, get, modify, ret, lift_option.
  cbn -[Py.str append Player.take_damage Player.is_alive].
  destruct (Player.take_damage (Entity.attack (Enemy.ent e)) p)
    as [damage_done p'] eqn:E.
  cbn -[Py.str append Player.is_alive].
  destruct (Player.is_alive p'); cbn -[Py.str append];
    repeat apply conj; try reflexivity;
    eexists; rewrite <- ?app_assoc; reflexivity.
Qed.

(** The index [random.choice] draws is within the sequence. *)
Lemma choice_index_bound {A} (l : list A) (z : Z) :
  l <> [] -> (Z.to_nat (z mod Py.len l) < List.length l)%nat.
Proof.
  intros Hne. unfold Py.len.
  assert (0 < Z.of_nat (List.length l)) by (destruct l; [congruence | cbn; lia]).
  pose proof (Z.mod_pos_bound z (Z.of_nat (List.length l)) H). lia.
Qed.

(** Reduction that leaves number formatting and the draws alone. *)
Ltac step :=
  cbn -[Py.str append Py.get Z.modulo Z.ltb Z.to_nat nth_error
        two_53 float_0_6 float_0_5 Py.len enemy_from_catalog].

Ltac logged :=
  eexists; cbn -[Py.str append two_53 Z.modulo];
  rewrite <- ?app_assoc; reflexivity.

(** The location view in an application that is not destroyed: it
    returns, leaves the player alone, and where the location has a roster
    it draws; below 0.6 a fresh enemy of the roster stands afterwards. *)
Lemma show_location_spec (g : Game.t) (p : Player.t) (loc : Location.t) :
  Game.player g = Some p ->
  Py.get world (Player.location p) = Some loc ->
  Game.destroyed g = false ->
  let out := Game.show_location g in
  fst out = Ok tt
  /\ (exists rest, Game.text_area (snd out) = (Game.text_area g ++ rest)%list)
  /\ Game.player (snd out) = Some p
  /\ Game.destroyed (snd out) = Game.destroyed g
  /\ match Location.enemies loc with
     | None =>
         Game.current_enemy (snd out) = Game.current_enemy g
         /\ Game.random_pos (snd out) = Game.random_pos g
     | Some roster =>
         if Game.random_source g (Game.random_pos g) mod two_53 <? float_0_6
         then
           exists name,
             In name roster
             /\ enemy_from_catalog name <> None
             /\ Game.current_enemy (snd out) = enemy_from_catalog name
             /\ Game.random_pos (snd out) = S (S (Game.random_pos g))
         else
           Game.current_enemy (snd out) = Game.current_enemy g
           /\ Game.random_pos (snd out) = S (Game.random_pos g)
     end.
Proof.
  destruct g as [pl en ta bf sl tl mb de n src pos sf].
  intros Hp Hloc Hlive. cbn in Hp, Hlive. subst pl de. cbv zeta.
  cbn [Game.random_source Game.random_pos Game.destroyed Game.current_enemy
       Game.text_area].
  pose proof (world_cases _ _ Hloc) as Hin. cbn in Hin.
  unfold Game.show_location, Game.update_stats, Game.location_data,
    Game.create_location_buttons, Game.clear_buttons, Game.add_button,
    Game.the_player, Game.log, Game.random_random, Game.random_choice,
    Game.start_combat, Game.create_combat_buttons, Game.put_enemy,
    bind, get, modify, ret, lift_option.
  step.
  destruct Hin as [<- | [<- | [<- | [<- | [<- | [<- | [<- | []]]]]]]];
    rewrite Hloc; step; rewrite ?Hloc; step.
  all: try (repeat apply conj; try reflexivity; logged).
  all: destruct (src pos mod two_53 <? float_0_6); step;
    [| repeat apply conj; try reflexivity; logged].
  all: match goal with
       | |- context [nth_error ?l (Z.to_nat (?z mod Py.len ?l))] =>
           let H := fresh "H" in
           assert (H := choice_index_bound l z ltac:(discriminate));
           cbn [List.length] in H;
           destruct (Z.to_nat (z mod Py.len l)) as [| [| k]]
       end.
  all: try lia.
  all: match goal with
       | |- context [@nth_error string ?l ?k] =>
           let x := eval cbv in (nth_error l k) in
           match x with
           | @Some _ ?a =>
               step;
               split; [reflexivity |];
               split; [logged |];
               split; [reflexivity | split; [reflexivity |]];
               exists a
           end
       end.
  all: repeat apply conj;
    [ vm_compute; tauto | vm_compute; discriminate | reflexivity | reflexivity ].
Qed.

(** C6 (amended): for every flee attempt in a fight (in an application
    that has not been destroyed), the draw decides between exactly two
    courses.  Below 0.5 the attempt succeeds: the
    success is logged, the enemy is discarded, the player is not hit, and
    the location view is shown, which rolls an encounter like every
    location view: where the location has a roster and the next draw is
    below 0.6, a fresh enemy of the roster stands at the end of the same
    call; otherwise no enemy stands.  From 0.5 on the attempt fails: the
    failure is logged, the same enemy stays and takes its turn (the player
    receives its attack), and the game is over exactly when that kills the
    player. *)
Theorem flee_spec (g : Game.t) (p : Player.t) (e : Enemy.t)
    (loc : Location.t)
    (Hplayer : Game.player g = Some p)
    (Henemy : Game.current_enemy g = Some e)
    (Hloc : Py.get world (Player.location p) = Some loc)
    (Hlive : Game.destroyed g = false) :
  let r := Game.random_source g (Game.random_pos g) mod two_53 in
  let out := Game.flee g in
  fst out = Ok tt
  /\ if r <? float_0_5 then
       (exists rest,
          Game.text_area (snd out)
          = (Game.text_area g ++ "You successfully fled the battle." :: rest)%list)
       /\ Game.player (snd out) = Some p
       /\ Game.destroyed (snd out) = Game.destroyed g
       /\ match Location.enemies loc with
          | None =>
              Game.current_enemy (snd out) = None
              /\ Game.random_pos (snd out) = S (Game.random_pos g)
          | Some roster =>
              let r' :=
                Game.random_source g (S (Game.random_pos g)) mod two_53 in
              if r' <? float_0_6 then
                exists name,
                  In name roster
                  /\ enemy_from_catalog name <> None
                  /\ Game.current_enemy (snd out) = enemy_from_catalog name
                  /\ Game.random_pos (snd out) = S (S (S (Game.random_pos g)))
              else
                Game.current_enemy (snd out) = None
                /\ Game.random_pos (snd out) = S (S (Game.random_pos g))
          end
     else
       let p' := snd (Player.take_damage (Entity.attack (Enemy.ent e)) p) in
       (exists rest,
          Game.text_area (snd out)
          = (Game.text_area g ++ "You failed to flee!" :: rest)%list)
       /\ Game.player (snd out) = Some p'
       /\ Game.current_enemy (snd out) = Some e
       /\ Game.destroyed (snd out)
          = (if Player.is_alive p' then Game.destroyed g else true)
       /\ Game.random_pos (snd out) = S (Game.random_pos g).
Proof.
  cbv zeta. rewrite flee_unfold. cbv zeta.
  destruct (Game.random_source g (Game.random_pos g) mod two_53 <? float_0_5).
  - match goal with
    | |- context [Game.show_location ?s] => set (g2 := s)
    end.
    assert (Hp2 : Game.player g2 = Some p) by exact Hplayer.
    assert (Hd2 : Game.destroyed g2 = false) by exact Hlive.
    destruct (show_location_spec g2 p loc Hp2 Hloc Hd2)
      as (Hok & (rest & Htext) & Hpl & Hde & Hrest).
    split; [exact Hok |].
    split.
    { exists rest. rewrite Htext. subst g2. cbn [Game.text_area Game.set_text_area Game.set_current_enemy Game.set_random_pos].
      now rewrite <- app_assoc. }
    split; [exact Hpl |]. split; [exact Hde |].
    exact Hrest.
  - match goal with
    | |- context [Game.enemy_turn ?s] => set (g2 := s)
    end.
    assert (Hp2 : Game.player g2 = Some p) by exact Hplayer.
    assert (He2 : Game.current_enemy g2 = Some e) by exact Henemy.
    destruct (enemy_turn_spec g2 p e Hp2 He2)
      as (Hok & (rest & Htext) & Hpl & Hen & Hde & Hpos).
    split; [exact Hok |].
    split.
    { exists rest. rewrite Htext. subst g2. cbn [Game.text_area Game.set_text_area Game.set_random_pos].
      now rewrite <- app_assoc. }
    repeat apply conj; assumption.
Qed.

(** Pressing Flee runs [flee] and refreshes the stats; [perform_action]
    adds no enemy turn of its own. *)
Lemma perform_action_flee (g : Game.t) :
  Game.enemy_alive g = true ->
  Game.perform_action "Flee" g = (Game.flee ;; Game.update_stats) g.
Proof.
  intros Halive. unfold Game.perform_action.
  unfold bind at 1, get. rewrite Halive. cbn [negb].
  cbn [String.eqb Ascii.eqb Bool.eqb].
  unfold bind. destruct (Game.flee g) as [[[] | e] g']; reflexivity.
Qed.

(** In the forest scene the flee draw succeeds and the theorem applies. *)
Lemma flee_spec_witness :
  Game.player forest_fight = Some forest_hero
  /\ Game.current_enemy forest_fight = Some goblin
  /\ Py.get world (Player.location forest_hero) = Some forest
  /\ Game.destroyed forest_fight = false
  /\ fst (Game.flee forest_fight) = Ok tt.
Proof.
  assert (Hp : Game.player forest_fight = Some forest_hero)
    by (vm_compute; reflexivity).
  assert (He : Game.current_enemy forest_fight = Some goblin)
    by (vm_compute; reflexivity).
  assert (Hl : Py.get world (Player.location forest_hero) = Some forest)
    by (vm_compute; reflexivity).
  assert (Hd : Game.destroyed forest_fight = false)
    by (vm_compute; reflexivity).
  repeat apply conj; try assumption.
  exact (proj1 (flee_spec forest_fight forest_hero goblin forest Hp He Hl
                  Hd)).
Defined.

(** C6 as stated fails: in the forest scene the flee succeeds, yet the
    call ends with a Wolf standing where the Goblin stood: neither has
    combat ended without an encounter being rolled, nor has the enemy
    taken a turn. *)
Lemma flee_rolls_new_encounter :
  Game.current_enemy forest_fight = Some goblin
  /\ Game.current_enemy (snd (Game.flee forest_fight))
     = enemy_from_catalog "Wolf"
  /\ ~ (combat_ended forest_fight (Game.flee forest_fight)
        \/ enemy_turn_taken forest_fight (Game.flee forest_fight)).
Proof.
  split; [vm_compute; reflexivity |].
  split; [vm_compute; reflexivity |].
  intros [(_ & H & _) | (_ & H & _)]; vm_compute in H; discriminate H.
Qed.

(** ** Combat: Magic and Use Item with nothing to choose *)

(** C7 at a player without spells: in a fight (in an application that
    has not been destroyed), [perform_action "Magic"]
    returns without cost (player and enemy untouched) but logs nothing: it
    opens a "Cast a Spell" window that has no button.  The sibling path is
    as the claim says: with no potion, [perform_action "Use Item"] logs
    "You have no potions to use.", opens nothing and costs nothing. *)
Theorem no_subchoice_spec (g : Game.t) (p : Player.t) (e : Enemy.t)
    (Hplayer : Game.player g = Some p)
    (Henemy : Game.current_enemy g = Some e)
    (Halive : Entity.is_alive (Enemy.ent e) = true)
    (Hlive : Game.destroyed g = false) :
  (Player.spells p = [] ->
   let out := Game.perform_action "Magic" g in
   fst out = Ok tt
   /\ Game.text_area (snd out) = Game.text_area g
   /\ Game.toplevels (snd out)
      = (Game.toplevels g
         ++ [mkToplevel (Game.next_id g) "Cast a Spell" [] []])%list
   /\ Game.player (snd out) = Some p
   /\ Game.current_enemy (snd out) = Some e)
  /\ (Game.potions_of (Player.inventory p) = [] ->
      let out := Game.perform_action "Use Item" g in
      fst out = Ok tt
      /\ Game.text_area (snd out)
         = (Game.text_area g ++ ["You have no potions to use."])%list
      /\ Game.toplevels (snd out) = Game.toplevels g
      /\ Game.player (snd out) = Some p
      /\ Game.current_enemy (snd out) = Some e).
Proof.
  destruct g as [pl en ta bf sl tl mb de n src pos sf].
  cbn in Hplayer, Henemy, Hlive. subst pl en de.
  split; intros Hnone; cbv zeta.
  - unfold Game.perform_action, Game.show_spell_selection, Game.update_stats,
      Game.the_player, Game.new_toplevel, Game.alloc, fresh, bind, get, modify,
      ret, lift_option, Game.enemy_alive.
    cbn -[Py.str append Entity.is_alive]. rewrite ?Halive.
    cbn -[Py.str append Entity.is_alive]. rewrite ?Hnone.
    cbn -[Py.str append Entity.is_alive]. rewrite ?Halive.
    cbn -[Py.str append Entity.is_alive].
    repeat apply conj; reflexivity.
  - unfold Game.perform_action, Game.show_item_selection, Game.update_stats,
      Game.the_player, Game.log, bind, get, modify,
      ret, lift_option, Game.enemy_alive.
    cbn -[Py.str append Entity.is_alive]. rewrite ?Halive.
    cbn -[Py.str append Entity.is_alive]. rewrite ?Hnone.
    cbn -[Py.str append Entity.is_alive]. rewrite ?Halive.
    cbn -[Py.str append Entity.is_alive].
    repeat apply conj; reflexivity.
Qed.

(** The hero of [bare_save], who has neither spells nor potions, in a
    fight with a Goblin. *)
Lemma no_subchoice_spec_witness :
  Game.player bare_fight = Some bare_hero
  /\ Game.current_enemy bare_fight = Some goblin
  /\ Player.spells bare_hero = []
  /\ Game.text_area (snd (Game.perform_action "Magic" bare_fight))
     = Game.text_area bare_fight
  /\ Game.text_area (snd (Game.perform_action "Use Item" bare_fight))
     = (Game.text_area bare_fight ++ ["You have no potions to use."])%list.
Proof.
  assert (Hp : Game.player bare_fight = Some bare_hero)
    by (vm_compute; reflexivity).
  assert (He : Game.current_enemy bare_fight = Some goblin)
    by (vm_compute; reflexivity).
  assert (Ha : Entity.is_alive (Enemy.ent goblin) = true) by reflexivity.
  assert (Hd : Game.destroyed bare_fight = false)
    by (vm_compute; reflexivity).
  destruct (no_subchoice_spec bare_fight bare_hero goblin Hp He Ha Hd)
    as [Hmagic Hitem].
  destruct (Hmagic eq_refl) as (_ & Htext & _).
  destruct (Hitem eq_refl) as (_ & Htext' & _).
  repeat apply conj; try assumption. reflexivity.
Defined.

(** ** Loading a document that lacks a field *)

(** Building items never raises. *)
Lemma create_item_returns (name : string) (n : nat) :
  exists o n', create_item_from_name name n = (Ok o, n').
Proof.
  unfold create_item_from_name.
  destruct (Py.get items name); do 2 eexists; reflexivity.
Qed.

Lemma map_M_create_returns (names : list string) :
  forall n, exists items n',
    map_M create_item_from_name names n = (Ok items, n').
Proof.
  induction names as [| name names IH]; intros n.
  - do 2 eexists; reflexivity.
  - destruct (create_item_returns name n) as (o & n1 & H1).
    destruct (IH n1) as (os & n2 & H2).
    exists (o :: os), n2. cbn [map_M].
    rewrite (bind_ok _ _ _ _ _ H1), (bind_ok _ _ _ _ _ H2). reflexivity.
Qed.

(** [from_dict] raises [KeyError] for the first field it cannot read. *)
Lemma from_dict_missing (d : PlayerDoc.t) (k : string) (n : nat) :
  first_missing d = Some k ->
  fst (Player.from_dict d n) = Raise (KeyError k).
Proof.
  destruct d as [name hp max_hp stamina max_stamina mana max_mana attack
                 defense xp level location inventory weapon armor quests
                 spells].
  unfold first_missing, required_fields, Player.from_dict, Player.field,
    lift_option.
  cbn [PlayerDoc.name PlayerDoc.hp PlayerDoc.max_hp PlayerDoc.stamina
       PlayerDoc.max_stamina PlayerDoc.mana PlayerDoc.max_mana PlayerDoc.xp
       PlayerDoc.level PlayerDoc.location PlayerDoc.inventory PlayerDoc.weapon
       PlayerDoc.armor PlayerDoc.quests PlayerDoc.spells].
  destruct name; [| now intros [= <-]]; rewrite bind_ret.
  destruct max_hp; [| now intros [= <-]]; rewrite bind_ret.
  destruct max_stamina; [| now intros [= <-]]; rewrite bind_ret.
  destruct hp; [| now intros [= <-]]; rewrite bind_ret.
  destruct stamina; [| now intros [= <-]]; rewrite bind_ret.
  destruct mana; [| now intros [= <-]]; rewrite bind_ret.
  destruct max_mana; [| now intros [= <-]]; rewrite bind_ret.
  destruct xp; [| now intros [= <-]]; rewrite bind_ret.
  destruct level; [| now intros [= <-]]; rewrite bind_ret.
  destruct location; [| now intros [= <-]]; rewrite bind_ret.
  destruct inventory as [names |]; [| now intros [= <-]]; rewrite bind_ret.
  destruct (map_M_create_returns names n) as (its & n' & Hits).
  rewrite (bind_ok _ _ _ _ _ Hits).
  destruct weapon; [| now intros [= <-]]; rewrite bind_ret.
  destruct armor; [| now intros [= <-]]; rewrite bind_ret.
  destruct spells; [| now intros [= <-]]; rewrite bind_ret.
  destruct quests; [| now intros [= <-]].
  discriminate.
Qed.

(** C8 (amended): when the save document lacks a field that [from_dict]
    reads, [load_game] raises [KeyError] for the first such field in
    reading order and does not catch it: the exception reaches the
    caller, no player is installed, nothing is logged, and the enemy, the
    buttons and the file are as before. *)
Theorem load_corrupt_document (g : Game.t) (d : PlayerDoc.t) (k : string)
    (Hfile : Game.save_file g = Document d)
    (Hmissing : first_missing d = Some k) :
  let out := Game.load_game g in
  fst out = Raise (KeyError k)
  /\ Game.player (snd out) = Game.player g
  /\ Game.current_enemy (snd out) = Game.current_enemy g
  /\ Game.text_area (snd out) = Game.text_area g
  /\ Game.button_frame (snd out) = Game.button_frame g
  /\ Game.save_file (snd out) = Game.save_file g.
Proof.
  destruct g as [pl en ta bf sl tl mb de n src pos sf].
  cbn in Hfile. subst sf. cbv zeta.
  pose proof (from_dict_missing d k n Hmissing) as H.
  unfold Game.load_game, bind, get, Game.alloc.
  cbn [Game.save_file Game.next_id].
  destruct (Player.from_dict d n) as [r n'].
  cbn in H. subst r. cbn.
  repeat apply conj; reflexivity.
Qed.

(** The document without a name, loaded from the start menu. *)
Lemma load_corrupt_document_witness :
  Game.save_file corrupt_start = Document nameless_save
  /\ first_missing nameless_save = Some "name"
  /\ fst (Game.load_game corrupt_start) = Raise (KeyError "name")
  /\ Game.text_area (snd (Game.load_game corrupt_start))
     = Game.text_area corrupt_start.
Proof.
  assert (Hfile : Game.save_file corrupt_start = Document nameless_save)
    by reflexivity.
  assert (Hmissing : first_missing nameless_save = Some "name")
    by reflexivity.
  destruct (load_corrupt_document corrupt_start nameless_save "name"
              Hfile Hmissing) as (Hr & _ & _ & Ht & _).
  repeat apply conj; assumption.
Defined.

(** C8 as stated fails: loading the document without a name does not
    return with a reported failure; [KeyError] propagates. *)
Lemma load_corrupt_does_not_fall_back :
  Game.save_file corrupt_start = Document nameless_save
  /\ first_missing nameless_save <> None
  /\ ~ falls_back_to_no_save corrupt_start (Game.load_game corrupt_start).
Proof.
  split; [reflexivity |]. split; [discriminate |].
  intros [H _]. vm_compute in H. discriminate H.
Qed.

(** [attack] and [defense] are not required: whatever the document holds
    there, or nothing, the player loaded is the same. *)
Lemma from_dict_ignores_attack_defense
    (d : PlayerDoc.t) (a a' df df' : option Z) (n : nat) :
  let put a df :=
    PlayerDoc.mk (PlayerDoc.name d) (PlayerDoc.hp d) (PlayerDoc.max_hp d)
      (PlayerDoc.stamina d) (PlayerDoc.max_stamina d) (PlayerDoc.mana d)
      (PlayerDoc.max_mana d) a df (PlayerDoc.xp d) (PlayerDoc.level d)
      (PlayerDoc.location d) (PlayerDoc.inventory d) (PlayerDoc.weapon d)
      (PlayerDoc.armor d) (PlayerDoc.quests d) (PlayerDoc.spells d) in
  Player.from_dict (put a df) n = Player.from_dict (put a' df') n.
Proof. reflexivity. Qed.

(** * Further properties of the code *)

(** ** Experience and the combat turn *)

(** X6: [gain_xp] keeps the experience bar: from a level of at least 1
    with [0 <= xp < level * 100] and an award that is not negative, the
    level afterwards is at least 1 and again [0 <= xp < level * 100];
    when the award reaches the threshold the xp afterwards is 0, so the
    surplus of the award is lost. *)
Theorem gain_xp_keeps_xp_bar (p : Player.t) (amount : Z)
    (Hlevel : 1 <= Player.level p)
    (Hxp : 0 <= Player.xp p < Player.level p * 100)
    (Hamount : 0 <= amount) :
  let p' := fst (Player.gain_xp amount p) in
  1 <= Player.level p'
  /\ 0 <= Player.xp p' < Player.level p' * 100
  /\ (Player.level p * 100 <= Player.xp p + amount -> Player.xp p' = 0).
Proof.
  destruct p as [[n mh h ms s a d b] x l inv w ar loc q mm m sp].
  cbn -[Z.mul] in Hlevel, Hxp.
  unfold Player.gain_xp, Player.level_up.
  cbn -[Py.str Z.add Z.mul Z.leb].
  destruct (l * 100 <=? x + amount) eqn:E;
    [apply Z.leb_le in E | apply Z.leb_gt in E];
    cbn -[Py.str Z.add Z.mul]; repeat apply conj; try lia.
Qed.

Lemma gain_xp_keeps_xp_bar_witness :
  let p := Player.set_xp 90 (Player.init "Hero" 100 50 15 5) in
  Player.level (fst (Player.gain_xp 500 p)) = 2
  /\ Player.xp (fst (Player.gain_xp 500 p)) = 0
  /\ 0 <= Player.xp (fst (Player.gain_xp 500 p))
       < Player.level (fst (Player.gain_xp 500 p)) * 100.
Proof.
  intro p.
  assert (Hl : 1 <= Player.level p) by (cbn; lia).
  assert (Hx : 0 <= Player.xp p < Player.level p * 100) by (cbn; lia).
  assert (Ha : 0 <= 500) by lia.
  destruct (gain_xp_keeps_xp_bar p 500 Hl Hx Ha) as (_ & Hbar & _).
  split; [reflexivity |]. split; [reflexivity | exact Hbar].
Defined.

(** Symbolic evaluation of a method; arithmetic, number formatting and
    the draws are left alone. *)
Ltac run :=
  cbn -[Py.str append Py.get Z.modulo Z.ltb Z.leb Z.to_nat Z.add Z.sub
        Z.opp Z.min Z.max nth_error
        two_53 float_0_6 float_0_5 Py.len Entity.is_alive Player.is_alive
        Player.take_damage Entity.take_damage Player.list_remove].

(** X11: pressing Defend in a fight (in an application that has not been
    destroyed): the player braces and the enemy answers in the same call:
    the damage received is [max 0 (max 0 (attack / 2) - defense)] with the
    enemy's attack floor halved, the player is no longer defending
    afterwards and the enemy is unchanged.  When the player survives the
    answer the call returns; when the answer kills the player the
    application is destroyed and the call raises [TclError] from the
    closing [update_stats]. *)
Theorem defend_then_hit (g : Game.t) (p : Player.t) (e : Enemy.t)
    (Hplayer : Game.player g = Some p)
    (Henemy : Game.current_enemy g = Some e)
    (Halive : Entity.is_alive (Enemy.ent e) = true)
    (Hlive : Game.destroyed g = false) :
  let out := Game.perform_action "Defend" g in
  let hit := Player.take_damage (Entity.attack (Enemy.ent e))
                                (Player.set_is_defending true p) in
  fst out = after_answer (snd hit)
  /\ Game.player (snd out) = Some (snd hit)
  /\ Game.current_enemy (snd out) = Some e
  /\ Player.is_defending (snd hit) = false
  /\ fst hit
     = Z.max 0 (Z.max 0 (Entity.attack (Enemy.ent e) / 2) - Player.defense p)
  /\ Game.destroyed (snd out) = negb (Player.is_alive (snd hit)).
Proof.
  destruct g as [pl en ta bf sl tl mb de n src pos sf].
  cbn in Hplayer, Henemy, Hlive. subst pl en de. cbv zeta.
  unfold after_answer.
  unfold Game.perform_action, Game.player_defend, Game.enemy_turn,
    Game.update_stats, Game.game_over, Game.log, Game.put_player,
    Game.the_player, Game.the_enemy, bind, get, modify, ret, lift_option,
    Game.enemy_alive.
  run. rewrite Halive. run. rewrite ?Halive. run.
  destruct (Player.take_damage (Entity.attack (Enemy.ent e))
              (Player.set_is_defending true p)) as [d p'] eqn:Ehit.
  run.
  assert (Hp' : Player.is_defending p' = false
                /\ d = Z.max 0 (Z.max 0 (Entity.attack (Enemy.ent e) / 2)
                                - Player.defense p)).
  { unfold Player.take_damage in Ehit.
    destruct p as [[nm mh h ms s a df b] x l inv w ar loc q mm m sp].
    cbn -[Z.div Z.max Z.sub Z.ltb] in Ehit.
    match type of Ehit with
    | context [if ?c then _ else _] => destruct c
    end; injection Ehit as <- <-; split; reflexivity. }
  destruct Hp' as [Hflag Hd].
  destruct (Player.is_alive p'); run; rewrite ?Halive; run;
    repeat apply conj; try reflexivity; assumption.
Qed.

Lemma defend_then_hit_witness :
  Game.player forest_fight = Some forest_hero
  /\ Game.current_enemy forest_fight = Some goblin
  /\ option_map Player.hp
       (Game.player (snd (Game.perform_action "Defend" forest_fight)))
     = Some 100
  /\ option_map Player.is_defending
       (Game.player (snd (Game.perform_action "Defend" forest_fight)))
     = Some false.
Proof.
  assert (Hp : Game.player forest_fight = Some forest_hero)
    by (vm_compute; reflexivity).
  assert (He : Game.current_enemy forest_fight = Some goblin)
    by (vm_compute; reflexivity).
  assert (Hd : Game.destroyed forest_fight = false)
    by (vm_compute; reflexivity).
  destruct (defend_then_hit forest_fight forest_hero goblin Hp He eq_refl Hd)
    as (_ & Hpl & _ & Hflag & _).
  repeat apply conj; try assumption.
  - vm_compute; reflexivity.
  - rewrite Hpl. cbn [option_map]. now rewrite Hflag.
Defined.

Lemma take_damage_attack (amount : Z) (e : Entity.t) :
  Entity.attack (snd (Entity.take_damage amount e)) = Entity.attack e.
Proof.
  unfold Entity.take_damage. destruct e as [nm mh h ms s a d b].
  destruct b; cbn -[Z.div Z.max Z.sub Z.ltb];
    match goal with
    | |- context [if ?c then _ else _] => destruct c
    end; reflexivity.
Qed.

(** X10: pressing Attack on an enemy that survives the blow (in an
    application that has not been destroyed): the enemy loses the damage
    dealt (its hp is [max 0 (hp - dealt)]), then answers with its own
    attack on the player in the same call; no random draw is made.  When
    the player survives the answer the call returns; when the answer
    kills the player the application is destroyed and the call raises
    [TclError] from the closing [update_stats]. *)
Theorem attack_survived (g : Game.t) (p : Player.t) (e : Enemy.t)
    (Hplayer : Game.player g = Some p)
    (Henemy : Game.current_enemy g = Some e)
    (Halive : Entity.is_alive (Enemy.ent e) = true)
    (Hsurvives :
       Entity.is_alive
         (snd (Entity.take_damage (Player.attack p) (Enemy.ent e))) = true)
    (Hlive : Game.destroyed g = false) :
  let out := Game.perform_action "Attack" g in
  let blow := Entity.take_damage (Player.attack p) (Enemy.ent e) in
  let answer := Player.take_damage (Entity.attack (Enemy.ent e)) p in
  fst out = after_answer (snd answer)
  /\ Game.current_enemy (snd out) = Some (Enemy.set_ent (snd blow) e)
  /\ Entity.hp (snd blow)
     = Z.max 0 (Entity.hp (Enemy.ent e) - fst blow)
  /\ Game.player (snd out) = Some (snd answer)
  /\ Game.random_pos (snd out) = Game.random_pos g
  /\ Game.destroyed (snd out) = negb (Player.is_alive (snd answer)).
Proof.
  destruct g as [pl en ta bf sl tl mb de n src pos sf].
  cbn in Hplayer, Henemy, Hlive. subst pl en de. cbv zeta.
  unfold after_answer.
  assert (Hhp : Entity.hp (snd (Entity.take_damage (Player.attack p) (Enemy.ent e)))
                = Z.max 0 (Entity.hp (Enemy.ent e)
                           - fst (Entity.take_damage (Player.attack p) (Enemy.ent e)))).
  { unfold Entity.take_damage. destruct (Enemy.ent e) as [nm mh h ms s a d b].
    cbn -[Z.div Z.max Z.sub Z.ltb].
    destruct b; cbn -[Z.div Z.max Z.sub Z.ltb];
      match goal with
      | |- context [if ?c then _ else _] => destruct c eqn:E
      end; cbn -[Z.div Z.max Z.sub];
      [apply Z.ltb_lt in E | apply Z.ltb_ge in E
      |apply Z.ltb_lt in E | apply Z.ltb_ge in E]; lia. }
  unfold Game.perform_action, Game.player_attack, Game.enemy_turn,
    Game.update_stats, Game.game_over, Game.log, Game.put_player,
    Game.put_enemy, Game.the_player, Game.the_enemy, bind, get, modify, ret,
    lift_option, Game.enemy_alive.
  run. rewrite Halive. run.
  destruct (Entity.take_damage (Player.attack p) (Enemy.ent e))
    as [d ent'] eqn:Eblow.
  pose proof (take_damage_attack (Player.attack p) (Enemy.ent e)) as Hatk.
  rewrite Eblow in Hatk.
  cbn [fst snd] in Hsurvives, Hhp, Hatk. run. rewrite Hsurvives. run.
  rewrite ?Hsurvives. run. rewrite Hatk.
  destruct (Player.take_damage (Entity.attack (Enemy.ent e)) p)
    as [d' p'] eqn:Eans.
  run.
  destruct (Player.is_alive p'); run; rewrite ?Hsurvives; run;
    repeat apply conj; try reflexivity; assumption.
Qed.

Lemma attack_survived_witness :
  Game.player last_stand = Some worn_hero
  /\ Game.current_enemy last_stand = Some wolf
  /\ Game.destroyed last_stand = false
  /\ fst (Game.perform_action "Attack" last_stand) = Raise TclError
  /\ Game.destroyed (snd (Game.perform_action "Attack" last_stand)) = true
  /\ option_map (fun e => Entity.hp (Enemy.ent e))
       (Game.current_enemy (snd (Game.perform_action "Attack" last_stand)))
     = Some 18
  /\ option_map Player.hp
       (Game.player (snd (Game.perform_action "Attack" last_stand)))
     = Some 0.
Proof.
  assert (Hp : Game.player last_stand = Some worn_hero) by reflexivity.
  assert (He : Game.current_enemy last_stand = Some wolf)
    by (vm_compute; reflexivity).
  assert (Hd : Game.destroyed last_stand = false)
    by (vm_compute; reflexivity).
  destruct (attack_survived last_stand worn_hero wolf Hp He
              eq_refl eq_refl Hd) as (Hout & Hen & _ & Hpl & _ & Hde).
  split; [exact Hp |]. split; [exact He |]. split; [exact Hd |].
  rewrite Hout, Hen, Hpl, Hde. repeat apply conj; vm_compute; reflexivity.
Defined.

(** As [run], with string comparison and the effect summaries left
    folded. *)
Ltac run' :=
  cbn -[Py.str append Py.get Z.modulo Z.ltb Z.leb Z.to_nat Z.add Z.sub
        Z.opp Z.min Z.max nth_error
        two_53 float_0_6 float_0_5 Py.len Entity.is_alive Player.is_alive
        Player.take_damage Entity.take_damage Player.list_remove String.eqb
        after_enemy_turn healed_by potion_effect].

(** The enemy's turn where one stands alive: the application is
    destroyed by it exactly when it kills the player. *)
Lemma enemy_turn_if_alive (g : Game.t) (p : Player.t) :
  Game.player g = Some p ->
  let out := (if Game.enemy_alive g then Game.enemy_turn else ret tt) g in
  fst out = Ok tt
  /\ Game.player (snd out) = Some (after_enemy_turn g p)
  /\ Game.current_enemy (snd out) = Game.current_enemy g
  /\ Game.toplevels (snd out) = Game.toplevels g
  /\ Game.random_pos (snd out) = Game.random_pos g
  /\ Game.destroyed (snd out)
     = (if Game.enemy_alive g && negb (Player.is_alive (after_enemy_turn g p))
        then true else Game.destroyed g).
Proof.
  destruct g as [pl en ta bf sl tl mb de n src pos sf].
  cbn. intros ->. unfold after_enemy_turn, Game.enemy_alive. cbn.
  destruct en as [e |]; [| repeat apply conj; reflexivity].
  destruct (Entity.is_alive (Enemy.ent e)); [| repeat apply conj; reflexivity].
  unfold Game.enemy_turn, Game.game_over, Game.log, Game.put_player,
    Game.the_player, Game.the_enemy, bind, get, modify, ret, lift_option.
  run'.
  destruct (Player.take_damage (Entity.attack (Enemy.ent e)) p) as [d p'].
  run'. destruct (Player.is_alive p'); repeat apply conj; reflexivity.
Qed.

(** [update_stats] touches the stats label only; with a player set it
    raises [TclError] exactly in a destroyed application. *)
Lemma update_stats_frame (g : Game.t) :
  fst (Game.update_stats g)
  = (if Game.destroyed g && is_some (Game.player g)
     then Raise TclError else Ok tt)
  /\ Game.player (snd (Game.update_stats g)) = Game.player g
  /\ Game.current_enemy (snd (Game.update_stats g)) = Game.current_enemy g
  /\ Game.toplevels (snd (Game.update_stats g)) = Game.toplevels g
  /\ Game.random_pos (snd (Game.update_stats g)) = Game.random_pos g
  /\ Game.destroyed (snd (Game.update_stats g)) = Game.destroyed g.
Proof.
  destruct g as [pl en ta bf sl tl mb de n src pos sf].
  unfold Game.update_stats, bind, get, modify, ret, raise.
  cbn [Game.player Game.destroyed].
  destruct pl, de; repeat apply conj; reflexivity.
Qed.

(** X12: casting a spell whose damage is not positive (in an
    application that has not been destroyed) closes the selection window
    and leaves the enemy as it is.  With enough mana the cost is paid, so
    that mana stays at least 0, and hp becomes the smaller of max_hp and
    hp plus the magnitude of the damage: it rises, without passing
    max_hp, for a player whose hp was at most max_hp, and it drops to
    max_hp for one whose hp was above.  A living enemy then takes its
    turn; the call returns when the player survives it and raises
    [TclError] from the closing [update_stats] when it kills the player.
    Without enough mana the player is unchanged, only "Not enough mana!"
    is logged, the enemy does not get a turn and the call returns. *)
Theorem cast_healing_spell (g : Game.t) (p : Player.t) (spell : Spell.t)
    (window : nat)
    (Hplayer : Game.player g = Some p)
    (Hheal : Spell.damage spell <= 0)
    (Hlive : Game.destroyed g = false) :
  let out := Game.cast_spell spell window g in
  Game.current_enemy (snd out) = Game.current_enemy g
  /\ Game.toplevels (snd out)
     = filter (fun win => negb (Nat.eqb (window_id win) window))
              (Game.toplevels g)
  /\ if Spell.mana_cost spell <=? Player.mana p then
       fst out = closing_stats g (healed_by spell p)
       /\ Game.player (snd out) = Some (after_enemy_turn g (healed_by spell p))
       /\ Player.hp (healed_by spell p)
          = Z.min (Player.max_hp p) (Player.hp p - Spell.damage spell)
       /\ (Player.hp p <= Player.max_hp p ->
           Player.hp p <= Player.hp (healed_by spell p) <= Player.max_hp p)
       /\ (Player.max_hp p < Player.hp p ->
           Player.hp (healed_by spell p) = Player.max_hp p)
       /\ 0 <= Player.mana (healed_by spell p)
     else
       fst out = Ok tt
       /\ Game.player (snd out) = Some p
       /\ Game.text_area (snd out)
          = (Game.text_area g ++ ["Not enough mana!"])%list.
Proof.
  cbv zeta.
  assert (Hpos : (0 <? Spell.damage spell) = false) by (apply Z.ltb_ge; lia).
  assert (Hcap : Spell.mana_cost spell <= Player.mana p ->
                 Player.hp (healed_by spell p)
                 = Z.min (Player.max_hp p) (Player.hp p - Spell.damage spell)
                 /\ (Player.hp p <= Player.max_hp p ->
                     Player.hp p <= Player.hp (healed_by spell p)
                                 <= Player.max_hp p)
                 /\ (Player.max_hp p < Player.hp p ->
                     Player.hp (healed_by spell p) = Player.max_hp p)
                 /\ 0 <= Player.mana (healed_by spell p)).
  { unfold healed_by.
    destruct p as [[nm mh h ms s a d b] x l inv w ar lc q mm m sp].
    cbn -[Z.min Z.sub]. lia. }
  destruct g as [pl en ta bf sl tl mb de n src pos sf].
  cbn in Hplayer, Hlive. subst pl de.
  unfold closing_stats, after_answer.
  unfold Game.cast_spell, Game.destroy_window, Game.enemy_turn,
    Game.update_stats, Game.game_over, Game.log, Game.put_player,
    Game.the_player, Game.the_enemy, bind, get, modify, ret, lift_option,
    Game.enemy_alive.
  run'.
  destruct (Spell.mana_cost spell <=? Player.mana p) eqn:Hmana.
  - apply Z.leb_le in Hmana.
    destruct (Hcap Hmana) as (Hhp & Hup & Hdown & Hmp).
    run'. rewrite Hpos. run'.
    change (Player.set_hp _ (Player.set_mana _ p)) with (healed_by spell p).
    unfold after_enemy_turn. cbn [Game.current_enemy].
    destruct en as [e |]; run'; [| repeat apply conj; reflexivity || assumption].
    destruct (Entity.is_alive (Enemy.ent e)); run';
      [| repeat apply conj; reflexivity || assumption].
    destruct (Player.take_damage (Entity.attack (Enemy.ent e))
                                 (healed_by spell p)) as [d p'].
    run'. destruct (Player.is_alive p'); run';
      repeat apply conj; reflexivity || assumption.
  - run'. repeat apply conj; reflexivity.
Qed.

Lemma cast_healing_spell_witness :
  Game.player forest_fight = Some forest_hero
  /\ Spell.damage heal_spell <= 0
  /\ option_map Player.mana
       (Game.player (snd (Game.cast_spell heal_spell 0 forest_fight)))
     = Some 10
  /\ option_map Player.hp
       (Game.player (snd (Game.cast_spell heal_spell 0 forest_fight)))
     = Some 100.
Proof.
  assert (Hp : Game.player forest_fight = Some forest_hero)
    by (vm_compute; reflexivity).
  assert (Hh : Spell.damage heal_spell <= 0) by (cbn; lia).
  assert (Hd : Game.destroyed forest_fight = false)
    by (vm_compute; reflexivity).
  destruct (cast_healing_spell forest_fight forest_hero heal_spell 0 Hp Hh
              Hd) as (_ & _ & Hrest).
  change (Spell.mana_cost heal_spell <=? Player.mana forest_hero) with true
    in Hrest.
  destruct Hrest as (_ & Hpl & _).
  split; [exact Hp |]. split; [exact Hh |].
  rewrite Hpl. split; vm_compute; reflexivity.
Defined.

(** X13: [use_potion] (in an application that has not been destroyed)
    closes the selection window and applies the potion's effect before it
    removes the potion.  When the potion is one of the inventory, its
    first occurrence is removed and a living enemy then takes its turn;
    the call returns when the player survives that turn and raises
    [TclError] from the closing [update_stats] when it kills the player.
    When the potion is not held (a button of a selection window left open
    after the potion was used), the effect has already been applied when
    [remove_item] raises [ValueError], and the enemy does not get a
    turn. *)
Theorem use_potion_spec (g : Game.t) (p : Player.t) (potion : Potion.t)
    (window : nat)
    (Hplayer : Game.player g = Some p)
    (Hlive : Game.destroyed g = false) :
  let out := Game.use_potion potion window g in
  let drunk := potion_effect potion p in
  Game.current_enemy (snd out) = Game.current_enemy g
  /\ Game.toplevels (snd out)
     = filter (fun win => negb (Nat.eqb (window_id win) window))
              (Game.toplevels g)
  /\ match Player.list_remove (Item.IsPotion potion) (Player.inventory p) with
     | Some rest =>
         fst out = closing_stats g (Player.set_inventory rest drunk)
         /\ Game.player (snd out)
            = Some (after_enemy_turn g (Player.set_inventory rest drunk))
     | None =>
         fst out = Raise ValueError
         /\ Game.player (snd out) = Some drunk
     end.
Proof.
  cbv zeta.
  destruct g as [pl en ta bf sl tl mb de n src pos sf].
  cbn in Hplayer, Hlive. subst pl de.
  unfold closing_stats, after_answer.
  assert (Hinv : Player.inventory (potion_effect potion p)
                 = Player.inventory p).
  { unfold potion_effect.
    destruct (String.eqb (Potion.effect potion) "heal");
      [| destruct (String.eqb (Potion.effect potion) "stamina")];
      destruct p as [[] ]; reflexivity. }
  unfold Game.use_potion, Game.destroy_window, Game.drink, Game.remove_item,
    Player.remove_item, Game.enemy_turn,
    Game.update_stats, Game.game_over, Game.log, Game.put_player,
    Game.the_player, Game.the_enemy, bind, get, modify, ret, lift_option,
    lift_result, Game.enemy_alive.
  run'.
  unfold potion_effect in *.
  destruct (String.eqb (Potion.effect potion) "heal");
    [| destruct (String.eqb (Potion.effect potion) "stamina")];
    run'; rewrite ?Hinv;
    (destruct (Player.list_remove (Item.IsPotion potion) (Player.inventory p))
       as [rest |]; run';
     [ | repeat apply conj; reflexivity ]);
    unfold after_enemy_turn, Game.enemy_alive; cbn [Game.current_enemy];
    (destruct en as [e |]; run'; [| repeat apply conj; reflexivity]);
    (destruct (Entity.is_alive (Enemy.ent e)); run';
     [| repeat apply conj; reflexivity]);
    match goal with
    | |- context [Player.take_damage ?a ?q] =>
        destruct (Player.take_damage a q) as [d p']
    end;
    run'; destruct (Player.is_alive p'); run';
    repeat apply conj; reflexivity.
Qed.

Lemma use_potion_spec_witness :
  let once := Game.use_potion (starting_potion 0) 9 forest_fight in
  Game.player forest_fight = Some forest_hero
  /\ Game.destroyed forest_fight = false
  /\ fst once = Ok tt
  /\ option_map Player.inventory (Game.player (snd once)) = Some []
  /\ fst (Game.use_potion (starting_potion 0) 9 (snd once)) = Raise ValueError.
Proof.
  intro once.
  assert (Hp : Game.player forest_fight = Some forest_hero)
    by (vm_compute; reflexivity).
  assert (Hd : Game.destroyed forest_fight = false)
    by (vm_compute; reflexivity).
  destruct (use_potion_spec forest_fight forest_hero (starting_potion 0) 9
              Hp Hd) as (_ & _ & H1).
  change (Player.list_remove (Item.IsPotion (starting_potion 0))
            (Player.inventory forest_hero)) with (Some (@nil Item.t)) in H1.
  destruct H1 as [Hok Hpl].
  split; [exact Hp |]. split; [exact Hd |].
  split; [subst once; rewrite Hok; vm_compute; reflexivity |].
  split; [subst once; rewrite Hpl; vm_compute; reflexivity |].
  assert (Hd2 : Game.destroyed (snd once) = false)
    by (vm_compute; reflexivity).
  destruct (use_potion_spec (snd once)
              (after_enemy_turn forest_fight
                 (Player.set_inventory []
                    (potion_effect (starting_potion 0) forest_hero)))
              (starting_potion 0) 9 Hpl Hd2) as (_ & _ & H2).
  change (Player.list_remove _ _) with (@None (list Item.t)) in H2.
  exact (proj1 H2).
Defined.

(** ** Inventory and quest documents *)

Lemma list_remove_spec (item : Item.t) (xs : list Item.t) :
  match Player.list_remove item xs with
  | Some ys =>
      holds_object xs (Item.id item) = true
      /\ S (List.length ys) = List.length xs
      /\ (forall x, In x ys -> In x xs)
      /\ exists before x after,
           xs = (before ++ x :: after)%list /\ ys = (before ++ after)%list
           /\ Item.id x = Item.id item
           /\ holds_object before (Item.id item) = false
  | None => holds_object xs (Item.id item) = false
  end.
Proof.
  unfold holds_object.
  induction xs as [| x xs IH]; cbn [Player.list_remove existsb];
    [reflexivity |].
  unfold Item.same at 1.
  destruct (Nat.eqb (Item.id x) (Item.id item)) eqn:E.
  - cbn [orb]. repeat apply conj; try reflexivity.
    + intros y Hy. now right.
    + exists [], x, xs. apply Nat.eqb_eq in E. repeat apply conj; reflexivity || assumption.
  - cbn [orb]. destruct (Player.list_remove item xs) as [ys |].
    + destruct IH as (Hin & Hlen & Hsub & before & y & after & -> & -> & Hid & Hb).
      repeat apply conj.
      * exact Hin.
      * cbn [List.length]. now rewrite Hlen.
      * intros z [<- | Hz]; [now left | right; now apply Hsub].
      * exists (x :: before), y, after. repeat apply conj; try reflexivity.
        -- exact Hid.
        -- cbn [existsb]. now rewrite E, Hb.
    + exact IH.
Qed.

(** X8: [Player.remove_item] removes exactly the first object of the
    inventory that is the item, leaving the order of the others and every
    other attribute as they were; when the item is not held it raises
    [ValueError]. *)
Theorem remove_item_spec (item : Item.t) (p : Player.t) :
  match Player.remove_item item p with
  | Ok p' =>
      holds_object (Player.inventory p) (Item.id item) = true
      /\ S (List.length (Player.inventory p'))
         = List.length (Player.inventory p)
      /\ (exists before x after,
            Player.inventory p = (before ++ x :: after)%list
            /\ Player.inventory p' = (before ++ after)%list
            /\ Item.id x = Item.id item
            /\ holds_object before (Item.id item) = false)
      /\ p' = Player.set_inventory (Player.inventory p') p
  | Raise e =>
      e = ValueError
      /\ holds_object (Player.inventory p) (Item.id item) = false
  end.
Proof.
  unfold Player.remove_item.
  pose proof (list_remove_spec item (Player.inventory p)) as H.
  destruct (Player.list_remove item (Player.inventory p)) as [ys |].
  - destruct H as (Hin & Hlen & _ & Hsplit).
    destruct p; cbn in *. repeat apply conj; assumption || reflexivity.
  - split; [reflexivity | exact H].
Qed.

(** X7: adding an item that is not yet held and removing it again gives
    the player back unchanged. *)
Theorem add_then_remove_item (item : Item.t) (p : Player.t)
    (Hfresh : holds_object (Player.inventory p) (Item.id item) = false) :
  Player.remove_item item (Player.add_item item p) = Ok p.
Proof.
  unfold Player.remove_item, Player.add_item.
  destruct p as [e x l inv w ar loc q mm m sp]. cbn in *.
  assert (H : Player.list_remove item (inv ++ [item]) = Some inv).
  { unfold holds_object in Hfresh.
    induction inv as [| y inv IH]; cbn in *.
    - unfold Item.same. now rewrite Nat.eqb_refl.
    - apply orb_false_iff in Hfresh as [Hy Hrest].
      unfold Item.same at 1. rewrite Hy. now rewrite (IH Hrest). }
  now rewrite H.
Qed.

Lemma add_then_remove_item_witness :
  Player.remove_item (Item.IsWeapon greatsword)
    (Player.add_item (Item.IsWeapon greatsword) forest_hero)
  = Ok forest_hero.
Proof.
  apply (add_then_remove_item (Item.IsWeapon greatsword) forest_hero).
  vm_compute. reflexivity.
Defined.

(** X4: [Quest.to_dict] and [Quest.from_dict] are inverse to each other:
    a quest written and read back is the same quest, and a document that
    has the six keys is read to a quest that is written back as the same
    document.  A document that lacks a key raises [KeyError] for the first
    one missing in the order name, description, stages, reward,
    current_stage, completed. *)
Theorem quest_doc_codec (q : Quest.t) (d : QuestDoc.t) :
  Quest.from_dict (Quest.to_dict q) = Ok q
  /\ match quest_first_missing d with
     | Some k => Quest.from_dict d = Raise (KeyError k)
     | None => exists q', Quest.from_dict d = Ok q' /\ Quest.to_dict q' = d
     end.
Proof.
  split; [destruct q; reflexivity |].
  destruct d as [n ds st cs r c].
  unfold quest_first_missing, quest_required_fields, Quest.from_dict.
  cbn [QuestDoc.name QuestDoc.description QuestDoc.stages
       QuestDoc.current_stage QuestDoc.reward QuestDoc.completed].
  destruct n; [| reflexivity].
  destruct ds; [| reflexivity].
  destruct st; [| reflexivity].
  destruct r; [| reflexivity].
  destruct cs; [| reflexivity].
  destruct c; [| reflexivity].
  cbn. eexists. split; reflexivity.
Qed.

Lemma for_each_unchanged {S A} (xs : list A) (body : A -> M S unit) (s : S) :
  (forall x, In x xs -> body x s = (Ok tt, s)) ->
  for_each xs body s = (Ok tt, s).
Proof.
  induction xs as [| x xs IH]; intros H; [reflexivity |].
  cbn [for_each]. unfold bind. rewrite (H x (or_introl eq_refl)).
  apply IH. intros y Hy. apply H. now right.
Qed.

Lemma check_quest_progress_idle (defeated_enemy : option string)
    (g : Game.t) (p : Player.t) :
  Game.player g = Some p ->
  Forall (fun kv => Quest.completed (snd kv) = true) (Player.quests p) ->
  Game.check_quest_progress defeated_enemy g = (Ok tt, g).
Proof.
  intros Hp Hdone.
  unfold Game.check_quest_progress, Game.the_player.
  unfold bind at 1. unfold bind at 1, get. rewrite Hp.
  cbn [lift_option ret].
  apply for_each_unchanged. intros i Hi.
  apply in_seq in Hi. destruct Hi as [_ Hi]. cbn in Hi.
  unfold Game.check_one_quest, Game.the_player.
  unfold bind at 1. unfold bind at 1, get. rewrite Hp. cbn [lift_option ret].
  destruct (nth_error (Player.quests p) i) as [kv |] eqn:Hnth.
  - unfold bind at 1. cbn [lift_option ret].
    rewrite Forall_forall in Hdone.
    rewrite (Hdone kv (nth_error_In _ _ Hnth)). reflexivity.
  - apply nth_error_None in Hnth. lia.
Qed.

(** X14: when every quest the player holds is completed (or there is
    none), [check_quest_progress] returns and changes nothing: no line is
    logged and no reward is handed out a second time, whatever enemy was
    defeated. *)
Theorem check_quest_progress_completed
    (defeated_enemy : option string) (g : Game.t)
    (Hdone : all_completed g) :
  Game.check_quest_progress defeated_enemy g = (Ok tt, g).
Proof.
  unfold all_completed in Hdone.
  destruct (Game.player g) as [p |] eqn:Hp; [| contradiction].
  exact (check_quest_progress_idle defeated_enemy g p Hp Hdone).
Qed.

Lemma check_quest_progress_completed_witness :
  all_completed dragon_slain
  /\ Game.check_quest_progress (Some "Dragon") dragon_slain
     = (Ok tt, dragon_slain).
Proof.
  assert (H : all_completed dragon_slain).
  { vm_compute. repeat constructor. }
  split; [exact H |].
  exact (check_quest_progress_completed (Some "Dragon") dragon_slain H).
Defined.

(** ** Talking, searching, moving *)

Lemma Py_set_absent {V} (d : list (string * V)) (k : string) (v : V) :
  Py.contains d k = false -> Py.set d k v = (d ++ [(k, v)])%list.
Proof.
  unfold Py.contains. induction d as [| [k' v'] d IH]; cbn; [reflexivity |].
  destruct (String.eqb k' k); [discriminate |].
  intros H. now rewrite IH.
Qed.

Lemma Py_get_set_same {V} (d : list (string * V)) (k : string) (v : V) :
  Py.get (Py.set d k v) k = Some v.
Proof.
  induction d as [| [k' v'] d IH]; cbn.
  - now rewrite String.eqb_refl.
  - destruct (String.eqb k' k) eqn:E; cbn; rewrite E; [reflexivity | exact IH].
Qed.

Lemma npcs_cases (n : string) (npc : Npc.t) :
  Py.get npcs n = Some npc -> In npc (map snd npcs).
Proof.
  unfold npcs. cbn [Py.get map snd].
  repeat match goal with
         | |- context [String.eqb ?a n] => destruct (String.eqb a n)
         end;
    intros [= <-]; cbn; tauto.
Qed.

(** X15: [talk_to_npc] hands out the NPC's quest once: when the player
    does not hold a quest of that name, a new quest at stage 0 is appended
    to the quests and the call returns; when one is held, talking again
    leaves the quests, and with them its progress, as they are.  Nothing
    else of the player changes, no object is created and the enemy is
    left alone. *)
Theorem talk_to_npc_assigns_once (g : Game.t) (p : Player.t)
    (npc_name : string) (npc : Npc.t)
    (Hplayer : Game.player g = Some p)
    (Hnpc : Py.get npcs npc_name = Some npc) :
  let quest_name := Npc.quest_name (Npc.quest npc) in
  let out := Game.talk_to_npc npc_name g in
  Game.player (snd out)
  = Some (Player.set_quests
            (if Py.contains (Player.quests p) quest_name
             then Player.quests p
             else (Player.quests p ++ [(quest_name, quest_of_npc npc)])%list)
            p)
  /\ Game.current_enemy (snd out) = Game.current_enemy g
  /\ Game.next_id (snd out) = Game.next_id g
  /\ (Py.contains (Player.quests p) quest_name = false -> fst out = Ok tt).
Proof.
  cbv zeta.
  destruct g as [pl en ta bf sl tl mb de n src pos sf].
  cbn in Hplayer. subst pl.
  pose proof (npcs_cases _ _ Hnpc) as Hin. cbn in Hin.
  assert (Hp : Player.set_quests (Player.quests p) p = p)
    by (destruct p; reflexivity).
  unfold Game.talk_to_npc, Game.the_player, Game.put_player, Game.log,
    Game.stage_get, bind, get, modify, lift_option, lift_result.
  rewrite Hnpc. unfold quest_of_npc.
  cbn -[Py.contains Py.get Py.set String.eqb append
        Quest.get_current_stage_info Game.dialogue_get].
  destruct (Py.contains (Player.quests p) (Npc.quest_name (Npc.quest npc)))
    eqn:Hhas.
  - rewrite Hp.
    cbn -[Py.contains Py.get Py.set String.eqb append
          Quest.get_current_stage_info Game.dialogue_get].
    destruct (Py.get (Player.quests p) (Npc.quest_name (Npc.quest npc)))
      as [quest |];
      cbn -[Py.contains Py.get Py.set String.eqb append
            Quest.get_current_stage_info Game.dialogue_get];
      [| repeat apply conj; reflexivity || discriminate].
    destruct (Quest.get_current_stage_info quest) as [stage | ex];
      cbn -[Py.contains Py.get Py.set String.eqb append Game.dialogue_get];
      [| repeat apply conj; reflexivity || discriminate].
    destruct (Py.get stage "target_description");
      repeat apply conj; reflexivity || discriminate.
  - rewrite (Py_set_absent _ _ _ Hhas).
    cbn -[Py.contains Py.get Py.set String.eqb append
          Quest.get_current_stage_info Game.dialogue_get].
    assert (Hq : forall qs, Player.quests (Player.set_quests qs p) = qs)
      by (intros; destruct p; reflexivity).
    rewrite ?Hq.
    rewrite <- (Py_set_absent _ _ _ Hhas), Py_get_set_same.
    rewrite (Py_set_absent _ _ _ Hhas).
    destruct Hin as [<- | [<- | []]]; cbn -[append];
      repeat apply conj; reflexivity.
Qed.

Lemma talk_to_npc_assigns_once_witness :
  Game.player amulet_found = Some amulet_finder
  /\ Py.get npcs "Old Man" = Some old_man
  /\ Game.player (snd (Game.talk_to_npc "Old Man" amulet_found))
     = Some amulet_finder
  /\ option_map Quest.current_stage (dragon_quest amulet_found) = Some 1.
Proof.
  assert (Hp : Game.player amulet_found = Some amulet_finder)
    by (vm_compute; reflexivity).
  assert (Hn : Py.get npcs "Old Man" = Some old_man)
    by (vm_compute; reflexivity).
  destruct (talk_to_npc_assigns_once amulet_found amulet_finder "Old Man"
              old_man Hp Hn) as (Hpl & _).
  split; [exact Hp |]. split; [exact Hn |].
  split; [rewrite Hpl; vm_compute; reflexivity | vm_compute; reflexivity].
Defined.

(** X16: [search_area] at a location without a secret does nothing.  At
    a location with one, an amulet object is created in any case; when
    the inventory holds an item with the amulet's name, only
    "You find nothing of interest." is logged; when it holds none, the new
    amulet is appended to the inventory, the find is logged and the quests
    are checked for progress.  The test looks at the inventory as it is at
    the call, not at earlier finds. *)
Theorem search_area_spec (g : Game.t) (p : Player.t) (loc : Location.t)
    (Hplayer : Game.player g = Some p)
    (Hloc : Py.get world (Player.location p) = Some loc) :
  match Location.secret loc with
  | None => Game.search_area g = (Ok tt, g)
  | Some _ =>
      let g1 := Game.set_next_id (S (Game.next_id g)) g in
      if holds_name (Player.inventory p) "Amulet of the Forest" then
        Game.search_area g
        = (Ok tt,
           Game.set_text_area
             (Game.text_area g ++ ["You find nothing of interest."]) g1)
      else
        Game.search_area g
        = Game.check_quest_progress None
            (Game.set_text_area
               (Game.text_area g
                ++ ["You search the area and find the Amulet of the Forest!"])
               (Game.set_player
                  (Some (Player.add_item (amulet (Game.next_id g)) p)) g1))
  end.
Proof.
  destruct g as [pl en ta bf sl tl mb de n src pos sf].
  cbn in Hplayer. subst pl.
  pose proof (world_cases _ _ Hloc) as Hin. cbn in Hin.
  unfold Game.search_area, Game.location_data, Game.create_known_item,
    Game.alloc, Game.the_player, Game.put_player, Game.log,
    bind, get, modify, lift_option, holds_name, Py.any.
  cbn [Game.player ret]. rewrite Hloc.
  destruct Hin as [<- | [<- | [<- | [<- | [<- | [<- | [<- | []]]]]]]];
    try reflexivity.
  cbn -[existsb Game.check_quest_progress append].
  destruct (existsb _ (Player.inventory p)); reflexivity.
Qed.

Lemma search_area_spec_witness :
  Game.player amulet_found = Some amulet_finder
  /\ Py.get world (Player.location amulet_finder) = Some forest
  /\ fst (Game.search_area amulet_found) = Ok tt
  /\ Game.player (snd (Game.search_area amulet_found)) = Some amulet_finder.
Proof.
  assert (Hp : Game.player amulet_found = Some amulet_finder)
    by (vm_compute; reflexivity).
  assert (Hl : Py.get world (Player.location amulet_finder) = Some forest)
    by (vm_compute; reflexivity).
  pose proof (search_area_spec amulet_found amulet_finder forest Hp Hl) as H.
  assert (Hh : holds_name (Player.inventory amulet_finder)
                          "Amulet of the Forest" = true)
    by (vm_compute; reflexivity).
  unfold forest in H. cbn [Location.secret] in H. cbv zeta in H.
  rewrite Hh in H. rewrite H.
  split; [exact Hp |]. split; [exact Hl |].
  split; [reflexivity | vm_compute; reflexivity].
Defined.

Lemma world_exits_closed (l : string) (loc : Location.t) (dir dest : string) :
  Py.get world l = Some loc -> In (dir, dest) (Location.exits loc) ->
  exists loc', Py.get world dest = Some loc'.
Proof.
  intros Hloc Hexit.
  pose proof (world_cases _ _ Hloc) as Hin. cbn in Hin.
  destruct Hin as [<- | [<- | [<- | [<- | [<- | [<- | [<- | []]]]]]]];
    cbn in Hexit;
    repeat match goal with
           | H : _ \/ _ |- _ => destruct H as [H | H]
           | H : (_, _) = (_, _) |- _ => injection H as <- <-
           | H : False |- _ => destruct H
           end;
    eexists; reflexivity.
Qed.

(** X17: the world map is closed under its exits: moving along any exit
    of the current location (in an application that has not been
    destroyed) returns, the destination is a location of
    [world], the player stands there with nothing else changed, and an
    encounter is rolled only where the destination has a roster: below
    0.6 an enemy of that roster's catalogue entry stands, otherwise the
    enemy slot is untouched. *)
Theorem move_player_along_exit (g : Game.t) (p : Player.t) (loc : Location.t)
    (direction destination : string)
    (Hplayer : Game.player g = Some p)
    (Hloc : Py.get world (Player.location p) = Some loc)
    (Hexit : In (direction, destination) (Location.exits loc))
    (Hlive : Game.destroyed g = false) :
  let out := Game.move_player destination g in
  exists loc',
    Py.get world destination = Some loc'
    /\ fst out = Ok tt
    /\ Game.player (snd out) = Some (Player.set_location destination p)
    /\ match Location.enemies loc' with
       | None =>
           Game.current_enemy (snd out) = Game.current_enemy g
           /\ Game.random_pos (snd out) = Game.random_pos g
       | Some roster =>
           if Game.random_source g (Game.random_pos g) mod two_53 <? float_0_6
           then exists name,
                  In name roster
                  /\ Game.current_enemy (snd out) = enemy_from_catalog name
                  /\ enemy_from_catalog name <> None
           else Game.current_enemy (snd out) = Game.current_enemy g
       end.
Proof.
  cbv zeta.
  destruct (world_exits_closed _ _ _ _ Hloc Hexit) as [loc' Hloc'].
  exists loc'. split; [exact Hloc' |].
  assert (Hmove : Game.move_player destination g
                  = Game.show_location
                      (Game.set_player
                         (Some (Player.set_location destination p)) g)).
  { destruct g as [pl en ta bf sl tl mb de n src pos sf].
    cbn in Hplayer. subst pl. reflexivity. }
  rewrite Hmove.
  set (g1 := Game.set_player (Some (Player.set_location destination p)) g).
  assert (Hp1 : Game.player g1 = Some (Player.set_location destination p))
    by reflexivity.
  assert (Hl1 : Py.get world (Player.location (Player.set_location destination p))
                = Some loc') by (destruct p; exact Hloc').
  assert (Hd1 : Game.destroyed g1 = false) by exact Hlive.
  destruct (show_location_spec g1 _ loc' Hp1 Hl1 Hd1)
    as (Hok & _ & Hpl & _ & Hrest).
  split; [exact Hok |]. split; [exact Hpl |].
  destruct (Location.enemies loc') as [roster |].
  - change (Game.random_source g1) with (Game.random_source g) in Hrest.
    change (Game.random_pos g1) with (Game.random_pos g) in Hrest.
    destruct (Game.random_source g (Game.random_pos g) mod two_53 <? float_0_6).
    + destruct Hrest as (name & Hin & Hne & Hen & _).
      exists name. repeat apply conj; assumption.
    + exact (proj1 Hrest).
  - exact Hrest.
Qed.

Lemma move_player_along_exit_witness :
  Game.player forest_fight = Some forest_hero
  /\ Py.get world (Player.location forest_hero) = Some forest
  /\ In ("east", "cave") (Location.exits forest)
  /\ Game.destroyed forest_fight = false
  /\ fst (Game.move_player "cave" forest_fight) = Ok tt.
Proof.
  assert (Hp : Game.player forest_fight = Some forest_hero)
    by (vm_compute; reflexivity).
  assert (Hl : Py.get world (Player.location forest_hero) = Some forest)
    by (vm_compute; reflexivity).
  assert (He : In ("east", "cave") (Location.exits forest))
    by (right; left; reflexivity).
  assert (Hd : Game.destroyed forest_fight = false)
    by (vm_compute; reflexivity).
  destruct (move_player_along_exit forest_fight forest_hero forest
              "east" "cave" Hp Hl He Hd) as (loc' & _ & Hok & _).
  repeat apply conj; assumption.
Defined.

(** ** Loading a complete document *)

Lemma equip_item_keeps_stats (item : Item.t) (p : Player.t) :
  stats_from_level p -> stats_from_level (Player.equip_item item p).
Proof.
  unfold stats_from_level, weapon_bonus, armor_bonus.
  destruct p as [[nm mh h ms s a d b] x l inv w ar lc q mm m sp].
  cbn -[Z.add Z.mul Z.sub]. intros [Ha Hd].
  destruct item as [i | po | we | arm]; cbn -[Z.add Z.mul Z.sub];
    try (split; assumption).
  - destruct w; cbn -[Z.add Z.mul Z.sub]; split; lia.
  - destruct ar; cbn -[Z.add Z.mul Z.sub]; split; lia.
Qed.

Lemma reequip_keeps_stats (stored : option string) (p : Player.t) :
  stats_from_level p -> stats_from_level (Player.reequip stored p).
Proof.
  intros H. unfold Player.reequip.
  destruct (Player.truthy stored); [| exact H].
  destruct (Py.next_or_none _ _); [now apply equip_item_keeps_stats | exact H].
Qed.

Lemma reequip_frame (stored : option string) (p : Player.t) :
  let p' := Player.reequip stored p in
  Player.inventory p' = Player.inventory p
  /\ Player.level p' = Player.level p /\ Player.xp p' = Player.xp p
  /\ Player.name p' = Player.name p /\ Player.hp p' = Player.hp p
  /\ Player.max_hp p' = Player.max_hp p
  /\ Player.stamina p' = Player.stamina p
  /\ Player.max_stamina p' = Player.max_stamina p
  /\ Player.mana p' = Player.mana p /\ Player.max_mana p' = Player.max_mana p
  /\ Player.location p' = Player.location p
  /\ Player.spells p' = Player.spells p
  /\ Player.quests p' = Player.quests p
  /\ Player.is_defending p' = Player.is_defending p.
Proof.
  cbv zeta. unfold Player.reequip.
  destruct (Player.truthy stored); [| repeat apply conj; reflexivity].
  destruct (Py.next_or_none _ _) as [item |];
    [| repeat apply conj; reflexivity].
  destruct p as [[nm mh h ms s a d b] x l inv w ar lc q mm m sp].
  destruct item as [i | po | we | arm]; cbn;
    try (repeat apply conj; reflexivity).
  - destruct w; repeat apply conj; reflexivity.
  - destruct ar; repeat apply conj; reflexivity.
Qed.

Lemma create_item_cases (name : string) (n : nat) :
  (known_item name = true
   /\ exists item, create_item_from_name name n = (Ok (Some item), S n)
                   /\ Item.name item = name /\ Item.id item = n)
  \/ (known_item name = false
      /\ create_item_from_name name n = (Ok None, n)).
Proof.
  unfold known_item, Py.contains, create_item_from_name.
  destruct (Py.get items name) as [data |].
  - left. split; [reflexivity |].
    destruct data; eexists; repeat apply conj; reflexivity.
  - right. split; reflexivity.
Qed.

Lemma map_M_create_items (names : list string) :
  forall n, exists os,
    map_M create_item_from_name names n
    = (Ok os, (n + List.length (Player.drop_none os))%nat)
    /\ map Item.name (Player.drop_none os) = filter known_item names.
Proof.
  induction names as [| name names IH]; intros n.
  - exists []. cbn. now rewrite Nat.add_0_r.
  - cbn [map_M filter].
    destruct (create_item_cases name n)
      as [(Hk & item & Hc & Hname & _) | (Hk & Hc)]; rewrite Hk.
    + destruct (IH (S n)) as (os & Hos & Hnames).
      exists (Some item :: os).
      rewrite (bind_ok _ _ _ _ _ Hc), (bind_ok _ _ _ _ _ Hos).
      cbn [Player.drop_none List.length map]. rewrite Hname, Hnames.
      split; [| reflexivity]. unfold ret. f_equal. lia.
    + destruct (IH n) as (os & Hos & Hnames).
      exists (None :: os).
      rewrite (bind_ok _ _ _ _ _ Hc), (bind_ok _ _ _ _ _ Hos).
      cbn [Player.drop_none]. split; [reflexivity | exact Hnames].
Qed.

Lemma quest_from_dict_complete (d : QuestDoc.t) :
  quest_first_missing d = None -> exists q, Quest.from_dict d = Ok q.
Proof.
  destruct d as [n ds st cs r c].
  unfold quest_first_missing, quest_required_fields.
  cbn [QuestDoc.name QuestDoc.description QuestDoc.stages
       QuestDoc.current_stage QuestDoc.reward QuestDoc.completed].
  destruct n; [| discriminate]. destruct ds; [| discriminate].
  destruct st; [| discriminate]. destruct r; [| discriminate].
  destruct cs; [| discriminate]. destruct c; [| discriminate].
  intros _. eexists. reflexivity.
Qed.

Lemma load_complete_quests (docs : list (string * QuestDoc.t)) :
  Forall (fun kv => quest_first_missing (snd kv) = None) docs ->
  forall (acc : M nat Player.t) (player : Player.t) (n : nat),
    acc n = (Ok player, n) ->
    exists quests',
      List.fold_left
        (fun (acc : M nat Player.t) (kv : string * QuestDoc.t) =>
           player <- acc ;;
           quest <- lift_result (Quest.from_dict (snd kv)) ;;
           ret (Player.set_quests
                  (Py.set (Player.quests player) (fst kv) quest) player))
        docs acc n
      = (Ok (Player.set_quests quests' player), n).
Proof.
  induction 1 as [| [k d] docs Hd _ IH]; intros acc player n Hacc.
  - exists (Player.quests player). cbn. rewrite Hacc.
    destruct player; reflexivity.
  - cbn [fold_left fst snd].
    destruct (quest_from_dict_complete d Hd) as [q Hq].
    edestruct IH as [quests' H]; [| rewrite H].
    + unfold bind at 1. rewrite Hacc. rewrite Hq. reflexivity.
    + eexists. reflexivity.
Qed.

(** X2: [Player.from_dict] on a document that has the fifteen keys it
    reads, and whose quest documents have their six keys, returns a
    player.  The stored scalars are taken over; inventory names that are
    not in the item catalogue are dropped silently, while every name of
    the spell list gives an entry, [None] for a name that is not in the
    spell catalogue; attack and defense are recomputed from the level and
    from what gets equipped; the player is not defending; and one object
    is allocated for each item kept. *)
Theorem from_dict_complete (d : PlayerDoc.t) (n : nat)
    (Hfields : first_missing d = None)
    (Hquests : quest_docs_complete d) :
  exists p n',
    Player.from_dict d n = (Ok p, n')
    /\ PlayerDoc.name d = Some (Player.name p)
    /\ PlayerDoc.hp d = Some (Player.hp p)
    /\ PlayerDoc.max_hp d = Some (Player.max_hp p)
    /\ PlayerDoc.stamina d = Some (Player.stamina p)
    /\ PlayerDoc.max_stamina d = Some (Player.max_stamina p)
    /\ PlayerDoc.mana d = Some (Player.mana p)
    /\ PlayerDoc.max_mana d = Some (Player.max_mana p)
    /\ PlayerDoc.xp d = Some (Player.xp p)
    /\ PlayerDoc.level d = Some (Player.level p)
    /\ PlayerDoc.location d = Some (Player.location p)
    /\ option_map (filter known_item) (PlayerDoc.inventory d)
       = Some (map Item.name (Player.inventory p))
    /\ option_map (map create_spell_from_name) (PlayerDoc.spells d)
       = Some (Player.spells p)
    /\ stats_from_level p
    /\ Player.is_defending p = false
    /\ n' = (n + List.length (Player.inventory p))%nat.
Proof.
  destruct d as [name hp max_hp stamina max_stamina mana max_mana attack
                 defense xp level location inventory weapon armor quests
                 spells].
  unfold first_missing, required_fields, quest_docs_complete in *.
  cbn [PlayerDoc.name PlayerDoc.hp PlayerDoc.max_hp PlayerDoc.stamina
       PlayerDoc.max_stamina PlayerDoc.mana PlayerDoc.max_mana PlayerDoc.xp
       PlayerDoc.level PlayerDoc.location PlayerDoc.inventory PlayerDoc.weapon
       PlayerDoc.armor PlayerDoc.quests PlayerDoc.spells] in *.
  destruct name; [| discriminate]. destruct max_hp; [| discriminate].
  destruct max_stamina; [| discriminate]. destruct hp; [| discriminate].
  destruct stamina; [| discriminate]. destruct mana; [| discriminate].
  destruct max_mana; [| discriminate]. destruct xp; [| discriminate].
  destruct level; [| discriminate]. destruct location; [| discriminate].
  destruct inventory as [names |]; [| discriminate].
  destruct weapon as [w |]; [| discriminate].
  destruct armor as [a |]; [| discriminate].
  destruct spells as [spell_list |]; [| discriminate].
  destruct quests as [docs |]; [| discriminate].
  clear Hfields.
  unfold Player.from_dict, Player.field, lift_option.
  cbn [PlayerDoc.name PlayerDoc.hp PlayerDoc.max_hp PlayerDoc.stamina
       PlayerDoc.max_stamina PlayerDoc.mana PlayerDoc.max_mana PlayerDoc.xp
       PlayerDoc.level PlayerDoc.location PlayerDoc.inventory PlayerDoc.weapon
       PlayerDoc.armor PlayerDoc.quests PlayerDoc.spells].
  rewrite !bind_ret.
  destruct (map_M_create_items names n) as (os & Hos & Hnames).
  rewrite (bind_ok _ _ _ _ _ Hos), !bind_ret.
  match goal with
  | |- context [Player.reequip w ?b] => set (base := b)
  end.
  assert (Hbase : stats_from_level base).
  { subst base. unfold stats_from_level, weapon_bonus, armor_bonus.
    cbn -[Z.add Z.mul]. split; lia. }
  pose proof (reequip_keeps_stats a _ (reequip_keeps_stats w _ Hbase)) as Hst.
  pose proof (reequip_frame w base) as Hf1. cbv zeta in Hf1.
  pose proof (reequip_frame a (Player.reequip w base)) as Hf2. cbv zeta in Hf2.
  set (p2 := Player.reequip a (Player.reequip w base)) in *.
  match goal with
  | |- context [fold_left ?f docs (ret ?pl) ?k] =>
      destruct (load_complete_quests docs Hquests (ret pl) pl k eq_refl)
        as (q' & Hq)
  end.
  cbv beta in Hq. rewrite Hq.
  do 2 eexists. split; [reflexivity |].
  destruct Hf1 as (i1 & l1 & x1 & n1 & h1 & mh1 & s1 & ms1 & m1 & mm1 & lc1
                   & sp1 & q1 & d1).
  destruct Hf2 as (i2 & l2 & x2 & n2 & h2 & mh2 & s2 & ms2 & m2 & mm2 & lc2
                   & sp2 & q2 & d2).
  destruct p2 as [[nm' mh' h' ms' s' a' d' b'] x' l' inv' w' ar' lc' qq' mm' m' sp'].
  cbn in i2, l2, x2, n2, h2, mh2, s2, ms2, m2, mm2, lc2, sp2, q2, d2.
  rewrite i1 in i2. rewrite l1 in l2. rewrite x1 in x2. rewrite n1 in n2.
  rewrite h1 in h2. rewrite mh1 in mh2. rewrite s1 in s2. rewrite ms1 in ms2.
  rewrite m1 in m2. rewrite mm1 in mm2. rewrite lc1 in lc2.
  rewrite sp1 in sp2. rewrite d1 in d2.
  subst base. cbn in i2, l2, x2, n2, h2, mh2, s2, ms2, m2, mm2, lc2, sp2, d2.
  subst.
  unfold stats_from_level, weapon_bonus, armor_bonus in *.
  cbn -[Z.add Z.mul] in *.
  repeat apply conj; try reflexivity.
  - now rewrite Hnames.
  - exact (proj1 Hst).
  - exact (proj2 Hst).
Qed.

Lemma from_dict_complete_witness :
  first_missing frost_save = None
  /\ quest_docs_complete frost_save
  /\ exists p,
       fst (Player.from_dict frost_save 0%nat) = Ok p
       /\ map Item.name (Player.inventory p) = ["Health Potion"]
       /\ Player.spells p = [Some heal_spell; None].
Proof.
  assert (Hf : first_missing frost_save = None) by reflexivity.
  assert (Hq : quest_docs_complete frost_save) by constructor.
  split; [exact Hf |]. split; [exact Hq |].
  destruct (from_dict_complete frost_save 0%nat Hf Hq)
    as (p & n' & Hload & _ & _ & _ & _ & _ & _ & _ & _ & _ & _ & Hinv & Hsp & _).
  exists p. rewrite Hload. split; [reflexivity |].
  cbn in Hinv, Hsp. injection Hinv as Hinv. injection Hsp as Hsp.
  split; [now rewrite <- Hinv | now rewrite <- Hsp].
Defined.

(** ** Unknown spells *)

Lemma spell_names_unknown (ss : list (option Spell.t)) :
  In None ss -> Player.spell_names ss = Raise AttributeError.
Proof.
  induction ss as [| s ss IH]; [contradiction |].
  intros [-> | Hin]; [reflexivity |].
  destruct s as [s |]; [| reflexivity].
  cbn. now rewrite (IH Hin).
Qed.

Lemma spell_buttons_unknown (ss : list (option Spell.t)) (w : nat) :
  In None ss ->
  forall g,
    fst (for_each ss
           (fun o =>
              spell <- lift_option AttributeError o ;;
              Game.add_window_button w
                (Spell.name spell ++ " (" ++ Py.str (Spell.mana_cost spell)
                 ++ " MP)")
                (CmdCastSpell spell w)) g)
    = Raise AttributeError.
Proof.
  induction ss as [| s ss IH]; [contradiction |].
  intros Hin g. cbn [for_each]. destruct s as [s |].
  - destruct Hin as [Hs | Hin]; [discriminate |].
    unfold bind at 1. unfold bind at 1. cbn [lift_option ret].
    unfold Game.add_window_button at 1, modify at 1.
    apply IH, Hin.
  - reflexivity.
Qed.

(** X3: a player whose spell list holds [None] (a loaded spell name that
    is not in the catalogue) cannot be saved: [to_dict] raises
    [AttributeError]; [save_game] has opened the file for writing by
    then, so the previous save is lost, the player is unchanged, and a
    later [load_game] raises [ValueError] on the empty file.  The spell
    selection window raises [AttributeError] as well. *)
Theorem unknown_spell_breaks_save (g : Game.t) (p : Player.t)
    (Hplayer : Game.player g = Some p)
    (Hunknown : In None (Player.spells p)) :
  Player.to_dict p = Raise AttributeError
  /\ fst (Game.save_game g) = Raise AttributeError
  /\ Game.save_file (snd (Game.save_game g)) = Unreadable
  /\ Game.player (snd (Game.save_game g)) = Some p
  /\ fst (Game.load_game (snd (Game.save_game g))) = Raise ValueError
  /\ fst (Game.show_spell_selection g) = Raise AttributeError.
Proof.
  assert (Hdict : Player.to_dict p = Raise AttributeError).
  { unfold Player.to_dict. now rewrite (spell_names_unknown _ Hunknown). }
  split; [exact Hdict |].
  destruct g as [pl en ta bf sl tl mb de n src pos sf].
  cbn in Hplayer. subst pl.
  unfold Game.save_game, bind, get, modify, lift_result.
  cbn [Game.player]. rewrite Hdict. cbn.
  repeat apply conj; try reflexivity.
  unfold Game.show_spell_selection, Game.new_toplevel, Game.alloc, fresh,
    Game.the_player, bind, get, modify, lift_option.
  cbn -[for_each append Py.str].
  match goal with
  | |- context [for_each (Player.spells p) ?body ?s] =>
      assert (H : fst (for_each (Player.spells p) body s)
                  = Raise AttributeError)
        by exact (spell_buttons_unknown (Player.spells p) n Hunknown s);
      destruct (for_each (Player.spells p) body s) as [r s']
  end.
  cbn [fst] in H. subst r. reflexivity.
Qed.

Lemma unknown_spell_breaks_save_witness :
  Game.player frost_game = Some frost_hero
  /\ In None (Player.spells frost_hero)
  /\ fst (Game.save_game frost_game) = Raise AttributeError
  /\ Game.save_file frost_game = Document frost_save
  /\ Game.save_file (snd (Game.save_game frost_game)) = Unreadable.
Proof.
  assert (Hp : Game.player frost_game = Some frost_hero)
    by (vm_compute; reflexivity).
  assert (Hin : In None (Player.spells frost_hero))
    by (vm_compute; tauto).
  destruct (unknown_spell_breaks_save frost_game frost_hero Hp Hin)
    as (_ & Hsave & Hfile & _).
  repeat apply conj; try assumption. vm_compute. reflexivity.
Defined.

(** ** A program logic for the methods *)

Section Hoare.
Context {S : Type}.

Lemma hoare_ret {A} (a : A) (P : S -> Prop) (Q : A -> S -> Prop) E :
  (forall s, P s -> Q a s) -> hoare P (ret a) Q E.
Proof. intros H s Hs. cbn. auto. Qed.

Lemma hoare_raise {A} (e : exn) (P : S -> Prop) (Q : A -> S -> Prop)
    (E : S -> Prop) :
  (forall s, P s -> E s) -> hoare P (raise e) Q E.
Proof. intros H s Hs. cbn. auto. Qed.

Lemma hoare_bind {A B} (m : M S A) (k : A -> M S B) (P : S -> Prop)
    (Q : A -> S -> Prop) (R : B -> S -> Prop) (E : S -> Prop) :
  hoare P m Q E -> (forall a, hoare (Q a) (k a) R E) ->
  hoare P (bind m k) R E.
Proof.
  intros Hm Hk s Hs. specialize (Hm s Hs). unfold bind.
  destruct (m s) as [[a | e] s']; [apply (Hk a s' Hm) | exact Hm].
Qed.

Lemma hoare_conseq {A} (m : M S A) (P P' : S -> Prop)
    (Q Q' : A -> S -> Prop) (E E' : S -> Prop) :
  hoare P m Q E ->
  (forall s, P' s -> P s) -> (forall a s, Q a s -> Q' a s) ->
  (forall s, E s -> E' s) ->
  hoare P' m Q' E'.
Proof.
  intros Hm HP HQ HE s Hs. specialize (Hm s (HP s Hs)).
  destruct (m s) as [[a | e] s']; auto.
Qed.

Lemma hoare_lift_option {A} (e : exn) (o : option A) (P : S -> Prop)
    (Q : A -> S -> Prop) (E : S -> Prop) :
  (forall a s, o = Some a -> P s -> Q a s) -> (forall s, P s -> E s) ->
  hoare P (lift_option e o) Q E.
Proof.
  intros HQ HE. destruct o as [a |]; cbn.
  - apply hoare_ret. intros s Hs. now apply HQ.
  - now apply hoare_raise.
Qed.

Lemma hoare_lift_result {A} (r : result A) (P : S -> Prop)
    (Q : A -> S -> Prop) (E : S -> Prop) :
  (forall a s, r = Ok a -> P s -> Q a s) -> (forall s, P s -> E s) ->
  hoare P (lift_result r) Q E.
Proof.
  intros HQ HE. destruct r as [a | e]; cbn.
  - apply hoare_ret. intros s Hs. now apply HQ.
  - now apply hoare_raise.
Qed.

Lemma hoare_modify (f : S -> S) (P : S -> Prop) (Q : unit -> S -> Prop) E :
  (forall s, P s -> Q tt (f s)) -> hoare P (modify f) Q E.
Proof. intros H s Hs. cbn. auto. Qed.

Lemma hoare_get (P : S -> Prop) E :
  hoare P get (fun a s => a = s /\ P s) E.
Proof. intros s Hs. cbn. auto. Qed.

Lemma hoare_for_each {A} (xs : list A) (body : A -> M S unit)
    (I : S -> Prop) (E : S -> Prop) :
  (forall x, In x xs -> hoare I (body x) (fun _ => I) E) ->
  hoare I (for_each xs body) (fun _ => I) E.
Proof.
  induction xs as [| x xs IH]; intros H; cbn [for_each].
  - now apply hoare_ret.
  - eapply hoare_bind; [apply H; now left |].
    intros ?. apply IH. intros y Hy. apply H. now right.
Qed.
End Hoare.

(** *** Methods that leave the player alone *)

Lemma stable_ret {A} (a : A) : stable (ret a).
Proof. intros g. cbn. repeat apply conj; reflexivity || lia. Qed.

Lemma stable_raise {A} (e : exn) : stable (@raise Game.t A e).
Proof. intros g. cbn. repeat apply conj; reflexivity || lia. Qed.

Lemma stable_bind {A B} (m : M Game.t A) (k : A -> M Game.t B) :
  stable m -> (forall a, stable (k a)) -> stable (bind m k).
Proof.
  intros Hm Hk g. specialize (Hm g). unfold bind.
  destruct (m g) as [[a | e] g1]; cbn [fst snd] in *.
  - specialize (Hk a g1).
    destruct Hm as (H1 & H2 & H3), Hk as (H4 & H5 & H6).
    repeat apply conj; [congruence | lia | congruence].
  - exact Hm.
Qed.

Lemma stable_get : stable (@get Game.t).
Proof. intros g. cbn. repeat apply conj; reflexivity || lia. Qed.

Lemma stable_modify (f : Game.t -> Game.t) :
  (forall g, Game.player (f g) = Game.player g
             /\ (Game.next_id g <= Game.next_id (f g))%nat
             /\ Game.save_file (f g) = Game.save_file g) ->
  stable (modify f).
Proof. intros H g. cbn. apply H. Qed.

Lemma stable_lift_option {A} (e : exn) (o : option A) :
  stable (@lift_option Game.t A e o).
Proof. destruct o; [apply stable_ret | apply stable_raise]. Qed.

Lemma stable_lift_result {A} (r : result A) :
  stable (@lift_result Game.t A r).
Proof. destruct r; [apply stable_ret | apply stable_raise]. Qed.

Lemma stable_for_each {A} (xs : list A) (body : A -> M Game.t unit) :
  (forall x, stable (body x)) -> stable (for_each xs body).
Proof.
  intros H. induction xs as [| x xs IH]; cbn [for_each].
  - apply stable_ret.
  - apply stable_bind; [apply H | intros ?; exact IH].
Qed.

(** A setter of a widget attribute leaves the player, the allocator and
    the save file alone. *)
Ltac frame_setter :=
  let g := fresh "g" in
  intros g; destruct g; cbn; repeat apply conj; reflexivity || lia.

Lemma stable_log (message : string) : stable (Game.log message).
Proof. apply stable_modify. frame_setter. Qed.

Lemma stable_the_player : stable Game.the_player.
Proof.
  apply stable_bind; [apply stable_get | intros; apply stable_lift_option].
Qed.

Lemma stable_the_enemy : stable Game.the_enemy.
Proof.
  apply stable_bind; [apply stable_get | intros; apply stable_lift_option].
Qed.

Lemma stable_put_enemy (e : Enemy.t) : stable (Game.put_enemy e).
Proof. apply stable_modify. frame_setter. Qed.

Lemma stable_update_stats : stable Game.update_stats.
Proof.
  apply stable_bind; [apply stable_get | intros g].
  destruct (Game.player g); [| apply stable_ret].
  destruct (Game.destroyed g); [apply stable_raise |].
  apply stable_modify. frame_setter.
Qed.

Lemma stable_clear_buttons : stable Game.clear_buttons.
Proof. apply stable_modify. frame_setter. Qed.

Lemma stable_add_button (label : string) (c : Command) :
  stable (Game.add_button label c).
Proof. apply stable_modify. frame_setter. Qed.

Lemma stable_location_data : stable Game.location_data.
Proof.
  apply stable_bind; [apply stable_the_player | intros; apply stable_lift_option].
Qed.

Lemma stable_create_location_buttons : stable Game.create_location_buttons.
Proof.
  unfold Game.create_location_buttons.
  apply stable_bind; [apply stable_clear_buttons | intros ?].
  apply stable_bind; [apply stable_location_data | intros loc].
  apply stable_bind.
  { apply stable_for_each. intros [d dest]. apply stable_add_button. }
  intros ?.
  apply stable_bind.
  { destruct (Location.npc loc); [apply stable_add_button | apply stable_ret]. }
  intros ?.
  apply stable_bind.
  { destruct (Location.secret loc); [apply stable_add_button | apply stable_ret]. }
  intros ?.
  apply stable_bind; [apply stable_add_button | intros ?; apply stable_add_button].
Qed.

Lemma stable_create_combat_buttons : stable Game.create_combat_buttons.
Proof.
  unfold Game.create_combat_buttons.
  repeat (apply stable_bind;
          [apply stable_clear_buttons || apply stable_add_button | intros ?]).
  apply stable_add_button.
Qed.

Lemma stable_start_combat (name : string) : stable (Game.start_combat name).
Proof.
  unfold Game.start_combat.
  apply stable_bind; [apply stable_lift_option | intros d]. cbv zeta.
  apply stable_bind; [apply stable_put_enemy | intros ?].
  apply stable_bind; [apply stable_log | intros ?].
  apply stable_create_combat_buttons.
Qed.

Lemma stable_random_random : stable Game.random_random.
Proof. frame_setter. Qed.

Lemma stable_random_choice {A} (seq : list A) : stable (Game.random_choice seq).
Proof.
  destruct seq as [| x xs]; [apply stable_raise |].
  intros g. unfold Game.random_choice.
  destruct (nth_error _ _); destruct g; cbn;
    repeat apply conj; reflexivity || lia.
Qed.

Lemma stable_show_location : stable Game.show_location.
Proof.
  unfold Game.show_location.
  apply stable_bind; [apply stable_update_stats | intros ?].
  apply stable_bind; [apply stable_location_data | intros loc].
  apply stable_bind; [apply stable_log | intros ?].
  apply stable_bind; [apply stable_log | intros ?].
  apply stable_bind; [apply stable_create_location_buttons | intros ?].
  destruct (Location.enemies loc) as [roster |]; [| apply stable_ret].
  apply stable_bind; [apply stable_random_random | intros r].
  destruct (r <? float_0_6); [| apply stable_ret].
  apply stable_bind; [apply stable_random_choice | intros name].
  apply stable_start_combat.
Qed.

Lemma stable_game_over : stable Game.game_over.
Proof.
  unfold Game.game_over.
  apply stable_bind; [apply stable_log | intros ?].
  apply stable_bind; [apply stable_modify; frame_setter | intros ?].
  apply stable_modify. frame_setter.
Qed.

Lemma stable_new_toplevel (title : string) : stable (Game.new_toplevel title).
Proof.
  unfold Game.new_toplevel.
  apply stable_bind.
  { intros g. destruct g; cbn. repeat apply conj; reflexivity || lia. }
  intros w. apply stable_bind; [| intros ?; apply stable_ret].
  apply stable_modify. frame_setter.
Qed.

Lemma stable_add_window_button (w : nat) (label : string) (c : Command) :
  stable (Game.add_window_button w label c).
Proof. apply stable_modify. frame_setter. Qed.

Lemma stable_destroy_window (w : nat) : stable (Game.destroy_window w).
Proof. apply stable_modify. frame_setter. Qed.

Lemma stable_show_spell_selection : stable Game.show_spell_selection.
Proof.
  unfold Game.show_spell_selection.
  apply stable_bind; [apply stable_new_toplevel | intros w].
  apply stable_bind; [apply stable_the_player | intros p].
  apply stable_bind; [| intros ?; apply stable_ret].
  apply stable_for_each. intros o.
  apply stable_bind; [apply stable_lift_option | intros s].
  apply stable_add_window_button.
Qed.

Lemma stable_show_item_selection : stable Game.show_item_selection.
Proof.
  unfold Game.show_item_selection.
  apply stable_bind; [apply stable_the_player | intros p].
  destruct (Game.potions_of (Player.inventory p)) as [| x xs].
  - apply stable_bind; [apply stable_log | intros ?; apply stable_ret].
  - apply stable_bind; [apply stable_new_toplevel | intros w].
    apply stable_bind; [| intros ?; apply stable_ret].
    apply stable_for_each. intros o. apply stable_add_window_button.
Qed.

Lemma stable_open_inventory_screen : stable Game.open_inventory_screen.
Proof.
  unfold Game.open_inventory_screen.
  apply stable_bind; [apply stable_new_toplevel | intros w].
  apply stable_bind; [apply stable_the_player | intros p]. cbv zeta.
  apply stable_bind; [| intros ?; apply stable_ret].
  apply stable_modify. frame_setter.
Qed.

Lemma stable_show_start_menu : stable Game.show_start_menu.
Proof.
  unfold Game.show_start_menu.
  apply stable_bind; [apply stable_clear_buttons | intros ?].
  apply stable_bind; [apply stable_log | intros ?].
  apply stable_bind; [apply stable_add_button | intros ?].
  apply stable_bind; [apply stable_get | intros g].
  destruct (Game.save_file g); apply stable_ret || apply stable_add_button.
Qed.

(** ** The equipment invariant *)

Lemma sound_player_mono (n n' : nat) (p : Player.t) :
  (n <= n')%nat -> sound_player n p -> sound_player n' p.
Proof.
  intros Hn [H1 H2 H3 H4 H5 H6 H7]. constructor; auto.
  - intros x Hx. specialize (H2 x Hx). lia.
  - intros w Hw. specialize (H3 w Hw). lia.
  - intros a Ha. specialize (H4 a Ha). lia.
Qed.

Lemma sound_player_frame (n : nat) (p p' : Player.t) :
  Player.attack p' = Player.attack p ->
  Player.defense p' = Player.defense p ->
  Player.level p' = Player.level p ->
  Player.inventory p' = Player.inventory p ->
  Player.weapon p' = Player.weapon p ->
  Player.armor p' = Player.armor p ->
  sound_player n p -> sound_player n p'.
Proof.
  intros Ha Hd Hl Hi Hw Har [H1 H2 H3 H4 H5 H6 H7].
  constructor; unfold stats_from_level, weapon_bonus, armor_bonus in *;
    rewrite ?Ha, ?Hd, ?Hl, ?Hi, ?Hw, ?Har; assumption.
Qed.

(** An update of the player that touches neither the level nor the
    equipment nor the inventory keeps it sound. *)
Ltac same_equipment :=
  let n := fresh "n" in
  let H := fresh "H" in
  intros n _ H; revert H; apply sound_player_frame;
  match goal with
  | |- context [?q] =>
      is_var q; destruct q as [[? ? ? ? ? ? ? ?] ? ? ? ? ? ? ? ? ? ?]
  end; reflexivity.

Lemma sound_player_init (n : nat) :
  sound_player n (Player.init "Hero" 100 50 15 5).
Proof.
  constructor; cbn; try (intros; contradiction || discriminate).
  unfold stats_from_level. cbn. split; reflexivity.
Qed.

Lemma sound_player_add_item (n : nat) (item : Item.t) (p : Player.t) :
  sound_player (Item.id item) p -> (Item.id item < n)%nat ->
  sound_player n (Player.add_item item p).
Proof.
  intros [H1 H2 H3 H4 H5 H6 H7] Hn.
  assert (Hin : forall x, In x (Player.inventory (Player.add_item item p)) ->
                          In x (Player.inventory p) \/ x = item).
  { intros x Hx. destruct p as [e x0 l inv w ar lc q mm m sp]. cbn in *.
    apply in_app_or in Hx. destruct Hx as [Hx | [Hx | []]]; auto. }
  assert (Hw : Player.weapon (Player.add_item item p) = Player.weapon p)
    by (destruct p; reflexivity).
  assert (Har : Player.armor (Player.add_item item p) = Player.armor p)
    by (destruct p; reflexivity).
  constructor.
  - unfold stats_from_level, weapon_bonus, armor_bonus in *.
    rewrite Hw, Har. destruct p as [[? ? ? ? ? ? ? ?] ? ? ? ? ? ? ? ? ? ?].
    exact H1.
  - intros x Hx. destruct (Hin x Hx) as [Hx' | ->]; [| exact Hn].
    specialize (H2 x Hx'). lia.
  - rewrite Hw. intros w Hw'. specialize (H3 w Hw'). lia.
  - rewrite Har. intros a Ha'. specialize (H4 a Ha'). lia.
  - intros x y Hx Hy Heq.
    destruct (Hin x Hx) as [Hx' | ->], (Hin y Hy) as [Hy' | ->]; auto.
    + specialize (H2 x Hx'). lia.
    + specialize (H2 y Hy'). lia.
  - rewrite Hw. intros x w Hx Hw' Heq.
    destruct (Hin x Hx) as [Hx' | ->]; [now apply H6 |].
    specialize (H3 w Hw'). lia.
  - rewrite Har. intros x a Hx Ha' Heq.
    destruct (Hin x Hx) as [Hx' | ->]; [now apply H7 |].
    specialize (H4 a Ha'). lia.
Qed.

Lemma sound_player_equip_item (n : nat) (item : Item.t) (p : Player.t) :
  sound_player n p -> (Item.id item < n)%nat ->
  (forall x, In x (Player.inventory p) -> Item.id x = Item.id item ->
             x = item) ->
  sound_player n (Player.equip_item item p).
Proof.
  intros Hp Hn Hsame.
  pose proof (equip_item_keeps_stats item p (sp_stats _ _ Hp)) as Hstats.
  destruct Hp as [H1 H2 H3 H4 H5 H6 H7].
  destruct item as [i | po | we | arm]; try (constructor; assumption).
  - assert (Hi : Player.inventory (Player.equip_item (Item.IsWeapon we) p)
                 = Player.inventory p)
      by (destruct p as [[? ? ? ? ? ? ? ?] ? ? ? w ? ? ? ? ? ?];
          destruct w; reflexivity).
    assert (Hw : Player.weapon (Player.equip_item (Item.IsWeapon we) p)
                 = Some we)
      by (destruct p as [[? ? ? ? ? ? ? ?] ? ? ? w ? ? ? ? ? ?];
          destruct w; reflexivity).
    assert (Har : Player.armor (Player.equip_item (Item.IsWeapon we) p)
                  = Player.armor p)
      by (destruct p as [[? ? ? ? ? ? ? ?] ? ? ? w ? ? ? ? ? ?];
          destruct w; reflexivity).
    constructor; rewrite ?Hi, ?Hw, ?Har; auto.
    + intros w' Hw'. injection Hw' as <-. exact Hn.
    + intros x w' Hx Hw' Heq. injection Hw' as <-. now apply Hsame.
  - assert (Hi : Player.inventory (Player.equip_item (Item.IsArmor arm) p)
                 = Player.inventory p)
      by (destruct p as [[? ? ? ? ? ? ? ?] ? ? ? ? ar ? ? ? ? ?];
          destruct ar; reflexivity).
    assert (Hw : Player.weapon (Player.equip_item (Item.IsArmor arm) p)
                 = Player.weapon p)
      by (destruct p as [[? ? ? ? ? ? ? ?] ? ? ? ? ar ? ? ? ? ?];
          destruct ar; reflexivity).
    assert (Har : Player.armor (Player.equip_item (Item.IsArmor arm) p)
                  = Some arm)
      by (destruct p as [[? ? ? ? ? ? ? ?] ? ? ? ? ar ? ? ? ? ?];
          destruct ar; reflexivity).
    constructor; rewrite ?Hi, ?Hw, ?Har; auto.
    + intros a' Ha'. injection Ha' as <-. exact Hn.
    + intros x a' Hx Ha' Heq. injection Ha' as <-. now apply Hsame.
Qed.

Lemma list_remove_In (item : Item.t) (xs ys : list Item.t) :
  Player.list_remove item xs = Some ys -> forall x, In x ys -> In x xs.
Proof.
  revert ys. induction xs as [| y xs IH]; intros ys H x Hx; cbn in H.
  - discriminate.
  - destruct (Item.same y item).
    + injection H as <-. now right.
    + destruct (Player.list_remove item xs) as [zs |]; [| discriminate].
      injection H as <-. destruct Hx as [-> | Hx]; [now left |].
      right. now apply (IH zs).
Qed.

Lemma sound_player_remove_item (n : nat) (item : Item.t) (p p' : Player.t) :
  Player.remove_item item p = Ok p' -> sound_player n p -> sound_player n p'.
Proof.
  unfold Player.remove_item.
  destruct (Player.list_remove item (Player.inventory p)) as [ys |] eqn:Hr;
    [| discriminate].
  intros H; injection H as <-. intros [H1 H2 H3 H4 H5 H6 H7].
  pose proof (list_remove_In _ _ _ Hr) as Hin.
  destruct p as [[nm mh h ms s a d b] x0 l inv w ar lc q mm m sp].
  cbn in *. constructor; cbn; auto.
Qed.

(** The fields of [sound_player] after a concrete update. *)
Ltac sound_fields :=
  constructor; cbn -[Z.add Z.mul Z.sub]; auto;
  try (intros; discriminate);
  try (unfold stats_from_level, weapon_bonus, armor_bonus;
       cbn -[Z.add Z.mul Z.sub]; split; (assumption || lia)).

Lemma sound_player_unequip (n : nat) (item : Item.t) (p : Player.t) :
  In item (Player.inventory p) ->
  sound_player n p -> sound_player n (Game.unequip_if_equipped item p).
Proof.
  intros Hin [[Ha Hd] H2 H3 H4 H5 H6 H7].
  destruct p as [[nm mh h ms s a d b] x0 l inv w ar lc q mm m sp].
  unfold Game.unequip_if_equipped, weapon_bonus, armor_bonus in *.
  cbn -[Z.add Z.mul Z.sub] in *.
  destruct item as [i | po | dropped | dropped].
  - destruct w, ar; sound_fields.
  - destruct w, ar; sound_fields.
  - destruct w as [w |].
    + destruct (Nat.eqb (Weapon.id w) (Weapon.id dropped)) eqn:He.
      * apply Nat.eqb_eq in He.
        assert (Hsame : Item.IsWeapon dropped = Item.IsWeapon w)
          by (apply (H6 _ w Hin eq_refl); cbn; congruence).
        injection Hsame as ->.
        destruct ar; sound_fields.
      * destruct ar; sound_fields.
    + destruct ar; sound_fields.
  - destruct w as [w |]; cbn -[Z.add Z.mul Z.sub];
      (destruct ar as [ar |]; [| sound_fields]);
      (destruct (Nat.eqb (Armor.id ar) (Armor.id dropped)) eqn:He;
       [| sound_fields]);
      apply Nat.eqb_eq in He;
      (assert (Hsame : Item.IsArmor dropped = Item.IsArmor ar)
         by (apply (H7 _ ar Hin eq_refl); cbn; congruence));
      injection Hsame as ->; sound_fields.
Qed.

Lemma gain_xp_equipment (amount : Z) (p : Player.t) :
  let p' := fst (Player.gain_xp amount p) in
  let up := if Player.level p * 100 <=? Player.xp p + amount then 1 else 0 in
  Player.level p' = Player.level p + up
  /\ Player.attack p' = Player.attack p + 5 * up
  /\ Player.defense p' = Player.defense p + 2 * up
  /\ Player.inventory p' = Player.inventory p
  /\ Player.weapon p' = Player.weapon p
  /\ Player.armor p' = Player.armor p.
Proof.
  destruct p as [[n mh h ms s a d b] x l inv w ar loc q mm m sp].
  unfold Player.gain_xp, Player.level_up.
  cbn -[Py.str Z.add Z.mul Z.leb Z.to_nat].
  destruct (l * 100 <=? x + amount); cbn -[Py.str Z.add Z.mul Z.to_nat];
    repeat split; try reflexivity; lia.
Qed.

Lemma sound_player_gain_xp (n : nat) (amount : Z) (p : Player.t) :
  sound_player n p -> sound_player n (fst (Player.gain_xp amount p)).
Proof.
  intros [[Ha Hd] H2 H3 H4 H5 H6 H7].
  destruct (gain_xp_equipment amount p) as (El & Ea & Ed & Ei & Ew & Er).
  constructor; unfold stats_from_level, weapon_bonus, armor_bonus in *;
    rewrite ?Ei, ?Ew, ?Er; auto.
  rewrite El, Ea, Ed. split; lia.
Qed.

Lemma sound_player_take_damage (n : nat) (damage : Z) (p : Player.t) :
  sound_player n p -> sound_player n (snd (Player.take_damage damage p)).
Proof.
  apply sound_player_frame;
    destruct p as [[nm mh h ms s a d b] x0 l inv w ar lc q mm m sp];
    unfold Player.take_damage, Entity.take_damage;
    destruct b; cbn -[Z.div Z.max Z.sub Z.ltb];
    try match goal with
        | |- context [if ?c then _ else _] => destruct c
        end; reflexivity.
Qed.

(** *** Rules for the steps of a method *)

Lemma holds_sound (n : nat) (op : option Player.t) (g : Game.t) :
  holds n op g -> sound g.
Proof. now intros [H _]. Qed.

Lemma hoare_pure {S A} (F : Prop) (P : S -> Prop) (m : M S A)
    (Q : A -> S -> Prop) (E : S -> Prop) :
  (F -> hoare P m Q E) -> hoare (fun s => F /\ P s) m Q E.
Proof. intros H s [HF Hs]. now apply H. Qed.

Lemma hoare_from_sound {A} (m : M Game.t A) (Q : A -> Game.t -> Prop)
    (E : Game.t -> Prop) :
  (forall op, hoare (holds 0 op) m Q E) -> hoare sound m Q E.
Proof.
  intros H s Hs. apply (H (Game.player s)). repeat split; [exact Hs | lia].
Qed.

Lemma hoare_to_sound {A} (m : M Game.t A) (P : Game.t -> Prop) :
  hoare P m (fun _ => sound) sound ->
  forall n op, (forall s, holds n op s -> P s) ->
  hoare (holds n op) m (fun _ => sound) sound.
Proof. intros H n op HP s Hs. apply H. auto. Qed.

Lemma stable_holds {A} (m : M Game.t A) (n : nat) (op : option Player.t) :
  stable m -> hoare (holds n op) m (fun _ => holds n op) sound.
Proof.
  intros Hm s (Hs & Hp & Hn). destruct (Hm s) as [H1 H2].
  assert (H : holds n op (snd (m s))).
  { repeat split; [| congruence | lia].
    unfold sound in *. rewrite H1. destruct (Game.player s); [| exact I].
    now apply (sound_player_mono (Game.next_id s)). }
  destruct (m s) as [[a | e] s']; [exact H | exact (holds_sound _ _ _ H)].
Qed.

Lemma stable_preserves {A} (m : M Game.t A) : stable m -> preserves m.
Proof.
  intros Hm. apply hoare_from_sound. intros op.
  eapply hoare_conseq; [apply (stable_holds m 0 op Hm) | auto ..].
  intros a s. apply holds_sound.
Qed.

Lemma preserves_holds {A} (m : M Game.t A) (n : nat) (op : option Player.t) :
  preserves m -> hoare (holds n op) m (fun _ => sound) sound.
Proof.
  intros H. eapply hoare_conseq; [exact H | | auto ..].
  intros s. apply holds_sound.
Qed.

Lemma the_player_holds (n : nat) (op : option Player.t) :
  hoare (holds n op) Game.the_player
        (fun p s => op = Some p /\ holds n op s) sound.
Proof.
  intros s (Hs & Hp & Hn). unfold Game.the_player, bind, get. cbn.
  destruct (Game.player s) as [p |] eqn:Hpl; cbn.
  - subst op. repeat apply conj; auto.
  - exact Hs.
Qed.

Lemma put_player_holds (n : nat) (p p' : Player.t) :
  (forall m, (n <= m)%nat -> sound_player m p -> sound_player m p') ->
  hoare (holds n (Some p)) (Game.put_player p')
        (fun _ => holds n (Some p')) sound.
Proof.
  intros H s (Hs & Hp & Hn). unfold sound in Hs. rewrite Hp in Hs.
  unfold holds, sound. destruct s; cbn in *.
  repeat apply conj; [apply H; assumption | reflexivity | assumption].
Qed.

Lemma put_player_sound (n : nat) (p p' : Player.t) :
  (forall m, (n <= m)%nat -> sound_player m p -> sound_player m p') ->
  hoare (holds n (Some p)) (Game.put_player p') (fun _ => sound) sound.
Proof.
  intros H. eapply hoare_conseq; [apply (put_player_holds n p p' H) | auto ..].
  intros a s. apply holds_sound.
Qed.

Lemma alloc_create_holds (n : nat) (op : option Player.t) (name : string) :
  hoare (holds n op) (Game.alloc (create_item_from_name name))
        (fun o s =>
           match o with
           | Some item =>
               (forall p, op = Some p -> sound_player (Item.id item) p)
               /\ holds (S (Item.id item)) op s
           | None => holds n op s
           end) sound.
Proof.
  intros s (Hs & Hp & Hn). unfold Game.alloc.
  destruct (create_item_cases name (Game.next_id s))
    as [(_ & item & Hc & _ & Hid) | (_ & Hc)]; rewrite Hc.
  - split.
    + intros p ->. unfold sound in Hs. rewrite Hp in Hs. now rewrite Hid.
    + rewrite Hid. unfold holds, sound in *.
      destruct s as [pl ce ta bf sl tl mb de ni rs rp sf]; cbn in *.
      repeat apply conj; [| assumption | lia].
      destruct pl; [| exact I].
      apply (sound_player_mono ni); [lia | exact Hs].
  - unfold holds, sound in *.
    destruct s as [pl ce ta bf sl tl mb de ni rs rp sf]; cbn in *.
    repeat apply conj; assumption.
Qed.

Lemma create_known_item_holds (n : nat) (op : option Player.t)
    (name : string) :
  hoare (holds n op) (Game.create_known_item name)
        (fun item s =>
           (forall p, op = Some p -> sound_player (Item.id item) p)
           /\ holds (S (Item.id item)) op s) sound.
Proof.
  unfold Game.create_known_item.
  eapply hoare_bind; [apply alloc_create_holds | intros o].
  destruct o as [item |]; cbn.
  - apply hoare_ret. auto.
  - apply hoare_raise. intros s. apply holds_sound.
Qed.

(** Steps that leave the player alone are discharged from the hint
    database; [quiet] passes one under [sound], [quiet_at] under
    [holds], [read_player] reads [self.player], [keep] passes a step
    that preserves soundness, [put_same] a write that keeps the
    equipment. *)
Create HintDb stable.
#[local] Hint Resolve stable_ret stable_raise stable_bind stable_get
  stable_lift_option stable_lift_result stable_for_each stable_log
  stable_the_player stable_the_enemy stable_put_enemy stable_update_stats
  stable_clear_buttons stable_add_button stable_location_data
  stable_create_location_buttons stable_create_combat_buttons
  stable_start_combat stable_random_random stable_random_choice
  stable_show_location stable_game_over stable_new_toplevel
  stable_add_window_button stable_destroy_window
  stable_show_spell_selection stable_show_item_selection
  stable_open_inventory_screen stable_show_start_menu : stable.

Ltac quiet :=
  eapply hoare_bind;
  [apply stable_preserves; solve [auto with stable] | intros ?].
Ltac quiet_at :=
  eapply hoare_bind;
  [apply stable_holds; solve [auto with stable] | intros ?].
Ltac read_player p Hop :=
  eapply hoare_bind; [apply the_player_holds | intros p];
  apply hoare_pure; intros Hop; rewrite Hop.
Ltac keep lemma := eapply hoare_bind; [apply lemma | intros ?].
Ltac done_at := apply hoare_ret; intros ?; apply holds_sound.
Ltac put_same :=
  eapply hoare_bind; [apply put_player_sound; same_equipment | intros ?].

(** *** The methods *)

Lemma preserves_complete_quest (quest : Quest.t) :
  preserves (Game.complete_quest quest).
Proof.
  unfold Game.complete_quest, preserves.
  quiet. quiet.
  destruct (String.eqb (Quest.name quest) "Slay the Dragon").
  - apply hoare_from_sound. intros op. read_player p Hop.
    eapply hoare_bind; [apply create_known_item_holds | intros item].
    apply hoare_pure. intros Hitem. apply put_player_sound.
    intros m Hm _. apply sound_player_add_item; [now apply Hitem | lia].
  - destruct (String.eqb (Quest.name quest) "The Stolen Spellbook").
    + apply hoare_from_sound. intros op. read_player p Hop.
      apply put_player_sound. same_equipment.
    + now apply hoare_ret.
Qed.

Lemma stable_stage_get (stage : Quest.stage) (key : string) :
  stable (Game.stage_get stage key).
Proof. apply stable_lift_option. Qed.

#[local] Hint Resolve stable_stage_get : stable.

Lemma preserves_check_one_quest (d : option string) (i : nat) :
  preserves (Game.check_one_quest d i).
Proof.
  unfold Game.check_one_quest, preserves.
  apply hoare_from_sound. intros op. read_player p Hop.
  quiet_at. cbv zeta.
  destruct (Quest.completed (snd a)).
  { apply hoare_ret. intros s. apply holds_sound. }
  quiet_at. quiet_at.
  eapply hoare_bind.
  { apply stable_holds. destruct (String.eqb a1 "kill_enemy").
    - apply stable_bind; [apply stable_stage_get | intros; apply stable_ret].
    - apply stable_ret. }
  intros kill.
  eapply hoare_bind.
  { apply stable_holds. destruct kill; [apply stable_ret |].
    apply stable_bind; [apply stable_stage_get | intros ty].
    destruct (String.eqb ty "find_item"); [| apply stable_ret].
    destruct (Player.inventory p); [apply stable_ret |].
    apply stable_bind; [apply stable_stage_get | intros; apply stable_ret]. }
  intros progress. destruct progress.
  - quiet_at.
    destruct (Quest.advance_stage (snd a)) as [finished quest].
    eapply hoare_bind.
    { apply put_player_sound. same_equipment. }
    intros ?. destruct finished.
    + apply preserves_complete_quest.
    + now apply hoare_ret.
  - apply hoare_ret. intros s. apply holds_sound.
Qed.

Lemma preserves_check_quest_progress (d : option string) :
  preserves (Game.check_quest_progress d).
Proof.
  unfold Game.check_quest_progress, preserves.
  quiet.
  apply hoare_for_each. intros i _. apply preserves_check_one_quest.
Qed.

Lemma preserves_enemy_turn : preserves Game.enemy_turn.
Proof.
  unfold Game.enemy_turn, preserves.
  apply hoare_from_sound. intros op. read_player p Hop.
  quiet_at.
  pose proof (fun m => sound_player_take_damage m
                         (Entity.attack (Enemy.ent a)) p) as Hd.
  destruct (Player.take_damage (Entity.attack (Enemy.ent a)) p)
    as [damage_done p'].
  eapply hoare_bind.
  { apply put_player_sound. intros m _. apply Hd. }
  intros ?. quiet.
  destruct (Player.is_alive p');
    [now apply hoare_ret | apply stable_preserves, stable_game_over].
Qed.

Lemma preserves_win_combat : preserves Game.win_combat.
Proof.
  unfold Game.win_combat, preserves.
  quiet. quiet.
  apply hoare_from_sound. intros op. read_player p Hop.
  pose proof (fun m => sound_player_gain_xp m (Enemy.xp_reward a) p) as Hx.
  destruct (Player.gain_xp (Enemy.xp_reward a) p) as [p' lines].
  eapply hoare_bind.
  { apply put_player_sound. intros m _. apply Hx. }
  intros ?. quiet.
  eapply hoare_bind; [apply preserves_check_quest_progress | intros ?].
  eapply hoare_bind.
  { apply stable_preserves, stable_modify. frame_setter. }
  intros ?. apply stable_preserves, stable_show_location.
Qed.

(** *** Loading *)

Lemma map_M_create_ids (names : list string) :
  forall n, exists os n',
    map_M create_item_from_name names n = (Ok os, n')
    /\ (n <= n')%nat
    /\ (forall x, In x (Player.drop_none os) -> (n <= Item.id x < n')%nat)
    /\ (forall x y, In x (Player.drop_none os) -> In y (Player.drop_none os)
                    -> Item.id x = Item.id y -> x = y).
Proof.
  induction names as [| name names IH]; intros n.
  - exists [], n. cbn.
    repeat apply conj; [reflexivity | lia | intros x [] | intros x y []].
  - cbn [map_M].
    destruct (create_item_cases name n)
      as [(_ & item & Hc & _ & Hid) | (_ & Hc)].
    + destruct (IH (S n)) as (os & n' & Hos & Hle & Hids & Hdist).
      exists (Some item :: os), n'.
      rewrite (bind_ok _ _ _ _ _ Hc), (bind_ok _ _ _ _ _ Hos).
      cbn [Player.drop_none]. repeat apply conj.
      * reflexivity.
      * lia.
      * intros x [<- | Hx]; [lia | specialize (Hids x Hx); lia].
      * intros x y [<- | Hx] [<- | Hy] Heq; auto.
        -- specialize (Hids y Hy). lia.
        -- specialize (Hids x Hx). lia.
    + destruct (IH n) as (os & n' & Hos & Hle & Hids & Hdist).
      exists (None :: os), n'.
      rewrite (bind_ok _ _ _ _ _ Hc), (bind_ok _ _ _ _ _ Hos).
      cbn [Player.drop_none]. repeat apply conj; auto.
Qed.

Lemma sound_player_reequip (n : nat) (stored : option string)
    (p : Player.t) :
  sound_player n p -> sound_player n (Player.reequip stored p).
Proof.
  intros Hp. unfold Player.reequip.
  destruct (Player.truthy stored); [| exact Hp].
  unfold Py.next_or_none.
  destruct (find _ (Player.inventory p)) as [item |] eqn:Hf; [| exact Hp].
  apply find_some in Hf. destruct Hf as [Hin _].
  apply sound_player_equip_item; [exact Hp | now apply (sp_ids _ _ Hp) |].
  intros x Hx Heq. now apply (sp_distinct _ _ Hp).
Qed.

Lemma hoare_known {S A B} (m : M S A) (k : A -> M S B) (s0 s1 : S) (a : A)
    (R : B -> S -> Prop) (E : S -> Prop) :
  m s0 = (Ok a, s1) -> hoare (eq s1) (k a) R E ->
  hoare (eq s0) (bind m k) R E.
Proof.
  intros Hm Hk s <-. rewrite (bind_ok _ _ _ _ _ Hm). now apply Hk.
Qed.

Lemma load_quests_sound (docs : list (string * QuestDoc.t)) (n : nat) :
  forall acc : M nat Player.t,
    hoare (eq n) acc (fun p s => s = n /\ sound_player n p) (eq n) ->
    hoare (eq n)
      (List.fold_left
         (fun (acc : M nat Player.t) (kv : string * QuestDoc.t) =>
            player <- acc ;;
            quest <- lift_result (Quest.from_dict (snd kv)) ;;
            ret (Player.set_quests
                   (Py.set (Player.quests player) (fst kv) quest) player))
         docs acc)
      (fun p s => s = n /\ sound_player n p) (eq n).
Proof.
  induction docs as [| kv docs IH]; intros acc Hacc; cbn [fold_left].
  - exact Hacc.
  - apply IH. eapply hoare_bind; [exact Hacc | intros player].
    eapply hoare_bind with (Q := fun _ s => s = n /\ sound_player n player).
    + apply hoare_lift_result; [auto | now intros s [-> _]].
    + intros quest. apply hoare_ret. intros s [-> Hp]. split; [reflexivity |].
      revert Hp. apply sound_player_frame;
        destruct player as [[? ? ? ? ? ? ? ?] ? ? ? ? ? ? ? ? ? ?];
        reflexivity.
Qed.

(** A [data[key]] of [from_dict]: the allocator is not touched. *)
Ltac read_field n :=
  eapply hoare_bind with (Q := fun _ => eq n);
  [ apply hoare_lift_option;
    [ intros ? ? _ HP; exact HP | intros ? HP; subst; lia ]
  | intros ? ].

Lemma from_dict_sound (d : PlayerDoc.t) (n : nat) :
  hoare (eq n) (Player.from_dict d)
        (fun p n' => (n <= n')%nat /\ sound_player n' p)
        (fun n' => (n <= n')%nat).
Proof.
  unfold Player.from_dict, Player.field.
  do 10 (read_field n; cbv zeta).
  read_field n.
  match goal with
  | |- hoare _ (bind (map_M _ ?names) _) _ _ =>
      destruct (map_M_create_ids names n)
        as (os & n' & Hos & Hle & Hids & Hdist)
  end.
  apply (hoare_known _ _ _ _ _ _ _ Hos). cbv zeta.
  read_field n'. read_field n'. read_field n'. read_field n'.
  eapply hoare_conseq.
  - apply load_quests_sound. apply hoare_ret. intros s <-.
    split; [reflexivity |].
    match goal with
    | |- sound_player _ (Player.set_spells _ ?q) =>
        apply (sound_player_frame n' q);
        [ destruct q as [[? ? ? ? ? ? ? ?] ? ? ? ? ? ? ? ? ? ?];
          reflexivity .. |]
    end.
    apply sound_player_reequip, sound_player_reequip.
    constructor; cbn -[Z.add Z.mul]; try (intros; discriminate).
    + unfold stats_from_level, weapon_bonus, armor_bonus.
      cbn -[Z.add Z.mul]. split; lia.
    + intros x Hx. apply (Hids x Hx).
    + exact Hdist.
  - auto.
  - cbv beta. intros p s [-> Hp]. split; [lia | exact Hp].
  - cbv beta. intros s <-. lia.
Qed.

Lemma preserves_ret {A} (a : A) : preserves (@ret Game.t A a).
Proof. now apply hoare_ret. Qed.

Lemma preserves_player_attack : preserves Game.player_attack.
Proof.
  unfold Game.player_attack, preserves.
  quiet. quiet.
  destruct (Entity.take_damage (Player.attack a0) (Enemy.ent a))
    as [damage_done ent]. cbv zeta.
  quiet. quiet.
  destruct (Entity.is_alive _);
    [apply preserves_ret | apply preserves_win_combat].
Qed.

Lemma preserves_player_defend : preserves Game.player_defend.
Proof.
  unfold Game.player_defend, preserves.
  apply hoare_from_sound. intros op. read_player p Hop.
  put_same. apply stable_preserves, stable_log.
Qed.

Lemma preserves_turn_end :
  preserves (g <- get ;;
             (if Game.enemy_alive g then Game.enemy_turn else ret tt) ;;
             Game.update_stats).
Proof.
  unfold preserves. quiet.
  eapply hoare_bind.
  { destruct (Game.enemy_alive a);
      [apply preserves_enemy_turn | apply preserves_ret]. }
  intros ?. apply stable_preserves, stable_update_stats.
Qed.

Lemma preserves_cast_spell (spell : Spell.t) (window : nat) :
  preserves (Game.cast_spell spell window).
Proof.
  unfold Game.cast_spell, preserves.
  quiet. apply hoare_from_sound. intros op. read_player p Hop.
  destruct (Spell.mana_cost spell <=? Player.mana p);
    [| apply preserves_holds, stable_preserves, stable_log].
  cbv zeta.
  eapply hoare_bind; [apply put_player_holds; same_equipment | intros ?].
  eapply hoare_bind with (Q := fun _ => sound);
    [| intros ?; apply preserves_turn_end].
  destruct (0 <? Spell.damage spell).
  - quiet_at.
    destruct (Entity.take_damage (Spell.damage spell) (Enemy.ent a1))
      as [damage_done ent]. cbv zeta.
    quiet_at. quiet_at.
    destruct (Entity.is_alive _);
      [done_at | apply preserves_holds, preserves_win_combat].
  - put_same. apply stable_preserves, stable_log.
Qed.

Lemma preserves_drink (potion : Potion.t) : preserves (Game.drink potion).
Proof.
  unfold Game.drink, preserves.
  apply hoare_from_sound. intros op. read_player p Hop.
  destruct (String.eqb (Potion.effect potion) "heal").
  { put_same. apply stable_preserves, stable_log. }
  destruct (String.eqb (Potion.effect potion) "stamina").
  { put_same. apply stable_preserves, stable_log. }
  done_at.
Qed.

Lemma preserves_remove_item (item : Item.t) :
  preserves (Game.remove_item item).
Proof.
  unfold Game.remove_item, preserves.
  apply hoare_from_sound. intros op. read_player p Hop.
  eapply hoare_bind
    with (Q := fun p' s => Player.remove_item item p = Ok p'
                           /\ holds 0 (Some p) s).
  - apply hoare_lift_result; [auto | intros s; apply holds_sound].
  - intros p'. apply hoare_pure. intros Hr. apply put_player_sound.
    intros m _. now apply sound_player_remove_item with (item := item).
Qed.

Lemma preserves_use_potion (potion : Potion.t) (window : nat) :
  preserves (Game.use_potion potion window).
Proof.
  unfold Game.use_potion, preserves.
  quiet. keep preserves_drink. keep preserves_remove_item.
  apply preserves_turn_end.
Qed.

Lemma preserves_flee : preserves Game.flee.
Proof.
  unfold Game.flee, preserves.
  quiet. destruct (a <? float_0_5).
  - quiet.
    eapply hoare_bind.
    { apply stable_preserves, stable_modify. frame_setter. }
    intros ?. apply stable_preserves, stable_show_location.
  - quiet. apply preserves_enemy_turn.
Qed.

Lemma preserves_perform_action (action : string) :
  preserves (Game.perform_action action).
Proof.
  unfold Game.perform_action, preserves.
  quiet. destruct (negb (Game.enemy_alive a)); [apply preserves_ret |].
  eapply hoare_bind with (Q := fun _ => sound).
  { destruct (String.eqb action "Attack").
    { keep preserves_player_attack. apply preserves_ret. }
    destruct (String.eqb action "Defend").
    { keep preserves_player_defend. apply preserves_ret. }
    destruct (String.eqb action "Magic").
    { apply stable_preserves, stable_show_spell_selection. }
    destruct (String.eqb action "Use Item").
    { apply stable_preserves, stable_show_item_selection. }
    destruct (String.eqb action "Flee").
    { keep preserves_flee. apply preserves_ret. }
    apply preserves_ret. }
  intros ended. quiet.
  eapply hoare_bind.
  { destruct (ended && Game.enemy_alive a0);
      [apply preserves_enemy_turn | apply preserves_ret]. }
  intros ?. apply stable_preserves, stable_update_stats.
Qed.

Lemma equip_created (n : nat) (op : option Player.t) (o : option Item.t) :
  hoare (fun s =>
           match o with
           | Some item =>
               (forall p, op = Some p -> sound_player (Item.id item) p)
               /\ holds (S (Item.id item)) op s
           | None => holds n op s
           end)
        (p <- Game.the_player ;;
         Game.put_player match o with
                         | Some item => Player.equip_item item p
                         | None => p
                         end)
        (fun _ => sound) sound.
Proof.
  destruct o as [item |].
  - apply hoare_pure. intros Hitem. read_player p Hop.
    apply put_player_sound. intros m Hm Hp.
    apply sound_player_equip_item; [exact Hp | lia |].
    intros x Hx Heq. pose proof (sp_ids _ _ (Hitem p Hop) x Hx). lia.
  - read_player p Hop. apply put_player_sound. auto.
Qed.

Lemma hoare_bind_assoc {S A B C} (m : M S A) (k : A -> M S B)
    (h : B -> M S C) (P : S -> Prop) (Q : B -> S -> Prop)
    (R : C -> S -> Prop) (E : S -> Prop) :
  hoare P (bind m k) Q E -> (forall b, hoare (Q b) (h b) R E) ->
  hoare P (bind m (fun a => bind (k a) h)) R E.
Proof.
  intros H1 H2 s Hs. specialize (H1 s Hs). unfold bind in *.
  destruct (m s) as [[a | e] s1]; [| exact H1].
  destruct (k a s1) as [[b | e] s2]; [apply H2; exact H1 | exact H1].
Qed.

Lemma preserves_new_game : preserves Game.new_game.
Proof.
  unfold Game.new_game, preserves. cbv zeta.
  eapply hoare_bind with (Q := fun _ => sound).
  { apply hoare_modify. intros s _. unfold sound.
    destruct s; cbn. apply sound_player_init. }
  intros ?. apply hoare_from_sound. intros op.
  keep create_known_item_holds. apply hoare_pure. intros Hitem.
  read_player p Hop.
  eapply hoare_bind.
  { apply put_player_sound. intros m Hm _.
    apply sound_player_add_item; [now apply Hitem | lia]. }
  intros ?. apply hoare_from_sound. intros op1.
  keep alloc_create_holds.
  eapply hoare_bind_assoc; [apply equip_created | intros ?].
  apply hoare_from_sound. intros op2.
  keep alloc_create_holds.
  eapply hoare_bind_assoc; [apply equip_created | intros ?].
  apply hoare_from_sound. intros op3. read_player p3 Hop3.
  put_same. quiet. apply stable_preserves, stable_show_location.
Qed.

Lemma preserves_load_game : preserves Game.load_game.
Proof.
  unfold Game.load_game, preserves.
  quiet. destruct (Game.save_file a) as [| | d].
  - apply stable_preserves, stable_log.
  - now apply hoare_raise.
  - eapply hoare_bind
      with (Q := fun p s => sound_player (Game.next_id s) p).
    + intros s Hs. unfold Game.alloc.
      pose proof (from_dict_sound d (Game.next_id s) _ eq_refl) as Hd.
      destruct (Player.from_dict d (Game.next_id s)) as [[p | e] n'].
      * destruct s; cbn in *. apply Hd.
      * unfold sound in *. destruct s as [pl ? ? ? ? ? ? ? ni ? ? ?].
        cbn in *. destruct pl; [| exact I].
        now apply (sound_player_mono ni).
    + intros p.
      eapply hoare_bind with (Q := fun _ => sound).
      { apply hoare_modify. intros s Hs. unfold sound.
        destruct s; cbn in *. exact Hs. }
      intros ?. quiet. apply stable_preserves, stable_show_location.
Qed.

Lemma preserves_move_player (destination : string) :
  preserves (Game.move_player destination).
Proof.
  unfold Game.move_player, preserves.
  apply hoare_from_sound. intros op. read_player p Hop.
  put_same. apply stable_preserves, stable_show_location.
Qed.

Lemma preserves_search_area : preserves Game.search_area.
Proof.
  unfold Game.search_area, preserves.
  quiet. destruct (Location.secret a) as [secret |]; [| apply preserves_ret].
  destruct (String.eqb secret "Found an Amulet"); [| apply preserves_ret].
  apply hoare_from_sound. intros op.
  keep create_known_item_holds. apply hoare_pure. intros Hitem.
  read_player p Hop.
  destruct (negb _).
  - eapply hoare_bind.
    { apply put_player_sound. intros m Hm _.
      apply sound_player_add_item; [now apply Hitem | lia]. }
    intros ?. quiet. apply preserves_check_quest_progress.
  - apply preserves_holds, stable_preserves, stable_log.
Qed.

Lemma preserves_talk_to_npc (npc_name : string) :
  preserves (Game.talk_to_npc npc_name).
Proof.
  unfold Game.talk_to_npc, preserves.
  quiet. cbv zeta.
  apply hoare_from_sound. intros op. read_player p Hop.
  eapply hoare_bind with (Q := fun _ => sound).
  { destruct (Py.contains _ _); [done_at |].
    put_same. apply stable_preserves, stable_log. }
  intros ?. quiet. quiet. quiet. quiet. quiet.
  apply stable_preserves, stable_log.
Qed.

Lemma hoare_carrying {A} (item : Item.t) (m : M Game.t A)
    (Q : A -> Game.t -> Prop) (E : Game.t -> Prop) :
  (forall op, (forall p, op = Some p -> In item (Player.inventory p)) ->
              hoare (holds 0 op) m Q E) ->
  hoare (fun s => sound s /\ carries item s) m Q E.
Proof.
  intros H s [Hs Hc]. apply (H (Game.player s)).
  - intros p Hp. unfold carries in Hc. now rewrite Hp in Hc.
  - repeat apply conj; [exact Hs | reflexivity | lia].
Qed.

Lemma preserves_equip_action (item : Item.t) (inv_win : nat) :
  hoare (fun s => sound s /\ carries item s)
        (Game.equip_action item inv_win) (fun _ => sound) sound.
Proof.
  unfold Game.equip_action.
  apply hoare_carrying. intros op Hin. read_player p Hop.
  specialize (Hin p Hop).
  eapply hoare_bind.
  { apply put_player_sound. intros m _ Hp.
    apply sound_player_equip_item;
      [exact Hp | now apply (sp_ids _ _ Hp) |].
    intros x Hx Heq. now apply (sp_distinct _ _ Hp). }
  intros ?. quiet. quiet. apply stable_preserves, stable_destroy_window.
Qed.

Lemma preserves_use_action (potion : Potion.t) (inv_win : nat) :
  preserves (Game.use_action potion inv_win).
Proof.
  unfold Game.use_action, preserves.
  keep preserves_drink. keep preserves_remove_item. quiet.
  apply stable_preserves, stable_destroy_window.
Qed.

Lemma preserves_drop_action (item : Item.t) (inv_win : nat) :
  hoare (fun s => sound s /\ carries item s)
        (Game.drop_action item inv_win) (fun _ => sound) sound.
Proof.
  unfold Game.drop_action.
  apply hoare_carrying. intros op Hin. read_player p Hop.
  specialize (Hin p Hop).
  eapply hoare_bind.
  { apply put_player_sound. intros m _ Hp.
    now apply sound_player_unequip. }
  intros ?. keep preserves_remove_item. quiet. quiet.
  apply stable_preserves, stable_destroy_window.
Qed.

Lemma preserves_save_game : preserves Game.save_game.
Proof.
  unfold Game.save_game, preserves.
  quiet. destruct (Game.player a) as [p |]; [| apply preserves_ret].
  eapply hoare_bind with (Q := fun _ => sound).
  { apply hoare_modify. intros s Hs. unfold sound in *.
    destruct s; exact Hs. }
  intros ?. quiet.
  eapply hoare_bind with (Q := fun _ => sound).
  { apply hoare_modify. intros s Hs. unfold sound in *.
    destruct s; exact Hs. }
  intros ?. quiet. apply stable_preserves, stable_modify. frame_setter.
Qed.

Lemma preserves_run_command (c : Command) : preserves (run_command c).
Proof.
  destruct c; cbn [run_command].
  - apply preserves_new_game.
  - apply preserves_load_game.
  - apply preserves_move_player.
  - apply preserves_talk_to_npc.
  - apply preserves_search_area.
  - apply stable_preserves. auto with stable.
  - apply preserves_save_game.
  - apply preserves_perform_action.
  - apply preserves_cast_spell.
  - apply preserves_use_potion.
Qed.

Lemma handle_sound (e : Event) (g : Game.t) :
  sound g -> offered e g -> sound (snd (handle e g)).
Proof.
  intros Hs Ho.
  assert (H : hoare (fun s => sound s /\ offered e s) (handle e)
                    (fun _ => sound) sound).
  { destruct e as [c | item w | potion w | item w]; cbn [handle offered].
    - eapply hoare_conseq; [apply (preserves_run_command c) | | auto ..].
      now intros s [H _].
    - apply preserves_equip_action.
    - eapply hoare_conseq; [apply (preserves_use_action potion w) | | auto ..].
      now intros s [H _].
    - apply preserves_drop_action. }
  specialize (H g (conj Hs Ho)).
  destruct (handle e g) as [[[] | ex] g']; exact H.
Qed.

Lemma play_sound (es : list Event) :
  forall g, sound g -> all_offered es g -> sound (play es g).
Proof.
  induction es as [| e es IH]; intros g Hs Ho; cbn [play all_offered] in *.
  - exact Hs.
  - destruct Ho as [He Hes]. apply IH; [now apply handle_sound | exact Hes].
Qed.

(** X1: in every state reached from the start menu, whatever the random
    draws and the save file are, by any sequence of button presses (new
    game, load, move, talk, search, inventory, save, the five combat
    actions, a spell or a potion of a selection window) and of Equip, Use
    and Drop on the inventory screen, Equip and Drop being pressed for an
    item of the inventory: the player's attack is [10 + level * 5] plus
    the bonus of the equipped weapon and the defense is [3 + level * 2]
    plus the bonus of the equipped armor.  Callbacks that raise are
    included: the state they leave behind satisfies the same equations. *)
Theorem stats_follow_level_and_equipment (source : nat -> Z)
    (file : SaveFile) (es : list Event)
    (Hoffered : all_offered es (Game.init source file)) :
  forall p, Game.player (play es (Game.init source file)) = Some p ->
    Player.attack p = 10 + Player.level p * 5 + weapon_bonus p
    /\ Player.defense p = 3 + Player.level p * 2 + armor_bonus p.
Proof.
  intros p Hp.
  assert (Hinit : sound (Game.init source file)).
  { unfold sound. replace (Game.player (Game.init source file))
      with (@None Player.t); [exact I |].
    unfold Game.init. destruct file; reflexivity. }
  pose proof (play_sound es _ Hinit Hoffered) as Hs.
  unfold sound in Hs. rewrite Hp in Hs. exact (sp_stats _ _ Hs).
Qed.

Lemma stats_follow_level_and_equipment_witness :
  all_offered sample_session (Game.init scene_source NoFile)
  /\ option_map (fun p => (Player.level p, Player.attack p, Player.defense p,
                           option_map Weapon.name (Player.weapon p)))
       (Game.player (play sample_session (Game.init scene_source NoFile)))
     = Some (1, 15, 5, None)
  /\ forall p,
       Game.player (play sample_session (Game.init scene_source NoFile))
       = Some p ->
       Player.attack p = 10 + Player.level p * 5 + weapon_bonus p
       /\ Player.defense p = 3 + Player.level p * 2 + armor_bonus p.
Proof.
  assert (H : all_offered sample_session (Game.init scene_source NoFile)).
  { vm_compute. repeat apply conj; try exact I. left. reflexivity. }
  split; [exact H | split].
  - vm_compute. reflexivity.
  - exact (stats_follow_level_and_equipment scene_source NoFile
             sample_session H).
Defined.

(** ** The killing blow *)

Lemma for_each_log (lines : list string) :
  forall g,
    for_each lines Game.log g
    = (Ok tt, Game.set_text_area (Game.text_area g ++ lines) g).
Proof.
  induction lines as [| l lines IH]; intros g.
  - cbn. rewrite app_nil_r. now destruct g.
  - cbn [for_each]. unfold bind, Game.log at 1, modify. rewrite IH.
    destruct g. cbn. now rewrite <- app_assoc.
Qed.

Lemma enemy_from_catalog_alive (name : string) (e : Enemy.t) :
  enemy_from_catalog name = Some e -> Entity.is_alive (Enemy.ent e) = true.
Proof.
  unfold enemy_from_catalog.
  destruct (Py.get enemies name) as [d |] eqn:H; [| discriminate].
  intros [= <-]. unfold enemies in H. cbn [Py.get] in H.
  repeat match type of H with
         | (if ?c then _ else _) = _ =>
             destruct c; [injection H as <-; reflexivity |]
         end.
  discriminate.
Qed.

Lemma gain_xp_keeps_quests_location (amount : Z) (p : Player.t) :
  Player.quests (fst (Player.gain_xp amount p)) = Player.quests p
  /\ Player.location (fst (Player.gain_xp amount p)) = Player.location p.
Proof.
  destruct p as [[n mh h ms s a d b] x l inv w ar loc q mm m sp].
  unfold Player.gain_xp, Player.level_up.
  cbn -[Py.str Z.add Z.mul Z.leb Z.to_nat].
  destruct (l * 100 <=? x + amount); cbn -[Py.str Z.add Z.mul Z.to_nat];
    split; reflexivity.
Qed.

Lemma win_combat_spec (g : Game.t) (p : Player.t) (e : Enemy.t)
    (loc : Location.t) :
  Game.player g = Some p -> Game.current_enemy g = Some e ->
  all_completed g ->
  Py.get world (Player.location p) = Some loc ->
  Game.destroyed g = false ->
  let p1 := fst (Player.gain_xp (Enemy.xp_reward e) p) in
  let out := Game.win_combat g in
  fst out = Ok tt
  /\ Game.player (snd out) = Some p1
  /\ Game.destroyed (snd out) = Game.destroyed g
  /\ match Location.enemies loc with
     | None =>
         Game.current_enemy (snd out) = None
         /\ Game.random_pos (snd out) = Game.random_pos g
     | Some roster =>
         if Game.random_source g (Game.random_pos g) mod two_53 <? float_0_6
         then
           exists name,
             In name roster
             /\ enemy_from_catalog name <> None
             /\ Game.current_enemy (snd out) = enemy_from_catalog name
             /\ Game.random_pos (snd out) = S (S (Game.random_pos g))
         else
           Game.current_enemy (snd out) = None
           /\ Game.random_pos (snd out) = S (Game.random_pos g)
     end.
Proof.
  intros Hp He Hdone Hloc Hlive. cbv zeta.
  destruct (gain_xp_keeps_quests_location (Enemy.xp_reward e) p) as [Hq Hl].
  remember (Game.win_combat g) as out eqn:Hout.
  unfold Game.win_combat, Game.the_enemy, Game.the_player, Game.put_player,
    Game.log in Hout.
  unfold bind at 1 in Hout. unfold bind at 1 in Hout.
  unfold get at 1 in Hout. rewrite He in Hout.
  cbn [lift_option ret] in Hout.
  unfold bind at 1 in Hout. unfold modify at 1 in Hout.
  unfold bind at 1 in Hout. unfold bind at 1 in Hout.
  unfold get at 1 in Hout.
  replace (Game.player (Game.set_text_area _ g)) with (Some p) in Hout
    by (destruct g; exact (eq_sym Hp)).
  cbn [lift_option ret] in Hout.
  destruct (Player.gain_xp (Enemy.xp_reward e) p) as [p1 lines].
  cbn [fst] in *.
  unfold bind at 1 in Hout. unfold modify at 1 in Hout.
  rewrite (bind_ok _ _ _ _ _ (for_each_log lines _)) in Hout.
  match type of Hout with
  | context [bind (Game.check_quest_progress ?d) ?k ?s] =>
      assert (Hidle : Game.check_quest_progress d s = (Ok tt, s))
  end.
  { apply (check_quest_progress_idle _ _ p1); [now destruct g |].
    unfold all_completed in Hdone. rewrite Hp in Hdone. now rewrite Hq. }
  rewrite (bind_ok _ _ _ _ _ Hidle) in Hout.
  unfold bind at 1 in Hout. unfold modify at 1 in Hout.
  match type of Hout with
  | context [Game.show_location ?s] => set (g2 := s) in Hout
  end.
  assert (Hp2 : Game.player g2 = Some p1) by (destruct g; reflexivity).
  rewrite <- Hl in Hloc.
  assert (Hd2 : Game.destroyed g2 = false) by (destruct g; exact Hlive).
  destruct (show_location_spec g2 p1 loc Hp2 Hloc Hd2)
    as (Hok & _ & Hpl & Hde & Hrest).
  assert (Hen2 : Game.current_enemy g2 = None) by (destruct g; reflexivity).
  assert (Hpos2 : Game.random_pos g2 = Game.random_pos g)
    by (destruct g; reflexivity).
  assert (Hsrc2 : Game.random_source g2 = Game.random_source g)
    by (destruct g; reflexivity).
  assert (Hde2 : Game.destroyed g2 = Game.destroyed g)
    by (destruct g; reflexivity).
  rewrite Hen2, Hpos2, Hsrc2 in Hrest. rewrite Hde2 in Hde.
  rewrite Hout.
  split; [exact Hok |]. split; [exact Hpl |]. split; [exact Hde |].
  exact Hrest.
Qed.

(** X5: pressing Attack with a blow that kills (in an application that
    has not been destroyed), for a player with no open quest: the player
    gains the enemy's xp reward through [gain_xp] and the location view
    is shown, which rolls for an encounter.  Where the location has a
    roster and the draw is below 0.6, a fresh enemy from the catalogue
    stands at the end of the same call and has already attacked the
    player once; the call returns when the player survives that attack
    and raises [TclError] from the closing [update_stats] when it kills
    the player.  Otherwise no enemy stands, the player was not hit and
    the call returns. *)
Theorem killing_blow (g : Game.t) (p : Player.t) (e : Enemy.t)
    (loc : Location.t)
    (Hplayer : Game.player g = Some p)
    (Henemy : Game.current_enemy g = Some e)
    (Halive : Entity.is_alive (Enemy.ent e) = true)
    (Hkill : Entity.is_alive
               (snd (Entity.take_damage (Player.attack p) (Enemy.ent e)))
             = false)
    (Hdone : all_completed g)
    (Hloc : Py.get world (Player.location p) = Some loc)
    (Hlive : Game.destroyed g = false) :
  let out := Game.perform_action "Attack" g in
  let p1 := fst (Player.gain_xp (Enemy.xp_reward e) p) in
  let encounter :=
    match Location.enemies loc with
    | Some _ => Game.random_source g (Game.random_pos g) mod two_53 <? float_0_6
    | None => false
    end in
  if encounter then
    exists name next,
      let p2 := snd (Player.take_damage (Entity.attack (Enemy.ent next)) p1) in
      enemy_from_catalog name = Some next
      /\ Game.current_enemy (snd out) = Some next
      /\ Game.player (snd out) = Some p2
      /\ fst out = after_answer p2
      /\ Game.destroyed (snd out) = negb (Player.is_alive p2)
  else
    fst out = Ok tt
    /\ Game.current_enemy (snd out) = None
    /\ Game.player (snd out) = Some p1
    /\ Game.destroyed (snd out) = false.
Proof.
  cbv zeta.
  assert (Hfight : Game.enemy_alive g = true)
    by (unfold Game.enemy_alive; now rewrite Henemy).
  remember (Game.perform_action "Attack" g) as out eqn:Hout.
  unfold Game.perform_action in Hout.
  unfold bind at 1 in Hout. unfold get at 1 in Hout.
  rewrite Hfight in Hout. cbn [negb] in Hout.
  change (String.eqb "Attack" "Attack") with true in Hout. cbv iota in Hout.
  unfold Game.player_attack, Game.the_enemy, Game.the_player,
    Game.put_enemy, Game.log in Hout.
  unfold bind at 1 in Hout. unfold bind at 1 in Hout.
  unfold bind at 1 in Hout. unfold bind at 1 in Hout.
  unfold get at 1 in Hout. rewrite Henemy in Hout.
  cbn [lift_option ret] in Hout.
  unfold bind at 1 in Hout. unfold bind at 1 in Hout.
  unfold get at 1 in Hout. rewrite Hplayer in Hout.
  cbn [lift_option ret] in Hout.
  destruct (Entity.take_damage (Player.attack p) (Enemy.ent e))
    as [damage_done ent]. cbn [snd] in Hkill. cbv zeta in Hout.
  unfold bind at 1 in Hout. unfold modify at 1 in Hout.
  unfold bind at 1 in Hout. unfold modify at 1 in Hout.
  cbn [Enemy.ent Enemy.set_ent] in Hout. rewrite Hkill in Hout.
  match type of Hout with
  | context [Game.win_combat ?s] => set (g1 := s) in Hout
  end.
  assert (Hp1 : Game.player g1 = Some p)
    by (destruct g; exact Hplayer).
  assert (He1 : Game.current_enemy g1 = Some (Enemy.set_ent ent e))
    by (destruct g; reflexivity).
  assert (Hd1 : Game.destroyed g1 = false) by (destruct g; exact Hlive).
  assert (Hdone1 : all_completed g1).
  { unfold all_completed in *. rewrite Hp1. now rewrite Hplayer in Hdone. }
  destruct (win_combat_spec g1 p (Enemy.set_ent ent e) loc Hp1 He1 Hdone1
              Hloc Hd1) as (Hok & Hpl & Hde & Hrest).
  replace (Game.random_source g1) with (Game.random_source g) in Hrest
    by (destruct g; reflexivity).
  replace (Game.random_pos g1) with (Game.random_pos g) in Hrest
    by (destruct g; reflexivity).
  change (Enemy.xp_reward (Enemy.set_ent ent e)) with (Enemy.xp_reward e)
    in Hpl.
  rewrite Hd1 in Hde.
  destruct (Game.win_combat g1) as [r g2]. cbn [fst snd] in *. subst r.
  cbn [ret] in Hout. unfold bind at 1 in Hout. unfold get at 1 in Hout.
  cbn [andb] in Hout.
  pose proof (enemy_turn_if_alive g2 _ Hpl) as Hturn. cbv zeta in Hturn.
  destruct Hturn as (Hok2 & Hpl2 & Hen2 & _ & _ & Hde2).
  unfold bind at 1 in Hout.
  destruct ((if Game.enemy_alive g2 then Game.enemy_turn else ret tt) g2)
    as [r g3]. cbn [fst snd] in *. subst r.
  destruct (update_stats_frame g3) as (Hok3 & Hpl3 & Hen3 & _ & _ & Hde3).
  rewrite Hout, Hok3, Hpl3, Hen3, Hde3, Hpl2, Hen2, Hde2, Hde.
  cbn [is_some]. unfold after_enemy_turn, Game.enemy_alive, after_answer.
  destruct (Location.enemies loc) as [roster |].
  - destruct (Game.random_source g (Game.random_pos g) mod two_53
              <? float_0_6).
    + destruct Hrest as (name & _ & Hsome & Hcur & _).
      destruct (enemy_from_catalog name) as [next |] eqn:Hnext;
        [| contradiction].
      exists name, next. rewrite Hcur.
      rewrite (enemy_from_catalog_alive _ _ Hnext).
      split; [exact Hnext |]. split; [reflexivity |].
      split; [reflexivity |].
      destruct (Player.is_alive
                  (snd (Player.take_damage (Entity.attack (Enemy.ent next))
                          (fst (Player.gain_xp (Enemy.xp_reward e) p)))));
        split; reflexivity.
    + destruct Hrest as [Hcur _]. rewrite Hcur.
      repeat apply conj; reflexivity.
  - destruct Hrest as [Hcur _]. rewrite Hcur.
    repeat apply conj; reflexivity.
Qed.

Lemma killing_blow_witness :
  Game.player wounded_goblin_fight = Some forest_hero
  /\ Game.destroyed wounded_goblin_fight = false
  /\ fst (Game.perform_action "Attack" wounded_goblin_fight) = Ok tt
  /\ option_map (fun e => Entity.name (Enemy.ent e))
       (Game.current_enemy
          (snd (Game.perform_action "Attack" wounded_goblin_fight)))
     = Some "Goblin"
  /\ option_map (fun e => Entity.hp (Enemy.ent e))
       (Game.current_enemy
          (snd (Game.perform_action "Attack" wounded_goblin_fight)))
     = Some 30
  /\ option_map Player.xp
       (Game.player (snd (Game.perform_action "Attack" wounded_goblin_fight)))
     = Some 25.
Proof.
  assert (Hp : Game.player wounded_goblin_fight = Some forest_hero)
    by (vm_compute; reflexivity).
  assert (He : Game.current_enemy wounded_goblin_fight
               = Some (Enemy.set_ent (Entity.set_hp 10 (Enemy.ent goblin))
                                     goblin))
    by (vm_compute; reflexivity).
  assert (Hdone : all_completed wounded_goblin_fight)
    by (vm_compute; constructor).
  assert (Hloc : Py.get world (Player.location forest_hero) = Some forest)
    by (vm_compute; reflexivity).
  assert (Hd : Game.destroyed wounded_goblin_fight = false)
    by (vm_compute; reflexivity).
  pose proof (killing_blow wounded_goblin_fight forest_hero _ forest Hp He
                eq_refl eq_refl Hdone Hloc Hd) as Hnew.
  split; [exact Hp |]. split; [exact Hd |].
  repeat apply conj; vm_compute; reflexivity.
Defined.

(** ** The quest invariant: every callback keeps it *)

Lemma ok_same_quests (p p' : Player.t) :
  Player.quests p' = Player.quests p ->
  Forall (fun kv : string * Quest.t => quest_ok (snd kv)) (Player.quests p) ->
  Forall (fun kv : string * Quest.t => quest_ok (snd kv)) (Player.quests p').
Proof. now intros ->. Qed.

Lemma quests_take_damage (damage : Z) (p : Player.t) :
  Player.quests (snd (Player.take_damage damage p)) = Player.quests p.
Proof.
  unfold Player.take_damage.
  destruct (Entity.take_damage damage (Player.ent p)). now destruct p.
Qed.

Lemma quests_equip_item (item : Item.t) (p : Player.t) :
  Player.quests (Player.equip_item item p) = Player.quests p.
Proof.
  destruct p as [e x l inv w ar lc q mm m sp].
  destruct item as [i | po | we | arm]; try reflexivity.
  - destruct w; reflexivity.
  - destruct ar; reflexivity.
Qed.

Lemma quests_unequip (item : Item.t) (p : Player.t) :
  Player.quests (Game.unequip_if_equipped item p) = Player.quests p.
Proof.
  destruct p as [e x l inv w ar lc q mm m sp].
  unfold Game.unequip_if_equipped. cbn.
  destruct item as [i | po | we | arm], w as [w |], ar as [ar |]; cbn;
    repeat match goal with
           | |- context [if ?c then _ else _] => destruct c; cbn
           end; reflexivity.
Qed.

Lemma quests_remove_item (item : Item.t) (p p' : Player.t) :
  Player.remove_item item p = Ok p' -> Player.quests p' = Player.quests p.
Proof.
  unfold Player.remove_item.
  destruct (Player.list_remove item (Player.inventory p)); [| discriminate].
  intros [= <-]. now destruct p.
Qed.

(** *** Rules *)

Lemma stable_keeps_quests {A} (m : M Game.t A) : stable m -> keeps_quests m.
Proof.
  intros Hm s [Hq Hf]. destruct (Hm s) as (Hp & _ & Hs).
  assert (H : quests_sound (snd (m s))).
  { split; [unfold quests_ok in *; now rewrite Hp | now rewrite Hs]. }
  destruct (m s) as [[a | e] s']; exact H.
Qed.

Lemma the_player_quests :
  hoare quests_sound Game.the_player
        (fun p s => Forall (fun kv : string * Quest.t => quest_ok (snd kv))
                           (Player.quests p)
                    /\ quests_sound s)
        quests_sound.
Proof.
  intros s Hs. unfold Game.the_player, bind, get. cbn.
  pose proof Hs as [Hq _]. unfold quests_ok in Hq.
  destruct (Game.player s) as [p |]; cbn; [split; assumption | exact Hs].
Qed.

Lemma put_player_quests (p : Player.t) :
  Forall (fun kv : string * Quest.t => quest_ok (snd kv)) (Player.quests p) ->
  hoare quests_sound (Game.put_player p) (fun _ => quests_sound) quests_sound.
Proof.
  intros Hp s [_ Hf]. unfold Game.put_player, modify.
  split; [| now destruct s]. unfold quests_ok. now destruct s.
Qed.

Lemma keeps_quests_ret {A} (a : A) : keeps_quests (@ret Game.t A a).
Proof. now apply hoare_ret. Qed.

Lemma stable_alloc_create (name : string) :
  stable (Game.alloc (create_item_from_name name)).
Proof.
  intros g. unfold Game.alloc.
  destruct (create_item_cases name (Game.next_id g))
    as [(_ & item & -> & _) | (_ & ->)];
    destruct g; cbn; repeat apply conj; reflexivity || lia.
Qed.

Lemma stable_create_known_item (name : string) :
  stable (Game.create_known_item name).
Proof.
  apply stable_bind; [apply stable_alloc_create | intros].
  apply stable_lift_option.
Qed.

#[local] Hint Resolve stable_alloc_create stable_create_known_item : stable.

Ltac qquiet :=
  eapply hoare_bind;
  [apply stable_keeps_quests; solve [auto with stable] | intros ?].
Ltac qbind x :=
  eapply hoare_bind;
  [apply stable_keeps_quests; solve [auto with stable] | intros x].
Ltac qread p Hp :=
  eapply hoare_bind; [apply the_player_quests | intros p];
  apply hoare_pure; intros Hp.
Ltac qkeep lemma := eapply hoare_bind; [apply lemma | intros ?].
Ltac qput p Hp :=
  eapply hoare_bind;
  [ apply put_player_quests; apply (ok_same_quests p); [| exact Hp];
    try (destruct p as [[? ? ? ? ? ? ? ?] ? ? ? ? ? ? ? ? ? ?]; reflexivity)
  | intros ? ].
Ltac qlast p Hp :=
  apply put_player_quests; apply (ok_same_quests p); [| exact Hp];
  try (destruct p as [[? ? ? ? ? ? ? ?] ? ? ? ? ? ? ? ? ? ?]; reflexivity).

(** *** The methods *)

Lemma keeps_quests_complete_quest (quest : Quest.t) :
  keeps_quests (Game.complete_quest quest).
Proof.
  unfold Game.complete_quest, keeps_quests.
  qquiet. qquiet.
  destruct (String.eqb (Quest.name quest) "Slay the Dragon").
  - qread p Hp. qquiet. qlast p Hp.
  - destruct (String.eqb (Quest.name quest) "The Stolen Spellbook").
    + qread p Hp. qlast p Hp.
    + apply keeps_quests_ret.
Qed.

Lemma keeps_quests_check_one_quest (d : option string) (i : nat) :
  keeps_quests (Game.check_one_quest d i).
Proof.
  unfold Game.check_one_quest, keeps_quests.
  qread p Hp.
  eapply hoare_bind
    with (Q := fun kv s => quest_ok (snd kv) /\ quests_sound s).
  { apply hoare_lift_option; [| auto].
    intros kv s Hkv Hs. split; [| exact Hs].
    apply nth_error_In in Hkv. rewrite Forall_forall in Hp. now apply Hp. }
  intros kv. apply hoare_pure. intros Hkv. cbv zeta.
  destruct (Quest.completed (snd kv)); [apply keeps_quests_ret |].
  qquiet. qquiet.
  eapply hoare_bind.
  { apply stable_keeps_quests. destruct (String.eqb a0 "kill_enemy");
      auto with stable. }
  intros kill.
  eapply hoare_bind.
  { apply stable_keeps_quests. destruct kill; [apply stable_ret |].
    apply stable_bind; [apply stable_stage_get | intros ty].
    destruct (String.eqb ty "find_item"); [| apply stable_ret].
    destruct (Player.inventory p); auto with stable. }
  intros progress. destruct progress; [| apply keeps_quests_ret].
  qquiet.
  pose proof (advance_stage_keeps_ok _ Hkv) as Hadv.
  destruct (Quest.advance_stage (snd kv)) as [finished quest]. cbn in Hadv.
  eapply hoare_bind.
  { apply put_player_quests.
    replace (Player.quests (Player.set_quests _ p))
      with (Game.replace_value i quest (Player.quests p))
      by (destruct p; reflexivity).
    now apply replace_value_ok. }
  intros ?.
  destruct finished; [apply keeps_quests_complete_quest |
                      apply keeps_quests_ret].
Qed.

Lemma keeps_quests_check_quest_progress (d : option string) :
  keeps_quests (Game.check_quest_progress d).
Proof.
  unfold Game.check_quest_progress, keeps_quests.
  qquiet. apply hoare_for_each. intros i _.
  apply keeps_quests_check_one_quest.
Qed.

Lemma keeps_quests_enemy_turn : keeps_quests Game.enemy_turn.
Proof.
  unfold Game.enemy_turn, keeps_quests.
  qread p Hp. qquiet.
  pose proof (quests_take_damage (Entity.attack (Enemy.ent a)) p) as Hq.
  destruct (Player.take_damage (Entity.attack (Enemy.ent a)) p)
    as [damage_done p'].
  eapply hoare_bind.
  { apply put_player_quests. now apply (ok_same_quests p). }
  intros ?. qquiet.
  destruct (Player.is_alive p');
    [apply keeps_quests_ret | apply stable_keeps_quests, stable_game_over].
Qed.

Lemma keeps_quests_win_combat : keeps_quests Game.win_combat.
Proof.
  unfold Game.win_combat, keeps_quests.
  qquiet. qquiet. qread p Hp.
  pose proof (proj1 (gain_xp_keeps_quests_location (Enemy.xp_reward a) p))
    as Hq.
  destruct (Player.gain_xp (Enemy.xp_reward a) p) as [p' lines].
  eapply hoare_bind.
  { apply put_player_quests. now apply (ok_same_quests p). }
  intros ?. qquiet.
  qkeep keeps_quests_check_quest_progress.
  eapply hoare_bind.
  { apply stable_keeps_quests, stable_modify. frame_setter. }
  intros ?. apply stable_keeps_quests, stable_show_location.
Qed.

Lemma keeps_quests_player_attack : keeps_quests Game.player_attack.
Proof.
  unfold Game.player_attack, keeps_quests.
  qquiet. qquiet.
  destruct (Entity.take_damage (Player.attack a0) (Enemy.ent a))
    as [damage_done ent]. cbv zeta.
  qquiet. qquiet.
  destruct (Entity.is_alive _);
    [apply keeps_quests_ret | apply keeps_quests_win_combat].
Qed.

Lemma keeps_quests_player_defend : keeps_quests Game.player_defend.
Proof.
  unfold Game.player_defend, keeps_quests.
  qread p Hp. qput p Hp. apply stable_keeps_quests, stable_log.
Qed.

Lemma keeps_quests_turn_end :
  keeps_quests (g <- get ;;
                (if Game.enemy_alive g then Game.enemy_turn else ret tt) ;;
                Game.update_stats).
Proof.
  unfold keeps_quests. qquiet.
  eapply hoare_bind.
  { destruct (Game.enemy_alive a);
      [apply keeps_quests_enemy_turn | apply keeps_quests_ret]. }
  intros ?. apply stable_keeps_quests, stable_update_stats.
Qed.

Lemma keeps_quests_cast_spell (spell : Spell.t) (window : nat) :
  keeps_quests (Game.cast_spell spell window).
Proof.
  unfold Game.cast_spell, keeps_quests.
  qquiet. qread p Hp.
  destruct (Spell.mana_cost spell <=? Player.mana p);
    [| apply stable_keeps_quests, stable_log].
  cbv zeta. qput p Hp.
  eapply hoare_bind with (Q := fun _ => quests_sound);
    [| intros ?; apply keeps_quests_turn_end].
  destruct (0 <? Spell.damage spell).
  - qquiet.
    destruct (Entity.take_damage (Spell.damage spell) (Enemy.ent a1))
      as [damage_done ent]. cbv zeta.
    qquiet. qquiet.
    destruct (Entity.is_alive _);
      [apply keeps_quests_ret | apply keeps_quests_win_combat].
  - qput p Hp. apply stable_keeps_quests, stable_log.
Qed.

Lemma keeps_quests_drink (potion : Potion.t) :
  keeps_quests (Game.drink potion).
Proof.
  unfold Game.drink, keeps_quests.
  qread p Hp.
  destruct (String.eqb (Potion.effect potion) "heal").
  { qput p Hp. apply stable_keeps_quests, stable_log. }
  destruct (String.eqb (Potion.effect potion) "stamina").
  { qput p Hp. apply stable_keeps_quests, stable_log. }
  apply keeps_quests_ret.
Qed.

Lemma keeps_quests_remove_item (item : Item.t) :
  keeps_quests (Game.remove_item item).
Proof.
  unfold Game.remove_item, keeps_quests.
  qread p Hp.
  eapply hoare_bind
    with (Q := fun p' s => Player.remove_item item p = Ok p'
                           /\ quests_sound s).
  - apply hoare_lift_result; auto.
  - intros p'. apply hoare_pure. intros Hr. apply put_player_quests.
    apply (ok_same_quests p); [| exact Hp].
    now apply quests_remove_item with (item := item).
Qed.

Lemma keeps_quests_use_potion (potion : Potion.t) (window : nat) :
  keeps_quests (Game.use_potion potion window).
Proof.
  unfold Game.use_potion, keeps_quests.
  qquiet. qkeep keeps_quests_drink. qkeep keeps_quests_remove_item.
  apply keeps_quests_turn_end.
Qed.

Lemma keeps_quests_flee : keeps_quests Game.flee.
Proof.
  unfold Game.flee, keeps_quests.
  qquiet. destruct (a <? float_0_5).
  - qquiet.
    eapply hoare_bind.
    { apply stable_keeps_quests, stable_modify. frame_setter. }
    intros ?. apply stable_keeps_quests, stable_show_location.
  - qquiet. apply keeps_quests_enemy_turn.
Qed.

Lemma keeps_quests_perform_action (action : string) :
  keeps_quests (Game.perform_action action).
Proof.
  unfold Game.perform_action, keeps_quests.
  qquiet. destruct (negb (Game.enemy_alive a)); [apply keeps_quests_ret |].
  eapply hoare_bind with (Q := fun _ => quests_sound).
  { destruct (String.eqb action "Attack").
    { qkeep keeps_quests_player_attack. apply keeps_quests_ret. }
    destruct (String.eqb action "Defend").
    { qkeep keeps_quests_player_defend. apply keeps_quests_ret. }
    destruct (String.eqb action "Magic").
    { apply stable_keeps_quests, stable_show_spell_selection. }
    destruct (String.eqb action "Use Item").
    { apply stable_keeps_quests, stable_show_item_selection. }
    destruct (String.eqb action "Flee").
    { qkeep keeps_quests_flee. apply keeps_quests_ret. }
    apply keeps_quests_ret. }
  intros ended. qquiet.
  eapply hoare_bind.
  { destruct (ended && Game.enemy_alive a0);
      [apply keeps_quests_enemy_turn | apply keeps_quests_ret]. }
  intros ?. apply stable_keeps_quests, stable_update_stats.
Qed.

Lemma keeps_quests_new_game : keeps_quests Game.new_game.
Proof.
  unfold Game.new_game, keeps_quests. cbv zeta.
  eapply hoare_bind with (Q := fun _ => quests_sound).
  { apply hoare_modify. intros s [_ Hf].
    split; [| now destruct s]. unfold quests_ok. destruct s; cbn.
    constructor. }
  intros ?. qquiet. qread p Hp. qput p Hp.
  qbind o1. qread p1 Hp1.
  eapply hoare_bind.
  { apply put_player_quests. destruct o1 as [item |]; [| exact Hp1].
    apply (ok_same_quests p1); [apply quests_equip_item | exact Hp1]. }
  intros ?. qbind o2. qread p2 Hp2.
  eapply hoare_bind.
  { apply put_player_quests. destruct o2 as [item |]; [| exact Hp2].
    apply (ok_same_quests p2); [apply quests_equip_item | exact Hp2]. }
  intros ?. qread p3 Hp3. qput p3 Hp3. qquiet.
  apply stable_keeps_quests, stable_show_location.
Qed.

(** *** Saving and loading *)

Lemma hoare_trivial {S A} (P : S -> Prop) (m : M S A) :
  hoare P m (fun _ _ => True) (fun _ => True).
Proof. intros s _. destruct (m s) as [[a | e] s']; exact I. Qed.

Lemma hoare_assume {S A} (F : Prop) (m : M S A) (Q : A -> S -> Prop)
    (E : S -> Prop) :
  (F -> hoare (fun _ => True) m Q E) -> hoare (fun _ => F) m Q E.
Proof. intros H s HF. now apply H. Qed.

Lemma Forall_Py_set (d : list (string * Quest.t)) (k : string)
    (v : Quest.t) :
  Forall (fun kv : string * Quest.t => quest_ok (snd kv)) d -> quest_ok v ->
  Forall (fun kv : string * Quest.t => quest_ok (snd kv)) (Py.set d k v).
Proof.
  intros Hd Hv. induction Hd as [| [k' v'] d Hv' Hd IH]; cbn [Py.set].
  - constructor; [exact Hv | constructor].
  - destruct (String.eqb k' k); constructor; assumption.
Qed.

Lemma quests_reequip (stored : option string) (p : Player.t) :
  Player.quests (Player.reequip stored p) = Player.quests p.
Proof.
  unfold Player.reequip. destruct (Player.truthy stored); [| reflexivity].
  destruct (Py.next_or_none _ _); [apply quests_equip_item | reflexivity].
Qed.

Lemma load_quests_keep_ok (docs : list (string * QuestDoc.t)) :
  Forall (fun kv => forall q, Quest.from_dict (snd kv) = Ok q -> quest_ok q)
         docs ->
  forall acc : M nat Player.t,
    hoare (fun _ => True) acc
          (fun p _ => Forall (fun kv : string * Quest.t => quest_ok (snd kv))
                             (Player.quests p))
          (fun _ => True) ->
    hoare (fun _ => True)
      (List.fold_left
         (fun (acc : M nat Player.t) (kv : string * QuestDoc.t) =>
            player <- acc ;;
            quest <- lift_result (Quest.from_dict (snd kv)) ;;
            ret (Player.set_quests
                   (Py.set (Player.quests player) (fst kv) quest) player))
         docs acc)
      (fun p _ => Forall (fun kv : string * Quest.t => quest_ok (snd kv))
                         (Player.quests p))
      (fun _ => True).
Proof.
  induction 1 as [| kv docs Hkv Hdocs IH]; intros acc Hacc; cbn [fold_left].
  - exact Hacc.
  - apply IH. eapply hoare_bind; [exact Hacc | intros player].
    cbv beta. apply hoare_assume. intros Hp.
    eapply hoare_bind
      with (Q := fun q _ => Quest.from_dict (snd kv) = Ok q).
    + apply hoare_lift_result; auto.
    + intros quest. cbv beta. apply hoare_assume. intros Hq. apply hoare_ret.
      intros s _.
      replace (Player.quests (Player.set_quests _ player))
        with (Py.set (Player.quests player) (fst kv) quest)
        by (destruct player; reflexivity).
      apply Forall_Py_set; [exact Hp | now apply Hkv].
Qed.

Lemma from_dict_quests (d : PlayerDoc.t) :
  doc_quests_ok d ->
  hoare (fun _ => True) (Player.from_dict d)
        (fun p _ => Forall (fun kv : string * Quest.t => quest_ok (snd kv))
                           (Player.quests p))
        (fun _ => True).
Proof.
  intros Hd. unfold Player.from_dict, Player.field.
  do 15 (eapply hoare_bind with (Q := fun _ _ => True);
         [apply hoare_trivial | intros ?]; cbv zeta).
  eapply hoare_bind
    with (Q := fun docs _ => PlayerDoc.quests d = Some docs).
  - apply hoare_lift_option; auto.
  - intros docs. cbv beta. apply hoare_assume. intros Hdocs.
    apply load_quests_keep_ok.
    + unfold doc_quests_ok in Hd. now rewrite Hdocs in Hd.
    + apply hoare_ret. intros s _.
      match goal with
      | |- Forall _ (Player.quests (Player.set_spells ?v ?q)) =>
          replace (Player.quests (Player.set_spells v q))
            with (Player.quests q) by (destruct q; reflexivity)
      end.
      rewrite !quests_reequip. constructor.
Qed.

Lemma alloc_from_dict_quests (d : PlayerDoc.t) :
  doc_quests_ok d ->
  hoare quests_sound (Game.alloc (Player.from_dict d))
        (fun p s => Forall (fun kv : string * Quest.t => quest_ok (snd kv))
                           (Player.quests p)
                    /\ quests_sound s)
        quests_sound.
Proof.
  intros Hd s Hs. unfold Game.alloc.
  pose proof (from_dict_quests d Hd (Game.next_id s) I) as H.
  assert (Hs' : forall n, quests_sound (Game.set_next_id n s))
    by (intros n; destruct s; exact Hs).
  destruct (Player.from_dict d (Game.next_id s)) as [[p | e] n'];
    [split; [exact H | apply Hs'] | apply Hs'].
Qed.

Lemma to_dict_quests_ok (p : Player.t) (d : PlayerDoc.t) :
  Player.to_dict p = Ok d ->
  Forall (fun kv : string * Quest.t => quest_ok (snd kv)) (Player.quests p) ->
  doc_quests_ok d.
Proof.
  unfold Player.to_dict.
  destruct (Player.spell_names (Player.spells p)); [| discriminate].
  intros [= <-] Hp. unfold doc_quests_ok. cbn [PlayerDoc.quests].
  apply Forall_map. revert Hp. apply Forall_impl.
  intros kv Hkv q Hq. cbn [snd] in Hq. rewrite quest_roundtrip in Hq.
  now injection Hq as <-.
Qed.

Lemma keeps_quests_load_game : keeps_quests Game.load_game.
Proof.
  unfold Game.load_game, keeps_quests.
  eapply hoare_bind; [apply hoare_get | intros g0].
  destruct (Game.save_file g0) as [| | d] eqn:Hf.
  - eapply hoare_conseq; [apply stable_keeps_quests, stable_log | | auto ..].
    now intros s [_ H].
  - apply hoare_raise. now intros s [_ H].
  - eapply hoare_conseq
      with (P := fun s => doc_quests_ok d /\ quests_sound s)
           (Q := fun _ => quests_sound) (E := quests_sound); [| | auto ..].
    2: { intros s [<- [Hq Hfile]]. rewrite Hf in Hfile.
         split; [exact Hfile | split; [exact Hq | now rewrite Hf]]. }
    apply hoare_pure. intros Hd.
    eapply hoare_bind; [apply alloc_from_dict_quests, Hd | intros p].
    apply hoare_pure. intros Hp.
    eapply hoare_bind with (Q := fun _ => quests_sound).
    { apply hoare_modify. intros s [_ Hfile].
      split; [unfold quests_ok | ]; destruct s; assumption. }
    intros ?. qquiet. apply stable_keeps_quests, stable_show_location.
Qed.

Lemma keeps_quests_save_game : keeps_quests Game.save_game.
Proof.
  unfold Game.save_game, keeps_quests.
  eapply hoare_bind; [apply hoare_get | intros g0].
  destruct (Game.player g0) as [p |] eqn:Hpl.
  2: { apply hoare_ret. now intros s [_ H]. }
  eapply hoare_conseq
    with (P := fun s => Forall (fun kv : string * Quest.t => quest_ok (snd kv))
                               (Player.quests p)
                        /\ quests_sound s)
         (Q := fun _ => quests_sound) (E := quests_sound); [| | auto ..].
  2: { intros s [<- Hs]. split; [| exact Hs].
       destruct Hs as [Hq _]. unfold quests_ok in Hq. now rewrite Hpl in Hq. }
  apply hoare_pure. intros Hp.
  eapply hoare_bind with (Q := fun _ => quests_sound).
  { apply hoare_modify. intros s [Hq _].
    split; [unfold quests_ok in *; destruct s; exact Hq | now destruct s]. }
  intros ?.
  eapply hoare_bind
    with (Q := fun d s => Player.to_dict p = Ok d /\ quests_sound s).
  { apply hoare_lift_result; auto. }
  intros d. apply hoare_pure. intros Hd.
  eapply hoare_bind with (Q := fun _ => quests_sound).
  { apply hoare_modify. intros s [Hq _].
    split; [unfold quests_ok in *; destruct s; exact Hq |].
    destruct s; cbn. now apply (to_dict_quests_ok p). }
  intros ?. qquiet. apply stable_keeps_quests, stable_modify. frame_setter.
Qed.

(** *** The other callbacks *)

Lemma keeps_quests_move_player (destination : string) :
  keeps_quests (Game.move_player destination).
Proof.
  unfold Game.move_player, keeps_quests.
  qread p Hp. qput p Hp. apply stable_keeps_quests, stable_show_location.
Qed.

Lemma keeps_quests_search_area : keeps_quests Game.search_area.
Proof.
  unfold Game.search_area, keeps_quests.
  qbind loc.
  destruct (Location.secret loc) as [secret |]; [| apply keeps_quests_ret].
  destruct (String.eqb secret "Found an Amulet"); [| apply keeps_quests_ret].
  qbind found. qread p Hp.
  destruct (negb _).
  - qput p Hp. qquiet. apply keeps_quests_check_quest_progress.
  - apply stable_keeps_quests, stable_log.
Qed.

Lemma npc_quest_ok (npc_name : string) (npc : Npc.t) :
  Py.get npcs npc_name = Some npc ->
  quest_ok (Quest.init (Npc.quest_name (Npc.quest npc))
                       (Npc.quest_description (Npc.quest npc))
                       (Npc.quest_stages (Npc.quest npc))
                       (Npc.quest_reward (Npc.quest npc))).
Proof.
  intros H. apply npcs_cases in H. cbn in H.
  repeat destruct H as [<- | H]; try contradiction;
    apply init_quest_ok; discriminate.
Qed.

Lemma keeps_quests_talk_to_npc (npc_name : string) :
  keeps_quests (Game.talk_to_npc npc_name).
Proof.
  unfold Game.talk_to_npc, keeps_quests.
  eapply hoare_bind
    with (Q := fun npc s => Py.get npcs npc_name = Some npc
                            /\ quests_sound s).
  { apply hoare_lift_option; auto. }
  intros npc. apply hoare_pure. intros Hnpc. cbv zeta.
  qread p Hp.
  eapply hoare_bind with (Q := fun _ => quests_sound).
  { destruct (Py.contains _ _); [apply keeps_quests_ret |].
    eapply hoare_bind; [| intros ?; apply stable_keeps_quests, stable_log].
    apply put_player_quests.
    match goal with
    | |- Forall _ (Player.quests (Player.set_quests ?v p)) =>
        replace (Player.quests (Player.set_quests v p)) with v
          by (destruct p; reflexivity)
    end.
    apply Forall_Py_set; [exact Hp | now apply (npc_quest_ok npc_name)]. }
  intros ?. qquiet. qquiet. qquiet. qquiet. qquiet.
  apply stable_keeps_quests, stable_log.
Qed.

Lemma keeps_quests_equip_action (item : Item.t) (inv_win : nat) :
  keeps_quests (Game.equip_action item inv_win).
Proof.
  unfold Game.equip_action, keeps_quests.
  qread p Hp.
  eapply hoare_bind.
  { apply put_player_quests.
    apply (ok_same_quests p); [apply quests_equip_item | exact Hp]. }
  intros ?. qquiet. qquiet. apply stable_keeps_quests, stable_destroy_window.
Qed.

Lemma keeps_quests_use_action (potion : Potion.t) (inv_win : nat) :
  keeps_quests (Game.use_action potion inv_win).
Proof.
  unfold Game.use_action, keeps_quests.
  qkeep keeps_quests_drink. qkeep keeps_quests_remove_item. qquiet.
  apply stable_keeps_quests, stable_destroy_window.
Qed.

Lemma keeps_quests_drop_action (item : Item.t) (inv_win : nat) :
  keeps_quests (Game.drop_action item inv_win).
Proof.
  unfold Game.drop_action, keeps_quests.
  qread p Hp.
  eapply hoare_bind.
  { apply put_player_quests.
    apply (ok_same_quests p); [apply quests_unequip | exact Hp]. }
  intros ?. qkeep keeps_quests_remove_item. qquiet. qquiet.
  apply stable_keeps_quests, stable_destroy_window.
Qed.

Lemma keeps_quests_handle (e : Event) : keeps_quests (handle e).
Proof.
  destruct e as [c | item w | potion w | item w]; cbn [handle].
  - destruct c; cbn [run_command].
    + apply keeps_quests_new_game.
    + apply keeps_quests_load_game.
    + apply keeps_quests_move_player.
    + apply keeps_quests_talk_to_npc.
    + apply keeps_quests_search_area.
    + apply stable_keeps_quests. auto with stable.
    + apply keeps_quests_save_game.
    + apply keeps_quests_perform_action.
    + apply keeps_quests_cast_spell.
    + apply keeps_quests_use_potion.
  - apply keeps_quests_equip_action.
  - apply keeps_quests_use_action.
  - apply keeps_quests_drop_action.
Qed.

Lemma play_keeps_quests (es : list Event) :
  forall g, quests_sound g -> quests_sound (play es g).
Proof.
  induction es as [| e es IH]; intros g Hg; cbn [play]; [exact Hg |].
  apply IH. pose proof (keeps_quests_handle e g Hg) as H.
  destruct (handle e g) as [[[] | ex] g']; exact H.
Qed.

Lemma init_quests_sound (source : nat -> Z) (file : SaveFile) :
  file_quests_ok file -> quests_sound (Game.init source file).
Proof.
  intros Hfile. unfold Game.init.
  destruct file; split; try exact I; exact Hfile.
Qed.

(** ** The quest invariant over a session *)

(** C5 (amended): in a session started with no save file, or with a save
    file in which every quest that [Quest.from_dict] reads has
    [current_stage] within its stage list and, where [completed] is true,
    at the last index, every quest the player holds after any sequence of
    button presses has [0 <= current_stage < len(stages)], and
    [current_stage = len(stages) - 1] once [completed] is true; the save
    file keeps that property.  [check_quest_progress] keeps the invariant
    from any state.  Concretely, the Old Man's two-stage quest stands at
    stage 0 when given, the find_item event of [search_area] moves it to
    stage 1 with [completed] false, and the kill_enemy event for the
    Dragon sets [completed] with [current_stage] still 1. *)
Theorem quest_stage_invariant (source : nat -> Z) (file : SaveFile)
    (es : list Event) (Hfile : file_quests_ok file) :
  (forall p name q,
     Game.player (play es (Game.init source file)) = Some p ->
     In (name, q) (Player.quests p) ->
     0 <= Quest.current_stage q < Py.len (Quest.stages q)
     /\ (Quest.completed q = true ->
         Quest.current_stage q = Py.len (Quest.stages q) - 1))
  /\ file_quests_ok (Game.save_file (play es (Game.init source file)))
  /\ (forall defeated_enemy g,
        quests_ok g ->
        quests_ok (snd (Game.check_quest_progress defeated_enemy g)))
  /\ option_map quest_view (dragon_quest quest_given) = Some (2, 0, false)
  /\ option_map quest_view (dragon_quest amulet_found) = Some (2, 1, false)
  /\ option_map quest_view (dragon_quest dragon_slain) = Some (2, 1, true).
Proof.
  pose proof (play_keeps_quests es _ (init_quests_sound source file Hfile))
    as [Hq Hsaved].
  split; [| split; [exact Hsaved | split]].
  - intros p name q Hp Hin. unfold quests_ok in Hq. rewrite Hp in Hq.
    rewrite Forall_forall in Hq. exact (Hq (name, q) Hin).
  - intros defeated_enemy g.
    apply check_quest_progress_keeps_quests_ok.
  - exact quest_scenario.
Qed.

Lemma quest_stage_invariant_witness :
  file_quests_ok NoFile
  /\ option_map quest_view
       (dragon_quest
          (play quest_session (Game.init (fun _ => float_0_6) NoFile)))
     = Some (2, 1, false)
  /\ forall p name q,
       Game.player (play quest_session (Game.init (fun _ => float_0_6) NoFile))
       = Some p ->
       In (name, q) (Player.quests p) ->
       0 <= Quest.current_stage q < Py.len (Quest.stages q)
       /\ (Quest.completed q = true ->
           Quest.current_stage q = Py.len (Quest.stages q) - 1).
Proof.
  split; [exact I | split; [vm_compute; reflexivity |]].
  exact (proj1 (quest_stage_invariant (fun _ => float_0_6) NoFile
                                      quest_session I)).
Defined.

(** Load Game reads [current_stage] from the save file as it stands: from
    a document whose Slay the Dragon quest is at stage 7 of 2 the player
    holds a quest whose [current_stage] indexes no stage, and talking to
    the Old Man, which formats [stages[current_stage]], raises
    [IndexError]. *)
Lemma load_breaks_quest_stage :
  overrun_game
  = play [Press CmdLoadGame] (Game.init (fun _ => 0) (Document overrun_save))
  /\ exists p q,
       Game.player overrun_game = Some p
       /\ In ("Slay the Dragon", q) (Player.quests p)
       /\ Py.len (Quest.stages q) = 2
       /\ Quest.current_stage q = 7
       /\ ~ (0 <= Quest.current_stage q < Py.len (Quest.stages q))
       /\ fst (Game.talk_to_npc "Old Man" overrun_game) = Raise IndexError.
Proof.
  split; [unfold overrun_game; cbn [play handle run_command]; reflexivity |].
  assert (H : exists p, Game.player overrun_game = Some p
                        /\ Py.get (Player.quests p) "Slay the Dragon"
                           = Some (Quest.set_current_stage 7
                                     (quest_of_npc old_man))
                        /\ Player.quests p
                           = [("Slay the Dragon",
                               Quest.set_current_stage 7
                                 (quest_of_npc old_man))]).
  { vm_compute. eexists. repeat apply conj; reflexivity. }
  destruct H as (p & Hp & _ & Hq).
  exists p, (Quest.set_current_stage 7 (quest_of_npc old_man)).
  split; [exact Hp |]. rewrite Hq.
  split; [left; reflexivity |].
  split; [vm_compute; reflexivity |]. split; [vm_compute; reflexivity |].
  split; [vm_compute; intros [_ H]; discriminate H |].
  vm_compute. reflexivity.
Qed.
